(** * LaserProjectSE: the scene document, its undo history and its codecs

    A shallow embedding of the document and codec layer of the laser
    scene editor ([app/models.py], [app/utils.py], [app/undo.py],
    [app/scene_tab.py] and the import/export/table handlers of
    [app/main_window.py]), followed by the properties proved about it.

    Python objects are mutable and shared: the element list of a scene and
    the entries of its undo history point to the same [SceneElement]
    objects.  The embedding therefore keeps an object store ([heap]) and
    lets lists and history entries hold references into it. *)

From Stdlib Require Import ZArith String Ascii Lia Bool.
From stdpp Require Import base tactics option list numbers strings gmap.

Open Scope Z_scope.


(** ** Python built-ins used by the codecs

    Text is modelled as ASCII strings.  Every exception is rendered as
    [None]: the program only ever catches [Exception] as a whole. *)

Module Py.

(** *** Strings *)

Definition is_space (c : ascii) : bool :=
  let n := N_of_ascii c in
  ((9 <=? n) && (n <=? 13) || (28 <=? n) && (n <=? 32))%N.

Definition is_digit (c : ascii) : bool :=
  let n := N_of_ascii c in ((48 <=? n) && (n <=? 57))%N.

Definition digit_val (c : ascii) : Z := Z.of_N (N_of_ascii c) - 48.

Definition digit_char (d : Z) : ascii := ascii_of_N (Z.to_N (48 + d)).

Definition upper_char (c : ascii) : ascii :=
  let n := N_of_ascii c in
  if ((97 <=? n) && (n <=? 122))%N then ascii_of_N (n - 32) else c.

(** [s.upper()] *)
Fixpoint upper (s : string) : string :=
  match s with
  | EmptyString => EmptyString
  | String c s' => String (upper_char c) (upper s')
  end.

(** [s.startswith(p)] *)
Fixpoint startswith (p s : string) : bool :=
  match p, s with
  | EmptyString, _ => true
  | String a p', String b s' => Ascii.eqb a b && startswith p' s'
  | String _ _, EmptyString => false
  end.

Fixpoint lstrip (s : string) : string :=
  match s with
  | EmptyString => EmptyString
  | String c s' => if is_space c then lstrip s' else s
  end.

Fixpoint rstrip (s : string) : string :=
  match s with
  | EmptyString => EmptyString
  | String c s' =>
      match rstrip s' with
      | EmptyString => if is_space c then EmptyString else String c EmptyString
      | r => String c r
      end
  end.

(** [s.strip()] *)
Definition strip (s : string) : string := rstrip (lstrip s).

(** [s.split()]: the maximal runs of non-blank characters. *)
Fixpoint split (s : string) : list string :=
  match s with
  | EmptyString => []
  | String c s' =>
      if is_space c then split s'
      else
        match s' with
        | EmptyString => [String c EmptyString]
        | String c' _ =>
            if is_space c' then String c EmptyString :: split s'
            else
              match split s' with
              | w :: ws => String c w :: ws
              | [] => [String c EmptyString]
              end
        end
  end.

(** [a, b = s.split(",", 1)]: [None] when there is no comma, where the
    unpacking raises ValueError. *)
Fixpoint split_comma (s : string) : option (string * string) :=
  match s with
  | EmptyString => None
  | String c s' =>
      if Ascii.eqb c "," then Some (EmptyString, s')
      else
        match split_comma s' with
        | Some (a, b) => Some (String c a, b)
        | None => None
        end
  end.

(** [f.readlines()] of a text file opened with universal newlines: a line
    ends at LF, CR LF or CR, each read as LF, and keeps its terminator.
    [after_cr] tells that the previous character was a CR. *)
Fixpoint readlines_from (after_cr : bool) (s : string) : list string :=
  match s with
  | EmptyString => []
  | String c s' =>
      if Ascii.eqb c "010" then
        if after_cr then readlines_from false s'
        else String "010" EmptyString :: readlines_from false s'
      else if Ascii.eqb c "013" then
        String "010" EmptyString :: readlines_from true s'
      else
        match s' with
        | EmptyString => [String c EmptyString]
        | _ =>
            match readlines_from false s' with
            | l :: ls => String c l :: ls
            | [] => [String c EmptyString]
            end
        end
  end.

Definition readlines (s : string) : list string := readlines_from false s.

(** *** Integers and text *)

(** The decimal digits of [n >= 0], written in front of [acc]. *)
Fixpoint digits_of (fuel : nat) (n : Z) (acc : string) : string :=
  let acc' := String (digit_char (n mod 10)) acc in
  match fuel with
  | O => acc'
  | S f => if n <? 10 then acc' else digits_of f (n / 10) acc'
  end.

(** [str(n)] and the [{n}] of an f-string, for an integer. *)
Definition str (n : Z) : string :=
  if n <? 0 then String "-" (digits_of (Z.to_nat (Z.log2 (- n))) (- n) EmptyString)
  else digits_of (Z.to_nat (Z.log2 n)) n EmptyString.

(** Reads a [digitpart]: digits, with single underscores allowed between
    two digits.  Returns the value read on top of [acc], the number of
    digits, and the text left. *)
Fixpoint scan_digits (s : string) (acc : Z) (n : Z) : Z * Z * string :=
  match s with
  | String c s' =>
      if is_digit c then
        match s' with
        | String u t =>
            if Ascii.eqb u "_" then
              match t with
              | String d _ =>
                  if is_digit d
                  then scan_digits t (10 * acc + digit_val c) (n + 1)
                  else (10 * acc + digit_val c, n + 1, s')
              | EmptyString => (10 * acc + digit_val c, n + 1, s')
              end
            else scan_digits s' (10 * acc + digit_val c) (n + 1)
        | EmptyString => scan_digits s' (10 * acc + digit_val c) (n + 1)
        end
      else (acc, n, s)
  | EmptyString => (acc, n, s)
  end.

(** One optional sign. *)
Definition scan_sign (s : string) : bool * string :=
  match s with
  | String c s' =>
      if Ascii.eqb c "-" then (true, s')
      else if Ascii.eqb c "+" then (false, s')
      else (false, s)
  | EmptyString => (false, s)
  end.

(** [int(s)] for a string, base 10.  (The limit that recent interpreters
    put on the number of digits is not modelled.) *)
Definition int_of_str (s : string) : option Z :=
  let '(neg, s1) := scan_sign (strip s) in
  match scan_digits s1 0 0 with
  | (v, n, EmptyString) =>
      if 0 <? n then Some (if neg then - v else v) else None
  | _ => None
  end.

(** *** Floats

    A Python [float] is an IEEE 754 double.  A finite one is kept as the
    exact dyadic number [m * 2^e]; every operation computes the exact
    result and rounds it to the nearest double, ties to even. *)

Inductive float : Type :=
| FFin (m e : Z)
| FInf (neg : bool)
| FNaN.

(** [floor (log2 (n / d))] for [n, d > 0]. *)
Definition ilog2_ratio (n d : Z) : Z :=
  let k := Z.log2 n - Z.log2 d in
  if d * 2 ^ Z.max 0 k <=? n * 2 ^ Z.max 0 (- k) then k else k - 1.

(** [n / d] rounded to the nearest integer, ties to even ([d > 0]). *)
Definition div_half_even (n d : Z) : Z :=
  let q := n / d in
  let r := n mod d in
  if 2 * r <? d then q
  else if d <? 2 * r then q + 1
  else if Z.even q then q else q + 1.

(** The double nearest to [n / d], for [n >= 0] and [d > 0], as its
    significand and exponent: 53 bits, exponent at least -1074. *)
Definition round_ratio (n d : Z) : Z * Z :=
  if n =? 0 then (0, 0)
  else
    let e := Z.max (ilog2_ratio n d - 52) (-1074) in
    (div_half_even (n * 2 ^ Z.max 0 (- e)) (d * 2 ^ Z.max 0 e), e).

(** The rounded magnitude does not fit a double. *)
Definition overflows (me : Z * Z) : bool :=
  let '(m, e) := me in (0 <=? e) && (2 ^ 1024 <=? m * 2 ^ e).

(** The sign is applied after rounding the magnitude. *)
Definition signed (neg : bool) (me : Z * Z) : float :=
  if overflows me then FInf neg
  else FFin (if neg then - fst me else fst me) (snd me).

(** The float of the rational [n / d], [d > 0]; infinite on overflow. *)
Definition float_of_ratio (n d : Z) : float :=
  signed (n <? 0) (round_ratio (Z.abs n) d).

(** The float of the dyadic number [m * 2^e]. *)
Definition float_of_dyadic (m e : Z) : float :=
  float_of_ratio (m * 2 ^ Z.max 0 e) (2 ^ Z.max 0 (- e)).

Definition finite (x : float) : option float :=
  match x with FFin _ _ => Some x | _ => None end.

(** [float(n)] and the implicit conversion of an [int] operand:
    OverflowError when [n] is too large. *)
Definition float_of_int (n : Z) : option float :=
  finite (float_of_ratio n 1).

(** [a / b] on two [int]s: ZeroDivisionError, or OverflowError when the
    quotient is too large. *)
Definition truediv (a b : Z) : option float :=
  if b =? 0 then None
  else finite (float_of_ratio (if b <? 0 then - a else a) (Z.abs b)).

Definition is_neg (x : float) : bool :=
  match x with FFin m _ => m <? 0 | FInf neg => neg | FNaN => false end.

Definition is_zero (x : float) : bool :=
  match x with FFin m _ => m =? 0 | _ => false end.

(** [x * y] on floats. *)
Definition fmul (x y : float) : float :=
  match x, y with
  | FNaN, _ | _, FNaN => FNaN
  | FFin m1 e1, FFin m2 e2 => float_of_dyadic (m1 * m2) (e1 + e2)
  | _, _ =>
      if is_zero x || is_zero y then FNaN
      else FInf (xorb (is_neg x) (is_neg y))
  end.

(** [x + y] on floats. *)
Definition fadd (x y : float) : float :=
  match x, y with
  | FNaN, _ | _, FNaN => FNaN
  | FFin m1 e1, FFin m2 e2 =>
      let e := Z.min e1 e2 in
      float_of_dyadic (m1 * 2 ^ (e1 - e) + m2 * 2 ^ (e2 - e)) e
  | FInf a, FInf b => if Bool.eqb a b then FInf a else FNaN
  | FInf a, _ | _, FInf a => FInf a
  end.

(** [round(x)] with one argument: the nearest [int], ties to even;
    OverflowError or ValueError on an infinity or a NaN. *)
Definition round (x : float) : option Z :=
  match x with
  | FFin m e =>
      let a := div_half_even (Z.abs m * 2 ^ Z.max 0 e) (2 ^ Z.max 0 (- e)) in
      Some (if m <? 0 then - a else a)
  | _ => None
  end.

(** [int(x)] on a float: truncation towards zero. *)
Definition int_of_float (x : float) : option Z :=
  match x with
  | FFin m e => Some (Z.quot (m * 2 ^ Z.max 0 e) (2 ^ Z.max 0 (- e)))
  | _ => None
  end.

(** [math.pi] *)
Definition pi : float := FFin 7074237752028440 (-51).

(** [float(s)] for a string: an optional sign, then [inf], [infinity] or
    [nan] in any case, or a decimal number with an optional fraction and
    an optional exponent; blanks around it are ignored. *)
Definition float_of_str (s : string) : option float :=
  let '(neg, s1) := scan_sign (strip s) in
  let u := upper s1 in
  if String.eqb u "INF" || String.eqb u "INFINITY" then Some (FInf neg)
  else if String.eqb u "NAN" then Some FNaN
  else
    let '(ip, n1, r1) := scan_digits s1 0 0 in
    let '(mant, n2, r2) :=
      match r1 with
      | String c t =>
          if Ascii.eqb c "." then
            let '(m, k, r) := scan_digits t ip 0 in
            if (0 <? n1) || (0 <? k) then (m, k, Some r) else (m, k, None)
          else (ip, 0, if 0 <? n1 then Some r1 else None)
      | EmptyString => (ip, 0, if 0 <? n1 then Some r1 else None)
      end in
    match r2 with
    | None => None
    | Some r2 =>
        let ex :=
          match r2 with
          | EmptyString => Some 0
          | String c t =>
              if Ascii.eqb (upper_char c) "E" then
                let '(eneg, t1) := scan_sign t in
                match scan_digits t1 0 0 with
                | (v, k, EmptyString) =>
                    if 0 <? k then Some (if eneg then - v else v) else None
                | _ => None
                end
              else None
          end in
        match ex with
        | None => None
        | Some x =>
            let p := x - n2 in
            Some (signed neg (round_ratio (mant * 10 ^ Z.max 0 p)
                                          (10 ^ Z.max 0 (- p))))
        end
    end.

(** [int(float(s))] *)
Definition int_float (s : string) : option Z :=
  match float_of_str s with
  | Some x => int_of_float x
  | None => None
  end.

End Py.

(** ** app/models.py *)

Definition point : Type := Z * Z.
Definition rgb : Type := Z * Z * Z.

(** [@dataclass class SceneElement]: the generated [__eq__] compares the
    four fields, which is Leibniz equality of records here. *)
Record SceneElement : Type := mkSceneElement {
  kind : string;
  points : list point;
  color : rgb;
  radius : Z
}.

Global Instance SceneElement_eq_dec : EqDecision SceneElement.
Proof. solve_decision. Defined.

(** An object reference: the index of the object in the store.  Objects
    are allocated at the end of the store and never freed. *)
Definition ref : Type := nat.
Abbreviation heap := (list SceneElement).

Definition alloc (h : heap) (e : SceneElement) : heap * ref :=
  (h ++ [e], length h).

(** [a == b] on two [SceneElement] objects, as [list.__contains__] and
    [list.remove] evaluate it: identity first, then the dataclass [__eq__]. *)
Definition py_eq (h : heap) (a b : ref) : bool :=
  bool_decide (a = b) ||
  match h !! a, h !! b with
  | Some x, Some y => bool_decide (x = y)
  | _, _ => false
  end.

(** [el in l] *)
Definition py_in (h : heap) (el : ref) (l : list ref) : bool :=
  existsb (fun x => py_eq h x el) l.

(** [l.remove(el)]: drops the first item equal to [el].  Python raises
    ValueError when there is none; every call in the program is guarded by
    [el in l], and the list is returned as it is in that case. *)
Fixpoint py_remove (h : heap) (el : ref) (l : list ref) : list ref :=
  match l with
  | [] => []
  | x :: l' => if py_eq h x el then l' else x :: py_remove h el l'
  end.

(** [l.pop()] on a Python list used as a stack: the top is the last
    item. *)
Fixpoint pop {A} (l : list A) : option (list A * A) :=
  match l with
  | [] => None
  | x :: l' =>
      match pop l' with
      | None => Some ([], x)
      | Some (r, y) => Some (x :: r, y)
      end
  end.

(** ** app/utils.py: the colour codec *)

Definition color_to_code (c : rgb) : Z :=
  let '(r, g, b) := c in
  if (g <=? r) && (b <=? r) then 1
  else if (r <=? g) && (b <=? g) then 2
  else 3.

Definition code_to_color (code : Z) : rgb :=
  if code =? 1 then (255, 0, 0)
  else if code =? 2 then (0, 255, 0)
  else (0, 0, 255).

(** ** app/utils.py: circle sampling

    [math.cos] and [math.sin] are parameters: only their being defined, and
    bounded by 1, on finite arguments matters below. *)

Section Trigonometry.

Variables cos sin : Py.float -> option Py.float.

(** One turn of the loop of [circle_to_points]: the point at index [i],
    or an exception. *)
Definition circle_point (cen : point) (r s i : Z) : option point :=
  let '(cx, cy) := cen in
  two ← Py.float_of_int 2;
  q ← Py.truediv i s;
  let t := Py.fmul (Py.fmul two Py.pi) q in
  rf ← Py.float_of_int r;
  c ← cos t;
  cxf ← Py.float_of_int cx;
  x ← Py.round (Py.fadd cxf (Py.fmul rf c));
  rf' ← Py.float_of_int r;
  sn ← sin t;
  cyf ← Py.float_of_int cy;
  y ← Py.round (Py.fadd cyf (Py.fmul rf' sn));
  Some (x, y).

(** [range(s)] *)
Definition range (s : Z) : list Z := Z.of_nat <$> seq 0 (Z.to_nat s).

Definition circle_to_points (cen : point) (r s : Z) : option (list point) :=
  if (r <=? 0) || (s <=? 0) then Some []
  else mapM (circle_point cen r s) (range s).

End Trigonometry.

(** ** app/undo.py *)

Module UndoManager.

Inductive op : Type := add | remove.

Global Instance op_eq_dec : EqDecision op.
Proof. solve_decision. Defined.

Record t : Type := mk {
  _undo : list (op * ref);
  _redo : list (op * ref)
}.

Definition init : t := mk [] [].

Definition push_add (element : ref) (um : t) : t :=
  mk (_undo um ++ [(add, element)]) [].

Definition push_remove (element : ref) (um : t) : t :=
  mk (_undo um ++ [(remove, element)]) [].

Definition can_undo (um : t) : bool :=
  match _undo um with [] => false | _ => true end.

Definition can_redo (um : t) : bool :=
  match _redo um with [] => false | _ => true end.

(** [undo(elements)] mutates the manager and the list it is given; both
    are returned. *)
Definition undo (h : heap) (um : t) (elements : list ref) : t * list ref :=
  match pop (_undo um) with
  | None => (um, elements)
  | Some (rest, (add, el)) =>
      (mk rest (_redo um ++ [(add, el)]),
       if py_in h el elements then py_remove h el elements else elements)
  | Some (rest, (remove, el)) =>
      (mk rest (_redo um ++ [(remove, el)]), elements ++ [el])
  end.

Definition redo (h : heap) (um : t) (elements : list ref) : t * list ref :=
  match pop (_redo um) with
  | None => (um, elements)
  | Some (rest, (add, el)) =>
      (mk (_undo um ++ [(add, el)]) rest, elements ++ [el])
  | Some (rest, (remove, el)) =>
      (mk (_undo um ++ [(remove, el)]) rest,
       if py_in h el elements then py_remove h el elements else elements)
  end.

End UndoManager.

(** ** app/scene_tab.py: the document *)

Module SceneTab.

(** The fields of a [SceneTab] that the document layer reads or writes;
    the Qt view, the pan state and the highlight index are left out. *)
Record t : Type := mk {
  grid_size : Z;
  cell_size : Z;
  cc : rgb;
  tool : string;
  _temp_points : list point;
  _circle_center : option point;
  elements : list ref;
  undo_manager : UndoManager.t
}.

Definition init (grid_size cell_size : Z) : t :=
  mk grid_size cell_size (255, 0, 0) "polyline" [] None [] UndoManager.init.

Definition set_cc (c : rgb) (sc : t) : t :=
  mk (grid_size sc) (cell_size sc) c (tool sc) (_temp_points sc)
     (_circle_center sc) (elements sc) (undo_manager sc).

Definition set_tool (s : string) (sc : t) : t :=
  mk (grid_size sc) (cell_size sc) (cc sc) s (_temp_points sc)
     (_circle_center sc) (elements sc) (undo_manager sc).

Definition set_grid (gs cs : Z) (sc : t) : t :=
  mk gs cs (cc sc) (tool sc) (_temp_points sc)
     (_circle_center sc) (elements sc) (undo_manager sc).

Definition set_temp_points (pts : list point) (sc : t) : t :=
  mk (grid_size sc) (cell_size sc) (cc sc) (tool sc) pts
     (_circle_center sc) (elements sc) (undo_manager sc).

Definition set_circle_center (c : option point) (sc : t) : t :=
  mk (grid_size sc) (cell_size sc) (cc sc) (tool sc) (_temp_points sc)
     c (elements sc) (undo_manager sc).

Definition set_elements (els : list ref) (um : UndoManager.t) (sc : t) : t :=
  mk (grid_size sc) (cell_size sc) (cc sc) (tool sc) (_temp_points sc)
     (_circle_center sc) els um.

(** [sc.elements.append(el); sc.undo_manager.push_add(sc.elements[-1])] *)
Definition append_element (el : ref) (sc : t) : t :=
  set_elements (elements sc ++ [el])
               (UndoManager.push_add el (undo_manager sc)) sc.

Definition commit_polyline (h : heap) (sc : t) : heap * t * option ref :=
  if 2 <=? Z.of_nat (length (_temp_points sc)) then
    let '(h', el) :=
      alloc h (mkSceneElement "polyline" (_temp_points sc) (cc sc) 0) in
    (h', set_temp_points [] (append_element el sc), Some el)
  else (h, sc, None).

Definition commit_circle_from_center (cen : point) (r : Z) (h : heap) (sc : t)
  : heap * t * ref :=
  let '(h', el) := alloc h (mkSceneElement "circle" [cen] (cc sc) r) in
  (h', set_circle_center None (append_element el sc), el).

Definition clear_temporary (sc : t) : t :=
  set_circle_center None (set_temp_points [] sc).

Definition clear_all (sc : t) : t :=
  set_circle_center None
    (set_temp_points [] (set_elements [] UndoManager.init sc)).

Definition remove_element (h : heap) (el : ref) (sc : t) : t :=
  if py_in h el (elements sc) then
    set_elements (py_remove h el (elements sc))
                 (UndoManager.push_remove el (undo_manager sc)) sc
  else sc.

Definition undo (h : heap) (sc : t) : t :=
  let '(um, els) := UndoManager.undo h (undo_manager sc) (elements sc) in
  set_elements els um sc.

Definition redo (h : heap) (sc : t) : t :=
  let '(um, els) := UndoManager.redo h (undo_manager sc) (elements sc) in
  set_elements els um sc.

(** [_map_event_to_scene], from the rounded scene coordinates on. *)
Definition clamp_to_grid (sc : t) (p : point) : point :=
  (Z.max 0 (Z.min (grid_size sc) (fst p)),
   Z.max 0 (Z.min (grid_size sc) (snd p))).

(** Calls of the editing interface, for statements about sequences of
    them.  The first two stand for what the mouse handler and the window
    do between two edits: buffer a point, choose the drawing colour. *)
Inductive call : Type :=
| AppendTempPoint (p : point)
| SetCc (c : rgb)
| CommitPolyline
| CommitCircle (cen : point) (r : Z)
| RemoveElement (el : ref).


Definition run_call (st : heap * t) (c : call) : heap * t :=
  let '(h, sc) := st in
  match c with
  | AppendTempPoint p => (h, set_temp_points (_temp_points sc ++ [p]) sc)
  | SetCc c => (h, set_cc c sc)
  | CommitPolyline => (commit_polyline h sc).1
  | CommitCircle cen r => (commit_circle_from_center cen r h sc).1
  | RemoveElement el => (h, remove_element h el sc)
  end.



Definition run_calls (st : heap * t) (cs : list call) : heap * t :=
  foldl run_call st cs.


End SceneTab.

(** ** Notions used in the proofs about the history *)

(** Two references are equal for Python exactly when they have the same
    key: the object's data when it is allocated, the reference itself
    otherwise. *)
Definition key (h : heap) (r : ref) : SceneElement + ref :=
  match h !! r with
  | Some e => inl e
  | None => inr r
  end.

(** The effect of a history entry on the element list when it is first
    made or redone ([forward]), and when it is undone ([backward]). *)
Definition forward (h : heap) (l : list ref) (x : UndoManager.op * ref)
  : list ref :=
  match x with
  | (UndoManager.add, el) => l ++ [el]
  | (UndoManager.remove, el) =>
      if py_in h el l then py_remove h el l else l
  end.

Definition backward (h : heap) (x : UndoManager.op * ref) (l : list ref)
  : list ref :=
  match x with
  | (UndoManager.add, el) =>
      if py_in h el l then py_remove h el l else l
  | (UndoManager.remove, el) => l ++ [el]
  end.

(** Every removal of the log finds its element when the log is played
    from the list [l]. *)
Fixpoint log_ok (h : heap) (log : list (UndoManager.op * ref))
    (l : list ref) : Prop :=
  match log with
  | [] => True
  | x :: log' =>
      match x with
      | (UndoManager.add, _) => True
      | (UndoManager.remove, el) => py_in h el l = true
      end /\ log_ok h log' (forward h l x)
  end.

(** The object is in the store. *)
Definition allocated (h : heap) (r : ref) : Prop := (r < length h)%nat.


(** ** app/main_window.py: codecs and table editing *)

(** A cell of a CSV record as the two readers deliver it: text from
    [csv.DictReader], numbers from a pandas frame, [None] for a field that
    a short row lacks. *)
Inductive value : Type :=
| VStr (s : string)
| VInt (n : Z)
| VFloat (x : Py.float)
| VNone.

Global Instance float_eq_dec : EqDecision Py.float.
Proof. solve_decision. Defined.

Global Instance value_eq_dec : EqDecision value.
Proof. solve_decision. Defined.

(** What an interrupted computation leaves behind: the state reached when
    it finished, or the state reached when an exception left it. *)
Inductive outcome (A : Type) : Type :=
| Done (a : A)
| Raised (a : A).
Arguments Done {A} a.
Arguments Raised {A} a.

Module MainWindow.

(** [sc.elements.append(e); sc.undo_manager.push_add(sc.elements[-1])]
    with a newly built element [e]. *)
Definition add_element (e : SceneElement) (st : heap * SceneTab.t)
  : heap * SceneTab.t :=
  let '(h', el) := alloc st.1 e in (h', SceneTab.append_element el st.2).

(** *** import_laser_format *)

(** The local variables of the parsing loop, with the store and the
    scene being filled. *)
Record laser_state : Type := mk_laser {
  cc : option rgb;
  cp : list point;
  doc : heap * SceneTab.t
}.

(** [if cp and cc is not None: append the polyline] *)
Definition flush (cc : option rgb) (cp : list point) (st : heap * SceneTab.t)
  : heap * SceneTab.t :=
  match cp, cc with
  | _ :: _, Some c => add_element (mkSceneElement "polyline" cp c 0) st
  | _, _ => st
  end.

Definition flushes (cc : option rgb) (cp : list point) : bool :=
  match cp, cc with _ :: _, Some _ => true | _, _ => false end.

(** The code of a COLOR line: its second word read by [int], or 1. *)
Definition color_code (ln : string) : Z :=
  match Py.split ln with
  | _ :: w :: _ => default 1 (Py.int_of_str w)
  | _ => 1
  end.

(** [px, py = ln.split(",", 1)]; both read by [int(float(_.strip()))]. *)
Definition parse_point (ln : string) : option point :=
  '(px, py) ← Py.split_comma ln;
  x ← Py.int_float (Py.strip px);
  y ← Py.int_float (Py.strip py);
  Some (x, y).

(** One turn of the loop, on a stripped line. *)
Definition laser_line (s : laser_state) (ln : string) : laser_state :=
  if String.eqb ln "" then s
  else if Py.startswith "COLOR" (Py.upper ln) then
    mk_laser (Some (code_to_color (color_code ln)))
             (if flushes (cc s) (cp s) then [] else cp s)
             (flush (cc s) (cp s) (doc s))
  else if String.eqb (Py.upper ln) "STOP" then
    mk_laser (cc s) [] (flush (cc s) (cp s) (doc s))
  else
    match parse_point ln with
    | Some p => mk_laser (cc s) (cp s ++ [p]) (doc s)
    | None => s
    end.

Definition laser_loop (s : laser_state) (lines : list string) : laser_state :=
  foldl laser_line s lines.

(** The flush after the loop. *)
Definition laser_finish (s : laser_state) : heap * SceneTab.t :=
  flush (cc s) (cp s) (doc s).

(** The import proper, from the lines read from the file: a new scene
    tab with the window's grid settings is filled. *)
Definition import_lines (grid_size cell_size : Z) (lines : list string)
    (h : heap) : heap * SceneTab.t :=
  laser_finish
    (laser_loop (mk_laser None [] (h, SceneTab.init grid_size cell_size))
                (Py.strip <$> lines)).

Definition import_laser_format (grid_size cell_size : Z) (text : string)
    (h : heap) : heap * SceneTab.t :=
  import_lines grid_size cell_size (Py.readlines text) h.

(** *** export_laser_format *)

Definition newline : string := String "010" EmptyString.

Section LaserExport.

Variables cos sin : Py.float -> option Py.float.

(** [round((o / max(1, g)) * 255)] *)
Definition normalized (o g : Z) : option Z :=
  q ← Py.truediv o (Z.max 1 g);
  k ← Py.float_of_int 255;
  Py.round (Py.fmul q k).

(** The line written for one point. *)
Definition point_line (normalize : bool) (grid_size : Z) (p : point)
  : option string :=
  let '(ox, oy) := p in
  if normalize then
    nx ← normalized ox grid_size;
    ny ← normalized oy grid_size;
    Some (Py.str nx +:+ "," +:+ Py.str ny +:+ newline)
  else Some (Py.str ox +:+ "," +:+ Py.str oy +:+ newline).

(** The points written for an element. *)
Definition export_points (steps : Z) (e : SceneElement)
  : option (list point) :=
  if String.eqb (kind e) "polyline" then Some (points e)
  else if String.eqb (kind e) "circle" then
    cen ← points e !! 0%nat;
    circle_to_points cos sin cen (radius e) steps
  else Some [].

(** The text written for one element. *)
Definition export_element (normalize : bool) (grid_size steps : Z)
    (e : SceneElement) : option string :=
  pts ← export_points steps e;
  ls ← mapM (point_line normalize grid_size) pts;
  Some ("COLOR " +:+ Py.str (color_to_code (color e)) +:+ newline
        +:+ String.concat "" ls +:+ "STOP" +:+ newline).

(** The text written to the file; [None] when an exception stops the
    export (the file is then left with part of the text). *)
Definition export_laser_format (normalize : bool) (grid_size steps : Z)
    (h : heap) (sc : SceneTab.t) : option string :=
  es ← mapM (fun el => h !! el) (SceneTab.elements sc);
  ts ← mapM (export_element normalize grid_size steps) es;
  Some (String.concat "" ts).

End LaserExport.

(** *** Table editing *)

Definition set_points (pts : list point) (e : SceneElement) : SceneElement :=
  mkSceneElement (kind e) pts (color e) (radius e).

Definition set_color (c : rgb) (e : SceneElement) : SceneElement :=
  mkSceneElement (kind e) (points e) c (radius e).

Definition set_radius (r : Z) (e : SceneElement) : SceneElement :=
  mkSceneElement (kind e) (points e) (color e) r.

(** [table_row_map[row]] then [sc.elements[el_idx]], with the range
    checks of both handlers. *)
Definition table_target (table_row_map : list (Z * Z)) (row : Z)
    (sc : SceneTab.t) : option (ref * Z) :=
  if (row <? 0) || (Z.of_nat (length table_row_map) <=? row) then None
  else
    '(el_idx, sub_idx) ← table_row_map !! Z.to_nat row;
    if (el_idx <? 0) || (Z.of_nat (length (SceneTab.elements sc)) <=? el_idx)
    then None
    else el ← SceneTab.elements sc !! Z.to_nat el_idx; Some (el, sub_idx).

(** [_on_color_changed_in_table]: the element object is changed in place;
    the scene itself is not touched. *)
Definition _on_color_changed_in_table (table_row_map : list (Z * Z))
    (row combo_index : Z) (h : heap) (sc : SceneTab.t) : heap :=
  match table_target table_row_map row sc with
  | Some (el, _) =>
      match h !! el with
      | Some e => <[el := set_color (code_to_color (combo_index + 1)) e]> h
      | None => h
      end
  | None => h
  end.

(** The body of the [try] of [_on_table_item_changed]; [None] is an
    exception, after which the handler returns.  [cell r c] is the text
    of the table item at row [r] and column [c], if there is one. *)
Definition table_edit (cell : Z -> Z -> option string) (row col sub_idx : Z)
    (grid_size : Z) (e : SceneElement) : option SceneElement :=
  if (col =? 4) || (col =? 5) then
    match cell row 4, cell row 5 with
    | Some x_text, Some y_text =>
        x ← Py.int_float x_text;
        y ← Py.int_float y_text;
        let x := Z.max 0 (Z.min grid_size x) in
        let y := Z.max 0 (Z.min grid_size y) in
        if String.eqb (kind e) "polyline" then
          if (0 <=? sub_idx) && (sub_idx <? Z.of_nat (length (points e)))
          then Some (set_points (<[Z.to_nat sub_idx := (x, y)]> (points e)) e)
          else Some e
        else if String.eqb (kind e) "circle" then
          if sub_idx =? 0 then
            match points e with
            | [] => None
            | _ :: _ => Some (set_points (<[0%nat := (x, y)]> (points e)) e)
            end
          else Some e
        else Some e
    | _, _ => Some e
    end
  else if col =? 6 then
    if String.eqb (kind e) "circle" then
      text ← cell row col;
      val ← Py.int_float text;
      Some (set_radius (Z.max 0 val) e)
    else Some e
  else Some e.

Definition _on_table_item_changed (table_row_map : list (Z * Z))
    (cell : Z -> Z -> option string) (row col : Z)
    (h : heap) (sc : SceneTab.t) : heap :=
  match table_target table_row_map row sc with
  | Some (el, sub_idx) =>
      match h !! el with
      | Some e =>
          match table_edit cell row col sub_idx (SceneTab.grid_size sc) e with
          | Some e' => <[el := e']> h
          | None => h
          end
      | None => h
      end
  | None => h
  end.

(** *** open_csv *)

(** [r.get(k, d)] *)
Definition get (r : gmap string value) (k : string) (d : value) : value :=
  default d (r !! k).

(** [float(v)] *)
Definition to_float (v : value) : option Py.float :=
  match v with
  | VStr s => Py.float_of_str s
  | VInt n => Py.float_of_int n
  | VFloat x => Some x
  | VNone => None
  end.

(** [int(float(v))] *)
Definition to_int_float (v : value) : option Z :=
  x ← to_float v; Py.int_of_float x.

(** [int(v)] *)
Definition to_int (v : value) : option Z :=
  match v with
  | VStr s => Py.int_of_str s
  | VInt n => Some n
  | VFloat x => Py.int_of_float x
  | VNone => None
  end.

(** [v in (None, "")] *)
Definition is_blank (v : value) : bool :=
  match v with
  | VNone => true
  | VStr s => String.eqb s ""
  | _ => false
  end.

(** The local variables of the loop over the records. *)
Record csv_state : Type := mk_csv {
  current_poly : list point;
  csv_cc : option rgb;
  csv_doc : heap * SceneTab.t
}.

(** [if current_poly: append the polyline of colour cc].  Points are only
    collected once [cc] is set, so the third case does not occur. *)
Definition csv_flush (poly : list point) (cc : option rgb)
    (st : heap * SceneTab.t) : heap * SceneTab.t :=
  match poly, cc with
  | _ :: _, Some c => add_element (mkSceneElement "polyline" poly c 0) st
  | _, _ => st
  end.

(** The five conversions at the head of the loop body. *)
Definition csv_fields (r : gmap string value) : option (Z * Z * rgb) :=
  x ← to_int_float (get r "x" (VInt 0));
  y ← to_int_float (get r "y" (VInt 0));
  rc ← to_int_float (get r "r" (VInt 0));
  gc ← to_int_float (get r "g" (VInt 0));
  bc ← to_int_float (get r "b" (VInt 0));
  Some (x, y, (rc, gc, bc)).

(** One turn of the loop.  No handler surrounds the loop: an exception
    leaves it, and [open_csv], at once. *)
Definition csv_row (s : csv_state) (r : gmap string value)
  : outcome csv_state :=
  let kind := get r "kind" (VStr "polyline") in
  match csv_fields r with
  | None => Raised s
  | Some (x, y, color) =>
      let radius := get r "radius" (VStr "") in
      if bool_decide (kind = VStr "polyline") then
        let '(cc1, poly1) :=
          match csv_cc s with
          | None => (color, [])
          | Some c => (c, current_poly s)
          end in
        if bool_decide (color ≠ cc1) && bool_decide (poly1 ≠ []) then
          Done (mk_csv [(x, y)] (Some color)
                       (csv_flush poly1 (Some cc1) (csv_doc s)))
        else Done (mk_csv (poly1 ++ [(x, y)]) (Some cc1) (csv_doc s))
      else if bool_decide (kind = VStr "circle") then
        let s1 :=
          match current_poly s with
          | [] => s
          | _ :: _ =>
              mk_csv [] None (csv_flush (current_poly s) (csv_cc s) (csv_doc s))
          end in
        match (if is_blank radius then Some 0 else to_int radius) with
        | None => Raised s1
        | Some rr =>
            Done (mk_csv (current_poly s1) (csv_cc s1)
                    (add_element (mkSceneElement "circle" [(x, y)] color rr)
                                 (csv_doc s1)))
        end
      else Done s
  end.

Fixpoint csv_loop (s : csv_state) (rows : list (gmap string value))
  : outcome csv_state :=
  match rows with
  | [] => Done s
  | r :: rows' =>
      match csv_row s r with
      | Done s' => csv_loop s' rows'
      | Raised s' => Raised s'
      end
  end.

(** [open_csv], from the records read from the file: they go to a new
    scene tab. *)
Definition open_csv (grid_size cell_size : Z)
    (rows : list (gmap string value)) (h : heap)
  : outcome (heap * SceneTab.t) :=
  match csv_loop (mk_csv [] None (h, SceneTab.init grid_size cell_size)) rows with
  | Done s => Done (csv_flush (current_poly s) (csv_cc s) (csv_doc s))
  | Raised s => Raised (csv_doc s)
  end.

(** *** The window: its settings, its scene tabs and the object store *)

Record t : Type := mk {
  grid_size : Z;
  cell_size : Z;
  _circle_export_steps : Z;
  _normalize_on_export : bool;
  tabs : list SceneTab.t;
  current : nat;
  store : heap
}.

(** [__init__] with no saved settings: one empty scene. *)
Definition init : t :=
  mk 255 1 90 false [SceneTab.init 255 1] 0 [].

Definition current_scene (w : t) : option SceneTab.t := tabs w !! current w.

Definition set_doc (st : heap * SceneTab.t) (w : t) : t :=
  mk (grid_size w) (cell_size w) (_circle_export_steps w)
     (_normalize_on_export w) (<[current w := st.2]> (tabs w)) (current w) st.1.

(** Runs a scene operation on the current scene, if there is one. *)
Definition on_current (f : heap -> SceneTab.t -> heap * SceneTab.t) (w : t) : t :=
  match current_scene w with
  | Some sc => set_doc (f (store w) sc) w
  | None => w
  end.

(** [new_scene_tab], followed by filling the new scene. *)
Definition add_tab (st : heap * SceneTab.t) (w : t) : t :=
  mk (grid_size w) (cell_size w) (_circle_export_steps w)
     (_normalize_on_export w) (tabs w ++ [st.2]) (length (tabs w)) st.1.

Definition new_scene_tab (w : t) : t :=
  add_tab (store w, SceneTab.init (grid_size w) (cell_size w)) w.

Definition select_tab (i : nat) (w : t) : t :=
  mk (grid_size w) (cell_size w) (_circle_export_steps w)
     (_normalize_on_export w) (tabs w) i (store w).

(** [close_tab]; the tab widget chooses the next current tab. *)
Definition close_tab (index next : nat) (w : t) : t :=
  mk (grid_size w) (cell_size w) (_circle_export_steps w)
     (_normalize_on_export w) (delete index (tabs w)) next (store w).

(** [apply] of the settings dialog. *)
Definition apply_settings (gs cs steps : Z) (norm : bool) (w : t) : t :=
  mk gs cs steps norm (SceneTab.set_grid gs cs <$> tabs w) (current w) (store w).

(** [_handle_mouse_press] of the current scene for the left button, at
    the scene point [p]; [hyp] is the value of
    [int(round(math.hypot(x - cx, y - cy)))]. *)
Definition mouse_press_left (p : point) (hyp : Z) (h : heap) (sc : SceneTab.t)
  : heap * SceneTab.t :=
  let q := SceneTab.clamp_to_grid sc p in
  if String.eqb (SceneTab.tool sc) "polyline" then
    (h, SceneTab.set_temp_points (SceneTab._temp_points sc ++ [q]) sc)
  else if String.eqb (SceneTab.tool sc) "circle" then
    match SceneTab._circle_center sc with
    | None => (h, SceneTab.set_circle_center (Some q) sc)
    | Some c => (SceneTab.commit_circle_from_center c hyp h sc).1
    end
  else (h, sc).

(** What the user, or a caller of the scene's editing interface, can
    do. *)
Inductive action : Type :=
| SetColor (c : rgb)
| SetTool (name : string)
| MousePressLeft (p : point) (hyp : Z)
| FinishPolyline
| CommitCircle (cen : point) (r : Z)
| ClearTemporary
| ResetScene
| RemoveElement (el : ref)
| Undo
| Redo
| ColorChangedInTable (table_row_map : list (Z * Z)) (row combo_index : Z)
| TableItemChanged (table_row_map : list (Z * Z))
    (cell : Z -> Z -> option string) (row col : Z)
| OpenCsv (rows : list (gmap string value))
| ImportLaser (text : string)
| NewSceneTab
| SelectTab (i : nat)
| CloseTab (index next : nat)
| ApplySettings (gs cs steps : Z) (norm : bool).

Definition unwrap {A} (o : outcome A) : A :=
  match o with Done a => a | Raised a => a end.

Definition step (w : t) (a : action) : t :=
  match a with
  | SetColor c => on_current (fun h sc => (h, SceneTab.set_cc c sc)) w
  | SetTool name => on_current (fun h sc => (h, SceneTab.set_tool name sc)) w
  | MousePressLeft p hyp => on_current (mouse_press_left p hyp) w
  | FinishPolyline => on_current (fun h sc => (SceneTab.commit_polyline h sc).1) w
  | CommitCircle cen r =>
      on_current (fun h sc => (SceneTab.commit_circle_from_center cen r h sc).1) w
  | ClearTemporary => on_current (fun h sc => (h, SceneTab.clear_temporary sc)) w
  | ResetScene => on_current (fun h sc => (h, SceneTab.clear_all sc)) w
  | RemoveElement el =>
      on_current (fun h sc => (h, SceneTab.remove_element h el sc)) w
  | Undo => on_current (fun h sc => (h, SceneTab.undo h sc)) w
  | Redo => on_current (fun h sc => (h, SceneTab.redo h sc)) w
  | ColorChangedInTable m row idx =>
      on_current (fun h sc => (_on_color_changed_in_table m row idx h sc, sc)) w
  | TableItemChanged m cell row col =>
      on_current (fun h sc => (_on_table_item_changed m cell row col h sc, sc)) w
  | OpenCsv rows =>
      add_tab (unwrap (open_csv (grid_size w) (cell_size w) rows (store w))) w
  | ImportLaser text =>
      add_tab (import_laser_format (grid_size w) (cell_size w) text (store w)) w
  | NewSceneTab => new_scene_tab w
  | SelectTab i => select_tab i w
  | CloseTab index next => close_tab index next w
  | ApplySettings gs cs steps norm => apply_settings gs cs steps norm w
  end.

(** The states the window can be in. *)
Definition reachable (w : t) : Prop :=
  exists acts : list action, w = foldl step init acts.

(** *** update_elements_table *)

(** One row of the table: the 1-based numbers of the element and of the
    point, the kind, the colour, the point shown, and the radius (none for
    a polyline, whose cell is left blank). *)
Record table_row : Type := mk_row {
  row_el : Z;
  row_sub : Z;
  row_kind : string;
  row_color : rgb;
  row_x : Z;
  row_y : Z;
  row_radius : option Z
}.

(** The rows of one element: one per point of a polyline, one for a
    circle (with [(0, 0)] when it has no point), none for another kind. *)
Definition element_rows (el_idx : Z) (e : SceneElement) : list table_row :=
  if String.eqb (kind e) "polyline" then
    imap (fun j p => mk_row el_idx (Z.of_nat j + 1) "polyline" (color e)
                            p.1 p.2 None)
         (points e)
  else if String.eqb (kind e) "circle" then
    let c := default (0, 0) (points e !! 0%nat) in
    [mk_row el_idx 1 "circle" (color e) c.1 c.2 (Some (radius e))]
  else [].

(** [for el_idx, el in enumerate(sc.elements, start=...)] *)
Fixpoint table_rows_from (h : heap) (el_idx : Z) (els : list ref)
  : list table_row :=
  match els with
  | [] => []
  | el :: els' =>
      match h !! el with
      | Some e => element_rows el_idx e
      | None => []
      end ++ table_rows_from h (el_idx + 1) els'
  end.

Definition table_rows (h : heap) (sc : SceneTab.t) : list table_row :=
  table_rows_from h 1 (SceneTab.elements sc).

(** [self.table_row_map] as the function leaves it. *)
Definition row_map (rows : list table_row) : list (Z * Z) :=
  (fun r => (row_el r - 1, row_sub r - 1)) <$> rows.

(** The index that the colour box of the row shows. *)
Definition combo_index (r : table_row) : Z := color_to_code (row_color r) - 1.



(** *** save_csv *)

(** The records of one element. *)
Definition element_records (e : SceneElement) : option (list (gmap string value)) :=
  if String.eqb (kind e) "polyline" then
    Some ((fun p : point =>
             list_to_map [("kind"%string, VStr "polyline"); ("x"%string, VInt p.1);
                          ("y"%string, VInt p.2);
                          ("r"%string, VInt (color e).1.1);
                          ("g"%string, VInt (color e).1.2);
                          ("b"%string, VInt (color e).2);
                          ("radius"%string, VStr "")]) <$> points e)
  else if String.eqb (kind e) "circle" then
    c ← points e !! 0%nat;
    Some [list_to_map [("kind"%string, VStr "circle"); ("x"%string, VInt c.1);
                       ("y"%string, VInt c.2);
                       ("r"%string, VInt (color e).1.1);
                       ("g"%string, VInt (color e).1.2);
                       ("b"%string, VInt (color e).2);
                       ("radius"%string, VInt (radius e))]]
  else Some [].

(** The records that [save_csv] builds before it opens the file; [None]
    when [el.points[0]] raises on a circle without a point. *)
Definition save_rows (h : heap) (sc : SceneTab.t)
  : option (list (gmap string value)) :=
  es ← mapM (fun el => h !! el) (SceneTab.elements sc);
  rs ← mapM element_records es;
  Some (mjoin rs).

(** A field as [csv.DictReader] reads it back from the file that
    [csv.DictWriter] wrote: the text of the value.  (The texts written
    here, kinds, decimal integers and the empty text, need no quoting.) *)
Definition reread (v : value) : value :=
  match v with
  | VInt n => VStr (Py.str n)
  | _ => v
  end.

(** *** _add_to_recent *)

(** [l.remove(path)], guarded by [path in l]. *)
Fixpoint remove_first (path : string) (l : list string) : list string :=
  match l with
  | [] => []
  | x :: l' => if String.eqb x path then l' else x :: remove_first path l'
  end.

(** The list of recent files after [_add_to_recent(path)]: the path is
    moved or added to the end, and the last 50 entries are kept. *)
Definition _add_to_recent (path : string) (recent : list string) : list string :=
  let l := remove_first path recent ++ [path] in
  drop (length l - 50) l.

End MainWindow.

(** ** Notions used in the proofs about the codecs *)

(** Every character of the string passes the test. *)
Fixpoint all_chars (P : ascii -> bool) (s : string) : bool :=
  match s with
  | EmptyString => true
  | String c s' => P c && all_chars P s'
  end.

(** The characters of a printed integer. *)
Definition numeric_char (c : ascii) : bool :=
  Py.is_digit c || Ascii.eqb c "-".

(** The characters of a printed point: those, and the comma. *)
Definition point_char (c : ascii) : bool :=
  numeric_char c || Ascii.eqb c ",".

(** The number that a string of digits continues from [acc]. *)
Fixpoint digits_value (s : string) (acc : Z) : Z :=
  match s with
  | EmptyString => acc
  | String c s' => digits_value s' (10 * acc + Py.digit_val c)
  end.

(** An integer that survives the conversion to a float and back:
    [int(float(n)) == n]. *)
Definition exact (n : Z) : Prop :=
  Py.float_of_int n ≫= Py.int_of_float = Some n.

Definition exact_point (p : point) : Prop := exact p.1 /\ exact p.2.

(** Neither a line feed nor a carriage return. *)
Definition no_newline (c : ascii) : bool :=
  negb (Ascii.eqb c "010") && negb (Ascii.eqb c "013").

(** The text made of the given lines, each ended by a newline. *)
Definition join_lines (ls : list string) : string :=
  foldr (fun l acc => l +:+ MainWindow.newline +:+ acc) EmptyString ls.

(** The line that the export writes for a point, without its newline. *)
Definition point_text (p : point) : string :=
  Py.str p.1 +:+ "," +:+ Py.str p.2.

(** The lines that the export writes for a polyline. *)
Definition element_lines (e : SceneElement) : list string :=
  ("COLOR " +:+ Py.str (color_to_code (color e)))
  :: (point_text <$> points e) ++ ["STOP"%string].

(** A line that the import reads as it was written. *)
Definition good_line (l : string) : Prop :=
  all_chars no_newline l = true /\ Py.strip (l +:+ MainWindow.newline) = l.

(** The element that the import builds from these lines. *)
Definition reimported (e : SceneElement) : SceneElement :=
  mkSceneElement "polyline" (points e)
                 (code_to_color (color_to_code (color e))) 0.

(** A polyline that the round trip is stated for. *)
Definition exact_polyline (e : SceneElement) : Prop :=
  kind e = "polyline"%string /\ (2 <= length (points e))%nat /\
  Forall exact_point (points e).

(** ** Notions used in the proofs about floats *)

(** A finite float of magnitude at most [B], with an exponent that a
    double can have. *)
Definition mag_le (x : Py.float) (B : Z) : Prop :=
  match x with
  | Py.FFin m e => -1074 <= e /\ Z.abs m * 2 ^ (e + 1074) <= B * 2 ^ 1074
  | _ => False
  end.

(** What is assumed of [math.cos] and [math.sin]: on a finite double they
    return a double between -1 and 1. *)
Definition trig_ok (f : Py.float -> option Py.float) : Prop :=
  forall m e, -1074 <= e ->
    exists c : Py.float, f (Py.FFin m e) = Some c /\ mag_le c 1.

(** A finite float with an exponent that is not positive, whose value
    lies between the integers [A] and [B]. *)
Definition between (x : Py.float) (A B : Z) : Prop :=
  match x with
  | Py.FFin m e => e <= 0 /\ A * 2 ^ (- e) <= m <= B * 2 ^ (- e)
  | _ => False
  end.

(** ** Notions used in the proof of the invariant *)

(** A circle holds exactly one point, its centre. *)
Definition circle_ok (e : SceneElement) : Prop :=
  kind e = "circle"%string -> exists c : point, points e = [c].

(** Every reference that a scene holds, in its element list or in its
    history, is an object of the store. *)
Record refs_ok (h : heap) (sc : SceneTab.t) : Prop := {
  refs_elements : Forall (allocated h) (SceneTab.elements sc);
  refs_undo : Forall (fun x => allocated h x.2)
                     (UndoManager._undo (SceneTab.undo_manager sc));
  refs_redo : Forall (fun x => allocated h x.2)
                     (UndoManager._redo (SceneTab.undo_manager sc))
}.

(** The invariant of the window: the circles of the store are
    well-formed, and the scenes refer to the store only. *)
Record window_inv (w : MainWindow.t) : Prop := {
  inv_store : Forall circle_ok (MainWindow.store w);
  inv_tabs : Forall (refs_ok (MainWindow.store w)) (MainWindow.tabs w)
}.

(** A scene operation that keeps the invariant and never frees an
    object. *)
Definition preserving (f : heap -> SceneTab.t -> heap * SceneTab.t) : Prop :=
  forall h sc,
    Forall circle_ok h -> refs_ok h sc ->
    Forall circle_ok (f h sc).1 /\ refs_ok (f h sc).1 (f h sc).2 /\
    (length h <= length (f h sc).1)%nat.

(** What holds of the document under construction during an import into
    a store that had [n] objects. *)
Definition import_inv (n : nat) (d : heap * SceneTab.t) : Prop :=
  Forall circle_ok d.1 /\ refs_ok d.1 d.2 /\ (n <= length d.1)%nat.

(** ** Notions used in the further properties *)

(** One of the three colours that [code_to_color] returns. *)
Definition primary (c : rgb) : Prop :=
  c = (255, 0, 0) \/ c = (0, 255, 0) \/ c = (0, 0, 255).

(** An element as the laser import makes them. *)
Definition imported_polyline (e : SceneElement) : Prop :=
  kind e = "polyline"%string /\ points e <> [] /\ radius e = 0 /\
  primary (color e).

(** The history entries that record the additions of the given objects. *)
Definition additions (l : list ref) : list (UndoManager.op * ref) :=
  (fun el => (UndoManager.add, el)) <$> l.

(** A scene that an import has filled, in a store that had the objects
    [h]: it lists the [n] objects added after them, in order, and its
    history records their additions and nothing else. *)
Definition filled (h : heap) (n : nat) (sc : SceneTab.t) : Prop :=
  SceneTab.elements sc = seq (length h) n /\
  UndoManager._undo (SceneTab.undo_manager sc) = additions (seq (length h) n) /\
  UndoManager._redo (SceneTab.undo_manager sc) = [].

(** A row of the table shows a point of an element of the scene: the
    element numbered [row_el], and for a polyline its point numbered
    [row_sub], for a circle its centre. *)
Definition row_shows (h : heap) (sc : SceneTab.t) (r : MainWindow.table_row)
  : Prop :=
  exists (el : ref) (e : SceneElement),
    1 <= MainWindow.row_el r /\
    SceneTab.elements sc !! Z.to_nat (MainWindow.row_el r - 1) = Some el /\
    h !! el = Some e /\
    MainWindow.row_kind r = kind e /\ MainWindow.row_color r = color e /\
    1 <= MainWindow.row_sub r /\
    ((kind e = "polyline"%string /\
      points e !! Z.to_nat (MainWindow.row_sub r - 1)
      = Some (MainWindow.row_x r, MainWindow.row_y r) /\
      MainWindow.row_radius r = None) \/
     (kind e = "circle"%string /\ MainWindow.row_sub r = 1 /\
      default (0, 0) (points e !! 0%nat)
      = (MainWindow.row_x r, MainWindow.row_y r) /\
      MainWindow.row_radius r = Some (radius e))).

(** Left clicks of the mouse, one after the other, on the current scene. *)
Definition clicks (ps : list (point * Z)) (st : heap * SceneTab.t)
  : heap * SceneTab.t :=
  foldl (fun st c => MainWindow.mouse_press_left c.1 c.2 st.1 st.2) st ps.

(** The point is on the grid of the scene. *)
Definition on_grid (sc : SceneTab.t) (p : point) : Prop :=
  0 <= p.1 <= SceneTab.grid_size sc /\ 0 <= p.2 <= SceneTab.grid_size sc.

(** A circle as the mouse draws it on the scene: one centre, on the grid,
    and the drawing colour. *)
Definition drawn_circle (sc : SceneTab.t) (e : SceneElement) : Prop :=
  kind e = "circle"%string /\ color e = SceneTab.cc sc /\
  exists c : point, points e = [c] /\ on_grid sc c.

(** An element that [save_csv] and [open_csv] carry over: a polyline
    with a point at least, or a circle with its centre, the numbers written
    for it being exact. *)
Definition csv_exact (e : SceneElement) : Prop :=
  ((kind e = "polyline"%string /\ points e <> []) \/
   (kind e = "circle"%string /\ exists c : point, points e = [c])) /\
  Forall exact_point (points e) /\
  exact (color e).1.1 /\ exact (color e).1.2 /\ exact (color e).2.

(** No two polylines of the same colour follow each other. *)
Fixpoint csv_separate (es : list SceneElement) : Prop :=
  match es with
  | e1 :: es' =>
      match es' with
      | e2 :: _ =>
          kind e1 = "polyline"%string -> kind e2 = "polyline"%string ->
          color e1 <> color e2
      | [] => True
      end /\ csv_separate es'
  | [] => True
  end.

(** The element that [open_csv] builds from the records of an element: a
    polyline gets the default radius. *)
Definition csv_reread (e : SceneElement) : SceneElement :=
  if String.eqb (kind e) "polyline"
  then mkSceneElement "polyline" (points e) (color e) 0
  else e.

(** The record that [save_csv] builds for a point. *)
Definition csv_written (k : string) (p : point) (c : rgb) (rad : value)
  : gmap string value :=
  list_to_map [("kind"%string, VStr k); ("x"%string, VInt p.1);
               ("y"%string, VInt p.2);
               ("r"%string, VInt c.1.1); ("g"%string, VInt c.1.2);
               ("b"%string, VInt c.2); ("radius"%string, rad)].

(** The records of the points of an element. *)
Definition csv_points (k : string) (c : rgb) (rad : value) (pts : list point)
  : list (gmap string value) :=
  (fun p => csv_written k p c rad) <$> pts.

(** The records as they are read back from the file. *)
Definition csv_file (rows : list (gmap string value))
  : list (gmap string value) :=
  (fun r : gmap string value => MainWindow.reread <$> r) <$> rows.

(** The document of the loop of [open_csv] once the pending polyline is
    appended. *)
Definition csv_settled (s : MainWindow.csv_state) : heap * SceneTab.t :=
  MainWindow.csv_flush (MainWindow.current_poly s) (MainWindow.csv_cc s)
                       (MainWindow.csv_doc s).

(** The loop of [open_csv] is about to read the records of [es]: nothing
    is pending, or the pending polyline has another colour than a polyline
    that comes first. *)
Definition csv_ready (s : MainWindow.csv_state) (es : list SceneElement)
  : Prop :=
  match MainWindow.current_poly s with
  | [] => MainWindow.csv_cc s = None
  | _ :: _ =>
      exists c, MainWindow.csv_cc s = Some c /\
                match es with
                | e :: _ => kind e = "polyline"%string -> color e <> c
                | [] => True
                end
  end.

(** An element as [open_csv] makes them: a polyline with a point at
    least and radius 0, or a circle with one point. *)
Definition csv_made (e : SceneElement) : Prop :=
  (kind e = "polyline"%string /\ points e <> [] /\ radius e = 0) \/
  (kind e = "circle"%string /\ exists c : point, points e = [c]).

(** A document that [open_csv] is filling, in a store that had the
    objects [h]. *)
Definition csv_filled (h : heap) (d : heap * SceneTab.t) : Prop :=
  exists new : heap,
    d.1 = h ++ new /\ Forall csv_made new /\ filled h (length new) d.2.

(** What the laser format carries of an element: a polyline through
    the points that the export writes for it, in its colour. *)
Definition laser_image (cos sin : Py.float -> option Py.float) (steps : Z)
    (e : SceneElement) : option SceneElement :=
  pts ← MainWindow.export_points cos sin steps e;
  Some (mkSceneElement "polyline" pts (color e) 0).

(** An element that the laser format carries over: a polyline with two
    exact points or more, or a circle with a positive radius that is, with
    its centre, below [2^52]. *)
Definition laser_exportable (e : SceneElement) : Prop :=
  exact_polyline e \/
  (kind e = "circle"%string /\
   exists (c : point) (rest : list point),
     points e = c :: rest /\ 0 < radius e /\
     Z.abs c.1 + radius e < 2 ^ 52 /\ Z.abs c.2 + radius e < 2 ^ 52).

(** ** Concrete inputs of the examples *)


(** Two circles drawn with the same centre, radius and colour; removing
    the second one takes the first equal object out of the list, so the
    list is left holding the second object only. *)
Definition twin_calls : list SceneTab.call :=
  [SceneTab.CommitCircle (5, 5) 3; SceneTab.CommitCircle (5, 5) 3;
   SceneTab.RemoveElement 1%nat].

Definition twin_state : heap * SceneTab.t :=
  SceneTab.run_calls ([], SceneTab.init 255 1) twin_calls.


(** The loop of the laser import after two coordinate lines and no COLOR
    line. *)
Definition uncoloured_state : MainWindow.laser_state :=
  MainWindow.laser_loop
    (MainWindow.mk_laser None [] ([], SceneTab.init 255 1))
    ["1,2"; "3,4"]%string.

(** The same loop after a COLOR line and two coordinate lines. *)
Definition coloured_state : MainWindow.laser_state :=
  MainWindow.laser_loop
    (MainWindow.mk_laser None [] ([], SceneTab.init 255 1))
    ["COLOR 2"; "1,2"; "3,4"]%string.



(** A red and a yellowish polyline on the grid. *)
Definition grid_heap : heap :=
  [mkSceneElement "polyline" [(0, 0); (10, 0); (10, 10)] (255, 0, 0) 0;
   mkSceneElement "polyline" [(255, 7); (3, 4)] (200, 250, 10) 0].

Definition grid_scene : SceneTab.t :=
  SceneTab.append_element 1%nat
    (SceneTab.append_element 0%nat (SceneTab.init 255 1)).

(** Stand-ins for [math.cos] and [math.sin] in the examples: the values at
    angle 0. *)
Definition cos0 (t : Py.float) : option Py.float := Some (Py.FFin 1 0).
Definition sin0 (t : Py.float) : option Py.float := Some (Py.FFin 0 0).

(** A session: a polyline and a circle are drawn, a CSV file with a circle
    is opened in a new tab, its centre is edited in the table, and the
    edit history of that tab is undone once. *)
Definition session : list MainWindow.action :=
  [MainWindow.MousePressLeft (3, 4) 0; MainWindow.MousePressLeft (300, 9) 0;
   MainWindow.FinishPolyline;
   MainWindow.SetTool "circle";
   MainWindow.MousePressLeft (100, 100) 0; MainWindow.MousePressLeft (110, 100) 10;
   MainWindow.OpenCsv
     [list_to_map [("kind", VStr "circle"); ("x", VStr "7"); ("y", VStr "8");
                   ("r", VStr "0"); ("g", VStr "0"); ("b", VStr "255");
                   ("radius", VStr "5")]%string];
   MainWindow.TableItemChanged [(0, 0)]
     (fun r c => if c =? 4 then Some "900"%string else Some "-3"%string) 0 4;
   MainWindow.Undo; MainWindow.Redo].

(** A CSV record as [csv.DictReader] delivers it. *)
Definition csv_record (kind x y r g b radius : string) : gmap string value :=
  list_to_map [("kind", VStr kind); ("x", VStr x); ("y", VStr y);
               ("r", VStr r); ("g", VStr g); ("b", VStr b);
               ("radius", VStr radius)]%string.

(** Three records, the second with a malformed [x]. *)
Definition csv_rows_bad : list (gmap string value) :=
  [csv_record "polyline" "1" "2" "255" "0" "0" "";
   csv_record "polyline" "abc" "4" "255" "0" "0" "";
   csv_record "circle" "5" "5" "0" "0" "255" "3"].

(** The same records with the malformed field put right. *)
Definition csv_rows_good : list (gmap string value) :=
  [csv_record "polyline" "1" "2" "255" "0" "0" "";
   csv_record "polyline" "3" "4" "255" "0" "0" "";
   csv_record "circle" "5" "5" "0" "0" "255" "3"].

(** Two equal circles drawn one after the other. *)
Definition twins_drawn : heap * SceneTab.t :=
  SceneTab.run_calls ([], SceneTab.init 255 1)
    [SceneTab.CommitCircle (5, 5) 3; SceneTab.CommitCircle (5, 5) 3].

(** The red polyline of the specification's export scenario. *)
Definition scenario_heap : heap :=
  [mkSceneElement "polyline" [(0, 0); (10, 0); (10, 10)] (255, 0, 0) 0].

Definition scenario_scene : SceneTab.t :=
  SceneTab.append_element 0%nat (SceneTab.init 255 1).

(* ================================================================== *)
(** * Properties *)

(** ** Colour codec *)

(** C3: [color_to_code] returns 1 when red is at least green and blue,
    otherwise 2 when green is at least red and blue, otherwise 3; the code
    is always one of 1, 2, 3. *)
Theorem color_to_code_spec (r g b : Z) :
  (r >= g /\ r >= b -> color_to_code (r, g, b) = 1) /\
  (~ (r >= g /\ r >= b) -> g >= r /\ g >= b -> color_to_code (r, g, b) = 2) /\
  (~ (r >= g /\ r >= b) -> ~ (g >= r /\ g >= b) -> color_to_code (r, g, b) = 3) /\
  (color_to_code (r, g, b) = 1 \/ color_to_code (r, g, b) = 2 \/
   color_to_code (r, g, b) = 3).
Proof.
  unfold color_to_code.
  destruct (Z.leb_spec g r), (Z.leb_spec b r), (Z.leb_spec r g), (Z.leb_spec b g);
    simpl; repeat split; intros; try lia; auto.
Qed.



(** The codec collapses a colour to a primary and is stable from there. *)
Lemma code_to_color_idempotent (c : Z) :
  code_to_color (color_to_code (code_to_color c)) = code_to_color c.
Proof.
  unfold code_to_color.
  destruct (Z.eqb_spec c 1); [done|]. by destruct (Z.eqb_spec c 2).
Qed.

Example color_to_code_ties :
  color_to_code (7, 7, 7) = 1 /\ color_to_code (3, 9, 9) = 2 /\
  color_to_code (0, 0, 0) = 1 /\ color_to_code (1, 2, 3) = 3.
Proof. done. Qed.

(** ** Python's conversions on examples *)

Example int_float_examples :
  Py.int_float "12" = Some 12 /\ Py.int_float " -3.99 " = Some (-3) /\
  Py.int_float "1e3" = Some 1000 /\ Py.int_float "abc" = None /\
  Py.int_float "" = None /\ Py.int_float "inf" = None /\
  Py.int_float "9007199254740993" = Some 9007199254740992.
Proof. by vm_compute. Qed.

Example float_examples :
  Py.float_of_str "0.1" = Some (Py.FFin 7205759403792794 (-56)) /\
  Py.float_of_str "1e400" = Some (Py.FInf false) /\
  Py.truediv 1 3 = Some (Py.FFin 6004799503160661 (-54)) /\
  Py.float_of_int (2 ^ 1024) = None /\
  Py.round (Py.FFin 5 (-1)) = Some 2 /\ Py.round (Py.FFin 7 (-1)) = Some 4.
Proof. by vm_compute. Qed.

(** ** The document: commit and remove *)

Lemma pop_snoc {A} (l : list A) (x : A) : pop (l ++ [x]) = Some (l, x).
Proof.
  induction l as [|y l IH]; simpl; [done|].
  by rewrite IH.
Qed.

Lemma pop_nil_inv {A} (l : list A) : pop l = None -> l = [].
Proof.
  destruct l as [|x l]; [done|]. simpl. by destruct (pop l) as [[? ?]|].
Qed.



(** *** Equality of objects and the element list *)

Lemma py_eq_key (h : heap) (a b : ref) :
  py_eq h a b = true <-> key h a = key h b.
Proof.
  unfold py_eq, key. rewrite orb_true_iff, bool_decide_eq_true.
  destruct (h !! a) as [x|] eqn:Ha, (h !! b) as [y|] eqn:Hb;
    rewrite ?bool_decide_eq_true; split.
  - intros [-> | ->]; congruence.
  - intros [= ->]. by right.
  - intros [-> | ?]; congruence.
  - done.
  - intros [-> | ?]; congruence.
  - done.
  - intros [-> | ?]; congruence.
  - intros [= ->]. by left.
Qed.

Lemma py_in_key (h : heap) (el : ref) (l : list ref) :
  py_in h el l = true <-> key h el ∈ key h <$> l.
Proof.
  unfold py_in. rewrite existsb_exists, list_elem_of_fmap.
  split.
  - intros (x & Hx & Heq). exists x. apply py_eq_key in Heq.
    split; [done|]. by apply list_elem_of_In.
  - intros (x & Heq & Hx). exists x. split; [by apply list_elem_of_In|].
    by apply py_eq_key.
Qed.

Lemma py_in_spec (h : heap) (el : ref) (l : list ref) :
  py_in h el l = true <->
  exists x, x ∈ l /\ (x = el \/ exists e, h !! x = Some e /\ h !! el = Some e).
Proof.
  unfold py_in. rewrite existsb_exists. split.
  - intros (x & Hx & Heq). exists x. split; [by apply list_elem_of_In|].
    unfold py_eq in Heq. apply orb_true_iff in Heq as [Heq|Heq].
    + left. by apply bool_decide_eq_true in Heq.
    + right. destruct (h !! x) as [e|], (h !! el) as [e'|]; try done.
      apply bool_decide_eq_true in Heq. subst. by exists e'.
  - intros (x & Hx & Heq). exists x. split; [by apply list_elem_of_In|].
    unfold py_eq. apply orb_true_iff. destruct Heq as [->|(e & -> & ->)].
    + left. by apply bool_decide_eq_true.
    + right. by apply bool_decide_eq_true.
Qed.

Lemma py_remove_perm (h : heap) (el : ref) (l : list ref) :
  py_in h el l = true ->
  (key h <$> l) ≡ₚ (key h el :: (key h <$> py_remove h el l)).
Proof.
  induction l as [|x l IH]; simpl; [done|].
  destruct (py_eq h x el) eqn:Heq; simpl.
  - intros _. apply py_eq_key in Heq. by rewrite Heq.
  - intros Hin. rewrite (IH Hin). apply Permutation_swap.
Qed.

Lemma py_remove_subseteq (h : heap) (el : ref) (l : list ref) :
  py_remove h el l ⊆ l.
Proof.
  induction l as [|x l IH]; simpl; [done|].
  destruct (py_eq h x el).
  - intros y Hy. by apply list_elem_of_further.
  - intros y Hy. apply elem_of_cons in Hy as [->|Hy].
    + apply list_elem_of_here.
    + apply list_elem_of_further. by apply IH.
Qed.

(** A list in which nothing equals [el] is left as it is. *)
Lemma py_remove_absent (h : heap) (el : ref) (l : list ref) :
  py_in h el l = false -> py_remove h el l = l.
Proof.
  induction l as [|x l IH]; simpl; [done|].
  destruct (py_eq h x el); simpl; [done|]. intros H. by rewrite IH.
Qed.

(** C9, as the code has it: [remove_element] changes nothing when no
    element of the list equals the given one, that is when none is the same
    object and none has the same kind, points, colour and radius. *)
Theorem remove_element_absent (h : heap) (el : ref) (sc : SceneTab.t) :
  (forall x, x ∈ SceneTab.elements sc ->
     x <> el /\ forall e, h !! x = Some e -> h !! el <> Some e) ->
  SceneTab.remove_element h el sc = sc.
Proof.
  intros Habs. unfold SceneTab.remove_element.
  destruct (py_in h el (SceneTab.elements sc)) eqn:Hin; [|done].
  apply py_in_spec in Hin as (x & Hx & Heq).
  destruct (Habs x Hx) as [Hne Hdata].
  destruct Heq as [->|(e & Hxe & Hele)]; [done|].
  by destruct (Hdata e Hxe).
Qed.

Lemma remove_element_absent_witness :
  SceneTab.remove_element [mkSceneElement "circle" [(5, 5)] (255, 0, 0) 3;
                           mkSceneElement "circle" [(5, 5)] (255, 0, 0) 4]
    1%nat (SceneTab.set_elements [0%nat] UndoManager.init (SceneTab.init 255 1))
  = SceneTab.set_elements [0%nat] UndoManager.init (SceneTab.init 255 1).
Proof.
  apply remove_element_absent. simpl. intros x Hx.
  apply list_elem_of_singleton in Hx as ->. split; [done|].
  intros e He. simpl in He. injection He as <-. done.
Defined.

(** C9 as stated fails: after two equal circles are drawn and the second
    is removed, the first object is no longer in the list, yet removing it
    takes the second one out and records a history entry. *)
Lemma remove_element_identity_counterexample :
  (0%nat ∉ SceneTab.elements twin_state.2) /\
  SceneTab.elements (SceneTab.remove_element twin_state.1 0%nat twin_state.2) = [] /\
  UndoManager._undo
    (SceneTab.undo_manager (SceneTab.remove_element twin_state.1 0%nat twin_state.2))
  = UndoManager._undo (SceneTab.undo_manager twin_state.2)
    ++ [(UndoManager.remove, 0%nat)] /\
  SceneTab.remove_element twin_state.1 0%nat twin_state.2 <> twin_state.2.
Proof.
  vm_compute. repeat split; try done.
  intros H. apply list_elem_of_singleton in H. done.
Qed.

(** ** Undo and redo *)

(** Undoing an entry after it was made restores the list up to the order
    and the choice among equal objects. *)
Lemma backward_forward_keys (h : heap) (x : UndoManager.op * ref)
    (l m : list ref) :
  match x with
  | (UndoManager.add, _) => True
  | (UndoManager.remove, el) => py_in h el l = true
  end ->
  (key h <$> m) ≡ₚ (key h <$> forward h l x) ->
  (key h <$> backward h x m) ≡ₚ (key h <$> l).
Proof.
  destruct x as [[] el]; simpl; intros Hok Hm.
  - rewrite fmap_app in Hm. simpl in Hm.
    assert (Hin : py_in h el m = true).
    { apply py_in_key. rewrite Hm. apply elem_of_app. right.
      apply list_elem_of_here. }
    rewrite Hin. pose proof (py_remove_perm h el m Hin) as Hp.
    rewrite Hm in Hp. rewrite <- Permutation_cons_append in Hp.
    by apply Permutation_cons_inv in Hp.
  - rewrite Hok in Hm. rewrite fmap_app. simpl.
    rewrite <- Permutation_cons_append, Hm.
    symmetry. by apply py_remove_perm.
Qed.

Lemma undo_log_keys (h : heap) (log : list (UndoManager.op * ref))
    (l m : list ref) :
  log_ok h log l ->
  (key h <$> m) ≡ₚ (key h <$> foldl (forward h) l log) ->
  (key h <$> foldr (backward h) m log) ≡ₚ (key h <$> l).
Proof.
  revert l. induction log as [|x log IH]; intros l; simpl; [done|].
  intros [Hx Hok] Hm.
  apply backward_forward_keys; [done|]. by apply IH.
Qed.

Lemma set_elements_twice (a c : list ref) (b d : UndoManager.t)
    (sc : SceneTab.t) :
  SceneTab.set_elements a b (SceneTab.set_elements c d sc)
  = SceneTab.set_elements a b sc.
Proof. done. Qed.

Lemma undo_step (h : heap) (U R : list (UndoManager.op * ref))
    (x : UndoManager.op * ref) (l : list ref) (sc : SceneTab.t) :
  SceneTab.undo h (SceneTab.set_elements l (UndoManager.mk (U ++ [x]) R) sc)
  = SceneTab.set_elements (backward h x l) (UndoManager.mk U (R ++ [x])) sc.
Proof.
  unfold SceneTab.undo, UndoManager.undo. simpl. rewrite pop_snoc.
  by destruct x as [[] el].
Qed.

Lemma redo_step (h : heap) (U R : list (UndoManager.op * ref))
    (x : UndoManager.op * ref) (l : list ref) (sc : SceneTab.t) :
  SceneTab.redo h (SceneTab.set_elements l (UndoManager.mk U (R ++ [x])) sc)
  = SceneTab.set_elements (forward h l x) (UndoManager.mk (U ++ [x]) R) sc.
Proof.
  unfold SceneTab.redo, UndoManager.redo. simpl. rewrite pop_snoc.
  by destruct x as [[] el].
Qed.

(** Undoing as many times as the log is long plays it backwards. *)
Lemma undo_iter (h : heap) (log U R : list (UndoManager.op * ref))
    (l : list ref) (sc : SceneTab.t) :
  Nat.iter (length log) (SceneTab.undo h)
    (SceneTab.set_elements l (UndoManager.mk (U ++ log) R) sc)
  = SceneTab.set_elements (foldr (backward h) l log)
      (UndoManager.mk U (R ++ rev log)) sc.
Proof.
  revert R l. induction log as [|x log IH] using rev_ind; intros R l.
  - simpl. by rewrite !app_nil_r.
  - rewrite length_app, Nat.add_comm. simpl length. simpl Nat.add.
    rewrite Nat.iter_succ_r, app_assoc, undo_step, IH.
    rewrite foldr_app, rev_app_distr. simpl. by rewrite <- app_assoc.
Qed.


(** *** Allocation does not disturb the objects already there *)










Lemma allocated_new (h : heap) (e : SceneElement) :
  allocated (h ++ [e]) (length h).
Proof. unfold allocated. rewrite length_app. simpl. lia. Qed.

(** An element found by [in] is an allocated object when the list holds
    allocated objects. *)
Lemma py_in_allocated (h : heap) (el : ref) (l : list ref) :
  Forall (allocated h) l -> py_in h el l = true -> allocated h el.
Proof.
  intros Hl Hin. apply py_in_spec in Hin as (x & Hx & Heq).
  eapply Forall_forall in Hl; [|done].
  destruct Heq as [->|(e & _ & He)]; [done|].
  by apply lookup_lt_Some in He.
Qed.

(** *** What a scene built by editing calls looks like *)







(** ** Table editing *)

(** What one edit of a table cell does to the edited element: nothing, or a
    point replaced by the clamped point read from columns 4 and 5, or the
    radius replaced by the clamped value read from the cell. *)
Lemma table_edit_cases (cell : Z -> Z -> option string) (row col sub : Z)
    (gs : Z) (e e' : SceneElement) :
  MainWindow.table_edit cell row col sub gs e = Some e' ->
  e' = e \/
  (exists (i : nat) (x y : Z),
     (col = 4 \/ col = 5) /\
     cell row 4 ≫= Py.int_float = Some x /\
     cell row 5 ≫= Py.int_float = Some y /\
     (i < length (points e))%nat /\
     e' = MainWindow.set_points
            (<[i := (Z.max 0 (Z.min gs x), Z.max 0 (Z.min gs y))]> (points e)) e) \/
  (exists val : Z,
     col = 6 /\ kind e = "circle"%string /\
     cell row col ≫= Py.int_float = Some val /\
     e' = MainWindow.set_radius (Z.max 0 val) e).
Proof.
  unfold MainWindow.table_edit. intros H.
  destruct ((col =? 4) || (col =? 5)) eqn:Hcol.
  - assert (Hc : col = 4 \/ col = 5) by (apply orb_true_iff in Hcol; lia).
    destruct (cell row 4) as [xt|]; [|left; congruence].
    destruct (cell row 5) as [yt|]; [|left; congruence].
    simpl in *.
    destruct (Py.int_float xt) as [x|]; [|done].
    destruct (Py.int_float yt) as [y|]; [|done]. simpl in *.
    destruct (String.eqb (kind e) "polyline").
    + destruct ((0 <=? sub) && (sub <? Z.of_nat (length (points e)))) eqn:Hs;
        [|left; congruence].
      right. left. exists (Z.to_nat sub), x, y.
      apply andb_true_iff in Hs as [H1 H2].
      repeat split; try done; [lia|congruence].
    + destruct (String.eqb (kind e) "circle"); [|left; congruence].
      destruct (sub =? 0); [|left; congruence].
      destruct (points e) as [|p ps] eqn:Hp; [done|].
      right. left. exists 0%nat, x, y.
      repeat split; try done; [simpl; lia|congruence].
  - destruct (col =? 6) eqn:H6; [|left; congruence].
    destruct (String.eqb (kind e) "circle") eqn:Hk; [|left; congruence].
    destruct (cell row col) as [t|]; [|done]. simpl in *.
    destruct (Py.int_float t) as [val|]; [|done]. simpl in *.
    right. right. exists val. apply String.eqb_eq in Hk.
    repeat split; try done; [lia|congruence].
Qed.

(** The handler changes the store at one place at most, and there as
    [table_edit] says. *)
Lemma on_table_item_changed_store (m : list (Z * Z))
    (cell : Z -> Z -> option string) (row col : Z) (h : heap)
    (sc : SceneTab.t) :
  MainWindow._on_table_item_changed m cell row col h sc = h \/
  exists (el : ref) (sub : Z) (e e' : SceneElement),
    MainWindow.table_target m row sc = Some (el, sub) /\
    h !! el = Some e /\
    MainWindow.table_edit cell row col sub (SceneTab.grid_size sc) e = Some e' /\
    MainWindow._on_table_item_changed m cell row col h sc = <[el := e']> h.
Proof.
  unfold MainWindow._on_table_item_changed.
  destruct (MainWindow.table_target m row sc) as [[el sub]|] eqn:Ht; [|by left].
  destruct (h !! el) as [e|] eqn:He; [|by left].
  destruct (MainWindow.table_edit cell row col sub (SceneTab.grid_size sc) e)
    as [e'|] eqn:Hed; [|by left].
  right. by exists el, sub, e, e'.
Qed.



(** ** The laser format: parsing *)

(** What a flush does to the document: with a colour set and points
    accumulated, one polyline object is allocated, appended to the element
    list and recorded as added; otherwise nothing happens. *)
Lemma flush_spec (c : option rgb) (pts : list point) (h : heap)
    (sc : SceneTab.t) :
  match c, pts with
  | Some col, _ :: _ =>
      MainWindow.flush c pts (h, sc)
      = (h ++ [mkSceneElement "polyline" pts col 0],
         SceneTab.append_element (length h) sc)
  | _, _ => MainWindow.flush c pts (h, sc) = (h, sc)
  end.
Proof. by destruct c, pts. Qed.

Lemma stop_line (ln : string) :
  Py.upper ln = "STOP"%string ->
  String.eqb ln "" = false /\
  Py.startswith "COLOR" (Py.upper ln) = false /\
  String.eqb (Py.upper ln) "STOP" = true.
Proof.
  intros H. rewrite H. repeat split. by destruct ln.
Qed.

(** C4, as the code has it.  A STOP line keeps the current colour and
    empties the accumulator; the accumulated points become one polyline,
    appended to the document and recorded in its history, when a colour has
    been set and there are points, and the document is left as it is
    otherwise.  The same holds for the points left at the end of the
    lines. *)
Theorem laser_stop_and_end_flush (s : MainWindow.laser_state) (ln : string)
    (grid_size cell_size : Z) (lines : list string) (h : heap) :
  Py.upper ln = "STOP"%string ->
  let s' := MainWindow.laser_line s ln in
  let last :=
    MainWindow.laser_loop
      (MainWindow.mk_laser None [] (h, SceneTab.init grid_size cell_size))
      (Py.strip <$> lines) in
  MainWindow.cc s' = MainWindow.cc s /\
  MainWindow.cp s' = [] /\
  match MainWindow.cc s, MainWindow.cp s with
  | Some col, _ :: _ =>
      MainWindow.doc s'
      = ((MainWindow.doc s).1 ++ [mkSceneElement "polyline" (MainWindow.cp s) col 0],
         SceneTab.append_element (length (MainWindow.doc s).1) (MainWindow.doc s).2)
  | _, _ => MainWindow.doc s' = MainWindow.doc s
  end /\
  match MainWindow.cc last, MainWindow.cp last with
  | Some col, _ :: _ =>
      MainWindow.import_lines grid_size cell_size lines h
      = ((MainWindow.doc last).1
           ++ [mkSceneElement "polyline" (MainWindow.cp last) col 0],
         SceneTab.append_element (length (MainWindow.doc last).1)
                                 (MainWindow.doc last).2)
  | _, _ =>
      MainWindow.import_lines grid_size cell_size lines h = MainWindow.doc last
  end.
Proof.
  intros Hstop. simpl.
  destruct (stop_line ln Hstop) as (H1 & H2 & H3).
  unfold MainWindow.laser_line. rewrite H1, H2, H3. simpl.
  split; [done|]. split; [done|]. split.
  - destruct s as [c pts [hh sc]]. simpl.
    pose proof (flush_spec c pts hh sc). by destruct c, pts.
  - unfold MainWindow.import_lines, MainWindow.laser_finish.
    destruct (MainWindow.laser_loop _ _) as [c pts [hh sc]]. simpl.
    pose proof (flush_spec c pts hh sc). by destruct c, pts.
Qed.

Lemma laser_stop_and_end_flush_witness :
  MainWindow.cc (MainWindow.laser_line coloured_state "stop") = Some (0, 255, 0) /\
  MainWindow.cp (MainWindow.laser_line coloured_state "stop") = [] /\
  MainWindow.doc (MainWindow.laser_line coloured_state "stop")
  = ([mkSceneElement "polyline" [(1, 2); (3, 4)] (0, 255, 0) 0],
     SceneTab.append_element 0%nat (SceneTab.init 255 1)).
Proof.
  destruct (laser_stop_and_end_flush coloured_state "stop" 255 1 [] [])
    as (H1 & H2 & H3 & _); [reflexivity|].
  split; [exact H1|]. split; [exact H2|]. exact H3.
Defined.

(** C4 as stated fails when no COLOR line came first: the two points
    accumulated are dropped by a STOP line, and at the end of the lines,
    and no element is made of them. *)
Lemma laser_flush_without_colour_counterexample :
  MainWindow.cc uncoloured_state = None /\
  MainWindow.cp uncoloured_state = [(1, 2); (3, 4)] /\
  MainWindow.doc (MainWindow.laser_line uncoloured_state "STOP")
  = ([], SceneTab.init 255 1) /\
  MainWindow.cp (MainWindow.laser_line uncoloured_state "STOP") = [] /\
  MainWindow.import_lines 255 1 ["1,2"; "3,4"]%string [] = ([], SceneTab.init 255 1).
Proof. vm_compute. done. Qed.

(** ** Printing and reading integers *)

Lemma digit_char_spec (d : Z) :
  0 <= d <= 9 ->
  Py.is_digit (Py.digit_char d) = true /\ Py.digit_val (Py.digit_char d) = d.
Proof.
  intros H.
  assert (d = 0 \/ d = 1 \/ d = 2 \/ d = 3 \/ d = 4 \/ d = 5 \/ d = 6 \/
          d = 7 \/ d = 8 \/ d = 9) as Hd by lia.
  repeat (destruct Hd as [->|Hd]; [by vm_compute|]). subst. by vm_compute.
Qed.

Lemma append_cons (x : ascii) (a b : string) :
  String x a +:+ b = String x (a +:+ b).
Proof. reflexivity. Qed.

Lemma append_empty_l (b : string) : "" +:+ b = b.
Proof. reflexivity. Qed.

Lemma append_assoc (a b c : string) : (a +:+ b) +:+ c = a +:+ (b +:+ c).
Proof.
  induction a as [|x a IH]; [done|]. by rewrite !append_cons, IH.
Qed.

Lemma append_empty_r (a : string) : a +:+ "" = a.
Proof. induction a as [|x a IH]; [done|]. by rewrite append_cons, IH. Qed.

Lemma all_chars_app (P : ascii -> bool) (a b : string) :
  all_chars P (a +:+ b) = all_chars P a && all_chars P b.
Proof.
  induction a as [|x a IH]; [done|].
  rewrite append_cons. simpl. by rewrite IH, andb_assoc.
Qed.

Lemma all_chars_impl (P Q : ascii -> bool) (s : string) :
  (forall c, P c = true -> Q c = true) ->
  all_chars P s = true -> all_chars Q s = true.
Proof.
  intros HPQ. induction s as [|x s IH]; simpl; [done|].
  intros [Hx Hs]%andb_true_iff. by rewrite (HPQ x Hx), IH.
Qed.

Lemma digits_value_app (a b : string) (acc : Z) :
  digits_value (a +:+ b) acc = digits_value b (digits_value a acc).
Proof.
  revert acc. induction a as [|x a IH]; intros acc; [done|].
  rewrite append_cons. simpl. apply IH.
Qed.

Lemma length_append (a b : string) :
  String.length (a +:+ b) = (String.length a + String.length b)%nat.
Proof.
  induction a as [|x a IH]; [done|]. rewrite append_cons. simpl. by rewrite IH.
Qed.

(** The digits written are digits, there is one at least, and read back
    they give the number. *)
Lemma digits_of_spec (f : nat) (n : Z) (tail : string) :
  0 <= n < 2 ^ (Z.of_nat f + 1) ->
  exists ds : string,
    Py.digits_of f n tail = ds +:+ tail /\
    all_chars Py.is_digit ds = true /\
    ds <> EmptyString /\
    forall acc,
      digits_value ds acc = acc * 10 ^ Z.of_nat (String.length ds) + n.
Proof.
  revert n tail. induction f as [|f IH]; intros n tail Hn.
  - assert (n = 0 \/ n = 1) as [-> | ->] by (simpl in Hn; lia);
      eexists (String _ EmptyString); (split; [reflexivity|]);
      repeat split; try done; intros acc; simpl; vm_compute Py.digit_val; lia.
  - assert (0 <= n mod 10 <= 9) as Hd by (pose proof (Z.mod_pos_bound n 10); lia).
    destruct (digit_char_spec _ Hd) as [Hd1 Hd2].
    simpl. destruct (Z.ltb_spec n 10) as [Hlt|Hge].
    + exists (String (Py.digit_char (n mod 10)) EmptyString).
      split; [done|]. simpl. rewrite Hd1. repeat split; try done.
      intros acc. rewrite Hd2, Z.mod_small by lia. lia.
    + assert (Hn' : 0 <= n / 10 < 2 ^ (Z.of_nat f + 1)).
      { split; [apply Z.div_pos; lia|].
        apply Z.div_lt_upper_bound; [lia|].
        replace (Z.of_nat (S f) + 1) with (Z.of_nat f + 1 + 1) in Hn by lia.
        rewrite Z.pow_add_r in Hn by lia. lia. }
      destruct (IH (n / 10) (String (Py.digit_char (n mod 10)) tail) Hn')
        as (ds & Heq & Hall & Hne & Hval).
      exists (ds +:+ String (Py.digit_char (n mod 10)) EmptyString).
      split; [by rewrite Heq, append_assoc|].
      split; [by rewrite all_chars_app, Hall; simpl; rewrite Hd1|].
      split; [by destruct ds|].
      intros acc. rewrite digits_value_app, Hval. simpl. rewrite Hd2.
      rewrite length_append. simpl.
      rewrite Nat2Z.inj_add, Z.pow_add_r by lia.
      pose proof (Z.div_mod n 10). lia.
Qed.

Lemma log2_fuel (n : Z) :
  0 <= n -> 0 <= n < 2 ^ (Z.of_nat (Z.to_nat (Z.log2 n)) + 1).
Proof.
  intros Hn. split; [done|].
  rewrite Z2Nat.id by apply Z.log2_nonneg.
  destruct (Z.eq_dec n 0) as [->|Hne]; [done|].
  replace (Z.log2 n + 1) with (Z.succ (Z.log2 n)) by lia.
  apply Z.log2_spec. lia.
Qed.

(** [str n] is an optional minus sign and the digits of [|n|]. *)
Lemma str_spec (n : Z) :
  exists ds : string,
    Py.str n = (if n <? 0 then String "-" ds else ds) /\
    all_chars Py.is_digit ds = true /\
    ds <> EmptyString /\
    forall acc,
      digits_value ds acc = acc * 10 ^ Z.of_nat (String.length ds) + Z.abs n.
Proof.
  unfold Py.str. destruct (Z.ltb_spec n 0) as [Hneg|Hpos].
  - destruct (digits_of_spec _ (- n) EmptyString (log2_fuel (- n) ltac:(lia)))
      as (ds & Heq & Hall & Hne & Hval).
    exists ds. rewrite Heq, append_empty_r. repeat split; try done.
    intros acc. rewrite Hval. lia.
  - destruct (digits_of_spec _ n EmptyString (log2_fuel n Hpos))
      as (ds & Heq & Hall & Hne & Hval).
    exists ds. rewrite Heq, append_empty_r. repeat split; try done.
    intros acc. rewrite Hval. lia.
Qed.

Lemma digit_facts (c : ascii) :
  Py.is_digit c = true ->
  Py.is_space c = false /\ Py.upper_char c = c /\
  Ascii.eqb c "_" = false /\ Ascii.eqb c "-" = false /\
  Ascii.eqb c "+" = false /\ Ascii.eqb c "." = false /\
  Ascii.eqb c "," = false /\ Ascii.eqb c "010" = false /\
  Ascii.eqb c "013" = false /\ Ascii.eqb c "I" = false /\
  Ascii.eqb c "N" = false /\ Ascii.eqb c "C" = false /\
  Ascii.eqb c "S" = false.
Proof.
  destruct c as [[] [] [] [] [] [] [] []]; vm_compute; intros H;
    first [discriminate H | repeat split].
Qed.

Lemma numeric_facts (c : ascii) :
  numeric_char c = true ->
  Py.is_space c = false /\ Py.upper_char c = c /\
  Ascii.eqb c "," = false /\ Ascii.eqb c "010" = false /\
  Ascii.eqb c "013" = false /\ Ascii.eqb c "C" = false /\
  Ascii.eqb c "S" = false.
Proof.
  destruct c as [[] [] [] [] [] [] [] []]; vm_compute; intros H;
    first [discriminate H | repeat split].
Qed.

Lemma point_char_facts (c : ascii) :
  point_char c = true ->
  Py.is_space c = false /\ Py.upper_char c = c /\
  Ascii.eqb c "010" = false /\ Ascii.eqb c "013" = false /\
  Ascii.eqb c "C" = false /\ Ascii.eqb c "S" = false.
Proof.
  destruct c as [[] [] [] [] [] [] [] []]; vm_compute; intros H;
    first [discriminate H | repeat split].
Qed.

(** A run of digits is read to its end. *)
Lemma scan_digits_all (s : string) :
  all_chars Py.is_digit s = true ->
  forall acc k,
    Py.scan_digits s acc k
    = (digits_value s acc, k + Z.of_nat (String.length s), EmptyString).
Proof.
  induction s as [|c s IH]; intros Hs acc k.
  - simpl. by rewrite Z.add_0_r.
  - simpl in Hs. apply andb_true_iff in Hs as [Hc Hs].
    specialize (IH Hs).
    replace (k + Z.of_nat (String.length (String c s)))
      with (k + 1 + Z.of_nat (String.length s))
      by (cbn [String.length]; lia).
    cbn [Py.scan_digits digits_value]. rewrite Hc.
    destruct s as [|u t].
    + by rewrite IH.
    + assert (Hu : Ascii.eqb u "_" = false).
      { simpl in Hs. apply andb_true_iff in Hs as [Hu _].
        by apply digit_facts in Hu as (_ & _ & -> & _). }
      by rewrite Hu, IH.
Qed.

Lemma str_numeric (n : Z) : all_chars numeric_char (Py.str n) = true.
Proof.
  destruct (str_spec n) as (ds & -> & Hall & _).
  assert (all_chars numeric_char ds = true) as Hds.
  { eapply all_chars_impl; [|done]. intros c Hc. unfold numeric_char.
    by rewrite Hc. }
  by destruct (n <? 0).
Qed.

Lemma str_nonempty (n : Z) : Py.str n <> EmptyString.
Proof.
  destruct (str_spec n) as (ds & -> & _ & Hne & _). by destruct (n <? 0).
Qed.

(** ** Reading a printed integer through [float] *)

Lemma lstrip_plain (s : string) :
  all_chars (fun c => negb (Py.is_space c)) s = true -> Py.lstrip s = s.
Proof.
  destruct s as [|c s]; simpl; [done|].
  intros [Hc _]%andb_true_iff. by destruct (Py.is_space c).
Qed.

Lemma rstrip_plain (s : string) :
  all_chars (fun c => negb (Py.is_space c)) s = true -> Py.rstrip s = s.
Proof.
  induction s as [|c s IH]; simpl; [done|].
  intros [Hc Hs]%andb_true_iff. rewrite (IH Hs).
  destruct (Py.is_space c); [done|]. by destruct s.
Qed.

Lemma strip_plain (s : string) :
  all_chars (fun c => negb (Py.is_space c)) s = true -> Py.strip s = s.
Proof.
  intros H. unfold Py.strip. by rewrite lstrip_plain, rstrip_plain.
Qed.

Lemma numeric_no_space (s : string) :
  all_chars numeric_char s = true ->
  all_chars (fun c => negb (Py.is_space c)) s = true.
Proof.
  apply all_chars_impl. intros c Hc.
  by apply numeric_facts in Hc as (-> & _).
Qed.

Lemma upper_digits (s : string) :
  all_chars Py.is_digit s = true -> Py.upper s = s.
Proof.
  induction s as [|c s IH]; simpl; [done|].
  intros [Hc Hs]%andb_true_iff. rewrite (IH Hs).
  by apply digit_facts in Hc as (_ & -> & _).
Qed.

(** The float read from an optional minus sign and a run of digits. *)
Lemma float_of_str_digits (neg : bool) (ds : string) :
  all_chars Py.is_digit ds = true -> ds <> EmptyString ->
  Py.float_of_str (if neg then String "-" ds else ds)
  = Some (Py.signed neg (Py.round_ratio (digits_value ds 0) 1)).
Proof.
  intros Hall Hne. unfold Py.float_of_str.
  assert (Hstrip : Py.strip (if neg then String "-" ds else ds)
                   = if neg then String "-" ds else ds).
  { apply strip_plain, numeric_no_space.
    assert (all_chars numeric_char ds = true) as Hds.
    { eapply all_chars_impl; [|done]. intros c Hc. unfold numeric_char.
      by rewrite Hc. }
    by destruct neg. }
  rewrite Hstrip.
  assert (Hsign : Py.scan_sign (if neg then String "-" ds else ds) = (neg, ds)).
  { destruct neg; [done|]. destruct ds as [|c ds]; [done|].
    simpl in Hall. apply andb_true_iff in Hall as [Hc _].
    apply digit_facts in Hc as (_ & _ & _ & Hm & Hp & _).
    unfold Py.scan_sign. by rewrite Hm, Hp. }
  rewrite Hsign. rewrite (upper_digits ds Hall).
  assert (Hinf : String.eqb ds "INF" = false /\ String.eqb ds "INFINITY" = false
                 /\ String.eqb ds "NAN" = false).
  { destruct ds as [|c ds]; [done|].
    simpl in Hall. apply andb_true_iff in Hall as [Hc _].
    apply digit_facts in Hc as (_ & _ & _ & _ & _ & _ & _ & _ & _ & HI & HN & _).
    simpl. by rewrite HI, HN. }
  destruct Hinf as (-> & -> & ->). cbn [orb].
  rewrite (scan_digits_all ds Hall 0 0).
  assert (Hlen : (0 <? 0 + Z.of_nat (String.length ds)) = true).
  { apply Z.ltb_lt. destruct ds; [done|]. simpl String.length. lia. }
  cbv beta iota zeta. rewrite Hlen. cbv beta iota zeta.
  replace (0 - 0) with 0 by lia. change (Z.max 0 0) with 0.
  change (Z.max 0 (- 0)) with 0. change (10 ^ 0) with 1.
  by rewrite Z.mul_1_r.
Qed.

(** Reading [str n] as a float gives the float nearest to [n]. *)
Lemma float_of_str_str (n : Z) :
  Py.float_of_str (Py.str n) = Some (Py.float_of_ratio n 1).
Proof.
  destruct (str_spec n) as (ds & -> & Hall & Hne & Hval).
  rewrite (float_of_str_digits (n <? 0) ds Hall Hne), Hval.
  unfold Py.float_of_ratio. by rewrite Z.mul_0_l, Z.add_0_l.
Qed.

(** [int(float(str(n)))] is [int(float(n))]. *)
Lemma int_float_str (n : Z) :
  Py.int_float (Py.str n) = Py.float_of_int n ≫= Py.int_of_float.
Proof.
  unfold Py.int_float, Py.float_of_int. rewrite float_of_str_str.
  by destruct (Py.float_of_ratio n 1).
Qed.

Lemma int_float_str_exact (n : Z) : exact n -> Py.int_float (Py.str n) = Some n.
Proof. intros H. by rewrite int_float_str. Qed.

Lemma div_half_even_1 (n : Z) : Py.div_half_even n 1 = n.
Proof.
  unfold Py.div_half_even. rewrite Z.div_1_r, Z.mod_1_r. done.
Qed.

Lemma ilog2_ratio_1 (a : Z) : 0 < a -> Py.ilog2_ratio a 1 = Z.log2 a.
Proof.
  intros Ha. unfold Py.ilog2_ratio. change (Z.log2 1) with 0.
  rewrite Z.sub_0_r.
  pose proof (Z.log2_nonneg a) as Hl.
  rewrite (Z.max_r 0 (Z.log2 a)) by lia.
  rewrite (Z.max_l 0 (- Z.log2 a)) by lia.
  destruct (Z.leb_spec (1 * 2 ^ Z.log2 a) (a * 2 ^ 0)) as [|Hlt]; [done|].
  pose proof (proj1 (Z.log2_spec a Ha)). lia.
Qed.

(** Every integer of magnitude below [2^53] is a double. *)
Lemma exact_below (n : Z) : Z.abs n < 2 ^ 53 -> exact n.
Proof.
  intros Hn. unfold exact, Py.float_of_int, Py.float_of_ratio, Py.round_ratio.
  destruct (Z.eqb_spec (Z.abs n) 0) as [H0|H0].
  - assert (n = 0) as -> by lia. done.
  - assert (Ha : 0 < Z.abs n) by lia.
    rewrite ilog2_ratio_1 by done.
    assert (Hl : 0 <= Z.log2 (Z.abs n) < 53).
    { split; [apply Z.log2_nonneg|]. by apply Z.log2_lt_pow2. }
    set (L := Z.log2 (Z.abs n)) in *.
    rewrite (Z.max_l (L - 52) (-1074)) by lia.
    rewrite (Z.max_r 0 (- (L - 52))) by lia.
    rewrite (Z.max_l 0 (L - 52)) by lia.
    change (1 * 2 ^ 0) with 1. rewrite div_half_even_1.
    assert (Hp : 0 < 2 ^ (- (L - 52))) by (apply Z.pow_pos_nonneg; lia).
    unfold Py.signed, Py.overflows.
    assert (Hov : (0 <=? L - 52) && (2 ^ 1024 <=? Z.abs n * 2 ^ (- (L - 52)) * 2 ^ (L - 52)) = false).
    { destruct (Z.leb_spec 0 (L - 52)) as [Hle|]; [|done].
      assert (L = 52) as -> by lia. simpl.
      apply Z.leb_gt.
      assert (2 ^ 53 < 2 ^ 1024) by (by vm_compute). lia. }
    rewrite Hov. cbn [fst snd Py.finite mbind option_bind Py.int_of_float].
    rewrite (Z.max_l 0 (L - 52)) by lia.
    rewrite (Z.max_r 0 (- (L - 52))) by lia.
    change (2 ^ 0) with 1. rewrite Z.mul_1_r.
    f_equal. destruct (Z.ltb_spec n 0).
    + rewrite <- Z.mul_opp_l, Z.quot_mul by lia. lia.
    + rewrite Z.quot_mul by lia. lia.
Qed.

(** And so are [2^53] and [-2^53]: every integer of magnitude up to [2^53]
    is exact. *)
Lemma exact_small (n : Z) : Z.abs n <= 2 ^ 53 -> exact n.
Proof.
  intros Hn. destruct (Z.eq_dec (Z.abs n) (2 ^ 53)) as [Heq|Hne].
  - assert (n = 2 ^ 53 \/ n = - 2 ^ 53) as [-> | ->] by lia; by vm_compute.
  - apply exact_below. lia.
Qed.

(** ** Lines of text *)

Lemma readlines_line (l rest : string) :
  all_chars no_newline l = true ->
  Py.readlines_from false (l +:+ MainWindow.newline +:+ rest)
  = (l +:+ MainWindow.newline) :: Py.readlines_from false rest.
Proof.
  induction l as [|c l IH]; intros Hl.
  - reflexivity.
  - simpl in Hl. apply andb_true_iff in Hl as [Hc Hl].
    unfold no_newline in Hc. apply andb_true_iff in Hc as [H1 H2].
    apply negb_true_iff in H1, H2.
    rewrite !append_cons. cbn [Py.readlines_from]. rewrite H1, H2, (IH Hl).
    by destruct l.
Qed.

Lemma readlines_join (ls : list string) :
  Forall (fun l => all_chars no_newline l = true) ls ->
  Py.readlines (join_lines ls) = (fun l => l +:+ MainWindow.newline) <$> ls.
Proof.
  unfold Py.readlines. induction 1 as [|l ls Hl Hls IH]; [done|].
  simpl. by rewrite readlines_line, IH.
Qed.

Lemma rstrip_space (s : string) (c : ascii) :
  Py.is_space c = true -> Py.rstrip (s +:+ String c EmptyString) = Py.rstrip s.
Proof.
  intros Hc. induction s as [|x s IH].
  - simpl. by rewrite Hc.
  - rewrite append_cons. simpl. by rewrite IH.
Qed.

(** Stripping a line read from the file removes its terminator, when the
    line neither starts nor ends with a blank. *)
Lemma strip_line (c : ascii) (l : string) :
  Py.is_space c = false -> Py.rstrip (String c l) = String c l ->
  Py.strip (String c l +:+ MainWindow.newline) = String c l.
Proof.
  intros Hc Hr. unfold Py.strip, MainWindow.newline. rewrite append_cons.
  cbn [Py.lstrip]. rewrite Hc. rewrite <- append_cons.
  by rewrite rstrip_space.
Qed.

Lemma strip_plain_line (l : string) :
  l <> EmptyString ->
  all_chars (fun c => negb (Py.is_space c)) l = true ->
  Py.strip (l +:+ MainWindow.newline) = l.
Proof.
  intros Hne Hl. destruct l as [|c l]; [done|].
  apply strip_line; [|by apply rstrip_plain].
  simpl in Hl. apply andb_true_iff in Hl as [Hc _]. by apply negb_true_iff.
Qed.

Lemma split_comma_app (a b : string) :
  all_chars (fun c => negb (Ascii.eqb c ",")) a = true ->
  Py.split_comma (a +:+ String "," b) = Some (a, b).
Proof.
  induction a as [|c a IH]; intros Ha.
  - reflexivity.
  - simpl in Ha. apply andb_true_iff in Ha as [Hc Ha].
    apply negb_true_iff in Hc.
    rewrite append_cons. cbn [Py.split_comma]. by rewrite Hc, (IH Ha).
Qed.

Lemma upper_point_chars (s : string) :
  all_chars point_char s = true -> Py.upper s = s.
Proof.
  induction s as [|c s IH]; simpl; [done|].
  intros [Hc Hs]%andb_true_iff. rewrite (IH Hs).
  by apply point_char_facts in Hc as (_ & -> & _).
Qed.

(** *** The lines of a point *)

Lemma point_text_chars (p : point) : all_chars point_char (point_text p) = true.
Proof.
  unfold point_text. rewrite !all_chars_app.
  assert (forall n, all_chars point_char (Py.str n) = true) as Hn.
  { intros n. eapply all_chars_impl; [|apply str_numeric].
    intros c Hc. unfold point_char. by rewrite Hc. }
  by rewrite !Hn.
Qed.

Lemma point_text_head (p : point) :
  exists (c : ascii) (t : string),
    point_text p = String c t /\ numeric_char c = true.
Proof.
  unfold point_text. pose proof (str_numeric p.1) as Hn.
  pose proof (str_nonempty p.1) as Hne.
  destruct (Py.str p.1) as [|c t]; [done|].
  exists c, (t +:+ "," +:+ Py.str p.2). split; [done|].
  simpl in Hn. by apply andb_true_iff in Hn as [-> _].
Qed.

Lemma parse_point_text (p : point) :
  exact_point p -> MainWindow.parse_point (point_text p) = Some p.
Proof.
  intros [Hx Hy]. unfold MainWindow.parse_point, point_text.
  assert (Hcomma : all_chars (fun c => negb (Ascii.eqb c ",")) (Py.str p.1) = true).
  { eapply all_chars_impl; [|apply str_numeric]. intros c Hc.
    by apply numeric_facts in Hc as (_ & _ & -> & _). }
  change ("," +:+ Py.str p.2) with (String "," (Py.str p.2)).
  rewrite (split_comma_app _ _ Hcomma). simpl.
  rewrite !strip_plain by apply numeric_no_space, str_numeric.
  rewrite (int_float_str_exact _ Hx), (int_float_str_exact _ Hy). simpl.
  by destruct p.
Qed.

(** ** The laser format: reading back what was written *)

Lemma color_to_code_range (c : rgb) :
  color_to_code c = 1 \/ color_to_code c = 2 \/ color_to_code c = 3.
Proof.
  destruct c as [[r g] b]. unfold color_to_code.
  destruct ((g <=? r) && (b <=? r)); [by left|].
  destruct ((r <=? g) && (b <=? g)); [by right; left|by right; right].
Qed.

(** The codec is the identity on codes. *)
Lemma color_code_round_trip (c : rgb) :
  color_to_code (code_to_color (color_to_code c)) = color_to_code c.
Proof. by destruct (color_to_code_range c) as [-> | [-> | ->]]. Qed.

(** A coordinate line is taken for a point. *)
Lemma laser_line_point (s : MainWindow.laser_state) (p : point) :
  exact_point p ->
  MainWindow.laser_line s (point_text p)
  = MainWindow.mk_laser (MainWindow.cc s) (MainWindow.cp s ++ [p])
                        (MainWindow.doc s).
Proof.
  intros Hp. unfold MainWindow.laser_line.
  rewrite (upper_point_chars _ (point_text_chars p)).
  rewrite (parse_point_text p Hp).
  destruct (point_text_head p) as (c & t & -> & Hc).
  apply numeric_facts in Hc as (_ & _ & _ & _ & _ & HC & HS).
  cbn [String.eqb Py.startswith]. rewrite (Ascii.eqb_sym "C" c), HC, HS. done.
Qed.

Lemma laser_loop_points (pts acc : list point) (c : option rgb)
    (d : heap * SceneTab.t) :
  Forall exact_point pts ->
  MainWindow.laser_loop (MainWindow.mk_laser c acc d) (point_text <$> pts)
  = MainWindow.mk_laser c (acc ++ pts) d.
Proof.
  intros Hpts. revert acc. unfold MainWindow.laser_loop.
  induction Hpts as [|p pts Hp Hpts IH]; intros acc; simpl.
  - by rewrite app_nil_r.
  - rewrite (laser_line_point _ p Hp). simpl. rewrite IH.
    by rewrite <- app_assoc.
Qed.

(** A COLOR line written by the export sets the colour of its code. *)
Lemma laser_line_color (s : MainWindow.laser_state) (c : rgb) :
  MainWindow.cp s = [] ->
  MainWindow.laser_line s ("COLOR " +:+ Py.str (color_to_code c))
  = MainWindow.mk_laser (Some (code_to_color (color_to_code c))) []
                        (MainWindow.doc s).
Proof.
  intros Hcp. destruct s as [col pts d]. simpl in Hcp. subst pts.
  by destruct (color_to_code_range c) as [-> | [-> | ->]]; destruct col.
Qed.

(** The lines of one polyline are read back as that polyline, in the
    colour of its code. *)
Lemma laser_loop_element (s : MainWindow.laser_state) (e : SceneElement) :
  MainWindow.cp s = [] -> points e <> [] -> Forall exact_point (points e) ->
  MainWindow.laser_loop s (element_lines e)
  = MainWindow.mk_laser (Some (code_to_color (color_to_code (color e)))) []
      (MainWindow.add_element (reimported e) (MainWindow.doc s)).
Proof.
  intros Hcp Hne Hex. unfold element_lines, MainWindow.laser_loop.
  cbn [foldl]. rewrite (laser_line_color s (color e) Hcp).
  rewrite foldl_app.
  change (foldl MainWindow.laser_line ?a (point_text <$> ?l))
    with (MainWindow.laser_loop a (point_text <$> l)).
  rewrite (laser_loop_points _ _ _ _ Hex). simpl.
  unfold MainWindow.laser_line. simpl.
  unfold MainWindow.flush, reimported. by destruct (points e).
Qed.

Lemma laser_loop_elements (es : list SceneElement)
    (s : MainWindow.laser_state) :
  MainWindow.cp s = [] ->
  Forall (fun e => points e <> [] /\ Forall exact_point (points e)) es ->
  MainWindow.cp (MainWindow.laser_loop s (mjoin (element_lines <$> es))) = [] /\
  MainWindow.doc (MainWindow.laser_loop s (mjoin (element_lines <$> es)))
  = foldl (fun d e => MainWindow.add_element (reimported e) d)
          (MainWindow.doc s) es.
Proof.
  intros Hcp Hes. revert s Hcp.
  induction Hes as [|e es [Hne Hex] Hes IH]; intros s Hcp; [done|].
  cbn [fmap list_fmap mjoin list_join foldl].
  unfold MainWindow.laser_loop in *. rewrite foldl_app.
  pose proof (laser_loop_element s e Hcp Hne Hex) as He.
  unfold MainWindow.laser_loop in He. rewrite He.
  apply (IH (MainWindow.mk_laser _ [] _)). done.
Qed.

(** The store and the element list after a run of imports into a scene. *)
Lemma add_elements_spec (es : list SceneElement) (h : heap) (sc : SceneTab.t) :
  (foldl (fun d e => MainWindow.add_element e d) (h, sc) es).1 = h ++ es /\
  SceneTab.elements (foldl (fun d e => MainWindow.add_element e d) (h, sc) es).2
  = SceneTab.elements sc ++ seq (length h) (length es).
Proof.
  revert h sc. induction es as [|e es IH]; intros h sc.
  - simpl. by rewrite !app_nil_r.
  - change (foldl (fun d e => MainWindow.add_element e d) (h, sc) (e :: es))
      with (foldl (fun d e => MainWindow.add_element e d)
                  (h ++ [e], SceneTab.append_element (length h) sc) es).
    destruct (IH (h ++ [e]) (SceneTab.append_element (length h) sc)) as [H1 H2].
    rewrite H1, H2. simpl. rewrite <- !app_assoc. simpl.
    rewrite length_app. simpl. by rewrite Nat.add_1_r.
Qed.

(** ** The laser format: what the export writes for polylines *)

Lemma concat_cons (l : string) (ls : list string) :
  String.concat "" (l :: ls) = l +:+ String.concat "" ls.
Proof.
  destruct ls as [|l' ls]; simpl; [by rewrite append_empty_r|done].
Qed.

Lemma join_lines_app (a b : list string) :
  join_lines (a ++ b) = join_lines a +:+ join_lines b.
Proof.
  induction a as [|l a IH]; simpl; [done|].
  by rewrite IH, !append_assoc.
Qed.

Lemma concat_join_lines (ls : list (list string)) :
  String.concat "" (join_lines <$> ls) = join_lines (mjoin ls).
Proof.
  induction ls as [|l ls IH]; [done|].
  cbn [fmap list_fmap mjoin list_join]. fold (fmap join_lines ls).
  by rewrite concat_cons, join_lines_app, IH.
Qed.

Section LaserRoundTrip.

Variables cos sin : Py.float -> option Py.float.

Lemma point_lines_written (grid_size : Z) (pts : list point) :
  mapM (MainWindow.point_line false grid_size) pts
  = Some ((fun p => point_text p +:+ MainWindow.newline) <$> pts).
Proof.
  induction pts as [|[x y] pts IH]; [done|].
  cbn [mapM]. rewrite IH. simpl. unfold point_text. simpl.
  by rewrite !append_assoc.
Qed.

Lemma point_lines_joined (pts : list point) :
  String.concat "" ((fun p => point_text p +:+ MainWindow.newline) <$> pts)
    +:+ "STOP" +:+ MainWindow.newline
  = join_lines ((point_text <$> pts) ++ ["STOP"%string]).
Proof.
  induction pts as [|p pts IH]; [done|].
  cbn [fmap list_fmap]. fold (fmap (fun p => point_text p +:+ MainWindow.newline) pts).
  rewrite concat_cons. simpl. rewrite <- IH. by rewrite !append_assoc.
Qed.

Lemma export_element_polyline (grid_size steps : Z) (e : SceneElement) :
  kind e = "polyline"%string ->
  MainWindow.export_element cos sin false grid_size steps e
  = Some (join_lines (element_lines e)).
Proof.
  intros Hk. unfold MainWindow.export_element, MainWindow.export_points.
  rewrite Hk. simpl. rewrite point_lines_written. simpl.
  unfold element_lines. cbn [join_lines foldr].
  fold (join_lines ((point_text <$> points e) ++ ["STOP"%string])).
  rewrite <- point_lines_joined. by rewrite !append_assoc.
Qed.

Lemma export_polylines (grid_size steps : Z) (h : heap) (sc : SceneTab.t)
    (es : list SceneElement) :
  Forall2 (fun el e => h !! el = Some e) (SceneTab.elements sc) es ->
  Forall (fun e => kind e = "polyline"%string) es ->
  MainWindow.export_laser_format cos sin false grid_size steps h sc
  = Some (join_lines (mjoin (element_lines <$> es))).
Proof.
  intros Hes Hk. unfold MainWindow.export_laser_format.
  rewrite (proj2 (mapM_Some _ _ _) Hes). simpl.
  assert (Hts : mapM (MainWindow.export_element cos sin false grid_size steps) es
                = Some (join_lines <$> (element_lines <$> es))).
  { apply mapM_Some. clear Hes. induction Hk as [|e es He Hk IH]; simpl.
    - constructor.
    - constructor; [by apply export_element_polyline|done]. }
  rewrite Hts. simpl. by rewrite concat_join_lines.
Qed.

End LaserRoundTrip.

(** ** The laser format: the round trip *)

Lemma good_lines_read (ls : list string) :
  Forall good_line ls -> Py.strip <$> Py.readlines (join_lines ls) = ls.
Proof.
  intros Hls. rewrite readlines_join.
  - induction Hls as [|l ls [_ Hl] Hls IH]; [done|].
    cbn [fmap list_fmap]. f_equal; [done|apply IH].
  - eapply Forall_impl; [done|]. by intros l [Hl _].
Qed.

Lemma point_text_good (p : point) : good_line (point_text p).
Proof.
  pose proof (point_text_chars p) as Hc. split.
  - eapply all_chars_impl; [|done]. intros c Hp. unfold no_newline.
    by apply point_char_facts in Hp as (_ & _ & -> & -> & _).
  - apply strip_plain_line.
    + by destruct (point_text_head p) as (c & t & -> & _).
    + eapply all_chars_impl; [|done]. intros c Hp.
      by apply point_char_facts in Hp as (-> & _).
Qed.

Lemma element_lines_good (e : SceneElement) : Forall good_line (element_lines e).
Proof.
  unfold element_lines. apply Forall_cons. split.
  - by destruct (color_to_code_range (color e)) as [-> | [-> | ->]].
  - apply Forall_app. split.
    + apply Forall_fmap, Forall_forall. intros p _. apply point_text_good.
    + by apply Forall_cons.
Qed.

(** The store after the import holds, after the objects that were there,
    one polyline for each exported element. *)
Lemma import_of_export (grid_size cell_size : Z) (es : list SceneElement)
    (h1 : heap) :
  Forall exact_polyline es ->
  let d := MainWindow.import_laser_format grid_size cell_size
             (join_lines (mjoin (element_lines <$> es))) h1 in
  d.1 = h1 ++ (reimported <$> es) /\
  SceneTab.elements d.2 = seq (length h1) (length es).
Proof.
  intros Hes. unfold MainWindow.import_laser_format, MainWindow.import_lines.
  rewrite good_lines_read.
  2: { apply Forall_forall. intros l Hl. apply list_elem_of_join in Hl as (ls & Hl & Hls).
       apply list_elem_of_fmap in Hls as (e & -> & _).
       pose proof (element_lines_good e) as Hg.
       by eapply Forall_forall in Hg. }
  set (s0 := MainWindow.mk_laser None [] (h1, SceneTab.init grid_size cell_size)).
  destruct (laser_loop_elements es s0 eq_refl) as [Hcp Hdoc].
  { eapply Forall_impl; [done|]. intros e (_ & Hlen & Hex). split; [|done].
    destruct (points e); [simpl in Hlen; lia|done]. }
  unfold MainWindow.laser_finish, MainWindow.flush.
  rewrite Hcp, Hdoc. simpl.
  pose proof (add_elements_spec (reimported <$> es) h1
                (SceneTab.init grid_size cell_size)) as [H1 H2].
  rewrite foldl_fmap in H1, H2. rewrite length_fmap in H2.
  by rewrite H1, H2.
Qed.





(** ** The invariant of the circles *)

Lemma refs_ok_mono (h h' : heap) (sc : SceneTab.t) :
  (length h <= length h')%nat -> refs_ok h sc -> refs_ok h' sc.
Proof.
  intros Hlen [H1 H2 H3].
  split; (eapply Forall_impl; [done|]); unfold allocated; intros; simpl in *; lia.
Qed.

Lemma refs_ok_ext (h : heap) (sc sc' : SceneTab.t) :
  SceneTab.elements sc' = SceneTab.elements sc ->
  SceneTab.undo_manager sc' = SceneTab.undo_manager sc ->
  refs_ok h sc -> refs_ok h sc'.
Proof. intros He Hu [H1 H2 H3]. split; by rewrite ?He, ?Hu. Qed.

Lemma refs_ok_init (h : heap) (gs cs : Z) : refs_ok h (SceneTab.init gs cs).
Proof. split; constructor. Qed.

Lemma preserving_pure (g : SceneTab.t -> SceneTab.t) :
  (forall sc, SceneTab.elements (g sc) = SceneTab.elements sc) ->
  (forall sc, SceneTab.undo_manager (g sc) = SceneTab.undo_manager sc) ->
  preserving (fun h sc => (h, g sc)).
Proof.
  intros He Hu h sc Hh Hsc. simpl. split; [done|]. split; [|done].
  eapply refs_ok_ext; [apply He|apply Hu|done].
Qed.

(** Appending a new, well-formed object keeps the invariant. *)
Lemma add_element_inv (e : SceneElement) (h : heap) (sc : SceneTab.t) :
  circle_ok e -> Forall circle_ok h -> refs_ok h sc ->
  Forall circle_ok (h ++ [e]) /\
  refs_ok (h ++ [e]) (SceneTab.append_element (length h) sc) /\
  (length h <= length (h ++ [e]))%nat.
Proof.
  intros He Hh Hsc. split; [|split].
  - apply Forall_app. split; [done|]. by apply Forall_cons.
  - apply (refs_ok_mono h (h ++ [e])) in Hsc; [|rewrite length_app; lia].
    destruct Hsc as [H1 H2 H3]. split; simpl.
    + apply Forall_app. split; [done|].
      apply Forall_cons. split; [apply allocated_new|done].
    + apply Forall_app. split; [done|].
      apply Forall_cons. split; [apply allocated_new|done].
    + constructor.
  - rewrite length_app. lia.
Qed.

Lemma polyline_circle_ok (pts : list point) (c : rgb) (r : Z) :
  circle_ok (mkSceneElement "polyline" pts c r).
Proof. intros H. discriminate H. Qed.

Lemma circle_circle_ok (cen : point) (c : rgb) (r : Z) :
  circle_ok (mkSceneElement "circle" [cen] c r).
Proof. intros _. by exists cen. Qed.

Lemma preserving_commit_polyline :
  preserving (fun h sc => (SceneTab.commit_polyline h sc).1).
Proof.
  intros h sc Hh Hsc. unfold SceneTab.commit_polyline.
  destruct (2 <=? _); [|by simpl]. simpl.
  destruct (add_element_inv (mkSceneElement "polyline" (SceneTab._temp_points sc)
              (SceneTab.cc sc) 0) h sc (polyline_circle_ok _ _ _) Hh Hsc)
    as (H1 & H2 & H3).
  split; [done|]. split; [|done].
  eapply refs_ok_ext; [| |exact H2]; done.
Qed.

Lemma preserving_commit_circle (cen : point) (r : Z) :
  preserving (fun h sc => (SceneTab.commit_circle_from_center cen r h sc).1).
Proof.
  intros h sc Hh Hsc. simpl.
  destruct (add_element_inv (mkSceneElement "circle" [cen] (SceneTab.cc sc) r)
              h sc (circle_circle_ok _ _ _) Hh Hsc) as (H1 & H2 & H3).
  split; [done|]. split; [|done].
  eapply refs_ok_ext; [| |exact H2]; done.
Qed.

Lemma pop_Some {A} (l rest : list A) (x : A) :
  pop l = Some (rest, x) -> l = rest ++ [x].
Proof.
  revert rest. induction l as [|y l IH]; intros rest; simpl; [done|].
  destruct (pop l) as [[r z]|] eqn:Hp.
  - intros [= <- <-]. by rewrite (IH r eq_refl).
  - intros [= <- <-]. by rewrite (pop_nil_inv l Hp).
Qed.

Lemma py_remove_allocated (h : heap) (el : ref) (l : list ref) :
  Forall (allocated h) l -> Forall (allocated h) (py_remove h el l).
Proof.
  intros Hl. apply Forall_forall. intros y Hy.
  eapply Forall_forall in Hl; [done|]. by eapply py_remove_subseteq.
Qed.

Lemma preserving_remove (el : ref) :
  preserving (fun h sc => (h, SceneTab.remove_element h el sc)).
Proof.
  intros h sc Hh [H1 H2 H3]. simpl. split; [done|]. split; [|done].
  unfold SceneTab.remove_element.
  destruct (py_in h el (SceneTab.elements sc)) eqn:Hin; [|by split].
  split; simpl.
  - by apply py_remove_allocated.
  - apply Forall_app. split; [done|]. apply Forall_cons. split; [|done].
    by eapply py_in_allocated.
  - constructor.
Qed.

Lemma preserving_undo : preserving (fun h sc => (h, SceneTab.undo h sc)).
Proof.
  intros h sc Hh [H1 H2 H3]. simpl. split; [done|]. split; [|done].
  unfold SceneTab.undo, UndoManager.undo.
  destruct (pop _) as [[rest [o el]]|] eqn:Hp; [|by split].
  apply pop_Some in Hp. rewrite Hp in H2.
  apply Forall_app in H2 as [H2 [Hel _]%Forall_cons].
  destruct o; split; simpl; try done.
  - destruct (py_in h el _); [by apply py_remove_allocated|done].
  - apply Forall_app. split; [done|]. by apply Forall_cons.
  - apply Forall_app. split; [done|]. by apply Forall_cons.
  - apply Forall_app. split; [done|]. by apply Forall_cons.
Qed.

Lemma preserving_redo : preserving (fun h sc => (h, SceneTab.redo h sc)).
Proof.
  intros h sc Hh [H1 H2 H3]. simpl. split; [done|]. split; [|done].
  unfold SceneTab.redo, UndoManager.redo.
  destruct (pop _) as [[rest [o el]]|] eqn:Hp; [|by split].
  apply pop_Some in Hp. rewrite Hp in H3.
  apply Forall_app in H3 as [H3 [Hel _]%Forall_cons].
  destruct o; split; simpl; try done.
  - apply Forall_app. split; [done|]. by apply Forall_cons.
  - apply Forall_app. split; [done|]. by apply Forall_cons.
  - destruct (py_in h el _); [by apply py_remove_allocated|done].
  - apply Forall_app. split; [done|]. by apply Forall_cons.
Qed.

Lemma circle_ok_same_shape (e e' : SceneElement) :
  kind e' = kind e -> length (points e') = length (points e) ->
  circle_ok e -> circle_ok e'.
Proof.
  intros Hk Hl He Hc. rewrite Hk in Hc. destruct (He Hc) as [c Hp].
  rewrite Hp in Hl. destruct (points e') as [|c' [|? ?]]; try done.
  by exists c'.
Qed.

Lemma store_update_inv (h : heap) (sc : SceneTab.t) (el : ref)
    (e e' : SceneElement) :
  h !! el = Some e -> kind e' = kind e ->
  length (points e') = length (points e) ->
  Forall circle_ok h -> refs_ok h sc ->
  Forall circle_ok (<[el := e']> h) /\ refs_ok (<[el := e']> h) sc /\
  (length h <= length (<[el := e']> h))%nat.
Proof.
  intros He Hk Hl Hh Hsc. rewrite length_insert. split; [|split; [|done]].
  - apply Forall_insert; [done|].
    eapply circle_ok_same_shape; [done..|].
    eapply Forall_forall in Hh; [done|]. by eapply list_elem_of_lookup_2.
  - eapply refs_ok_mono; [|done]. by rewrite length_insert.
Qed.

Lemma preserving_color_changed (m : list (Z * Z)) (row idx : Z) :
  preserving
    (fun h sc => (MainWindow._on_color_changed_in_table m row idx h sc, sc)).
Proof.
  intros h sc Hh Hsc. simpl. unfold MainWindow._on_color_changed_in_table.
  destruct (MainWindow.table_target m row sc) as [[el sub]|]; [|done].
  destruct (h !! el) as [e|] eqn:He; [|done].
  by eapply store_update_inv.
Qed.

Lemma preserving_item_changed (m : list (Z * Z))
    (cell : Z -> Z -> option string) (row col : Z) :
  preserving
    (fun h sc => (MainWindow._on_table_item_changed m cell row col h sc, sc)).
Proof.
  intros h sc Hh Hsc. simpl.
  destruct (on_table_item_changed_store m cell row col h sc)
    as [->|(el & sub & e & e' & Ht & He & Hed & ->)]; [done|].
  apply table_edit_cases in Hed
    as [->|[(i & x & y & _ & _ & _ & Hi & ->)|(val & _ & _ & _ & ->)]].
  - by eapply store_update_inv.
  - eapply store_update_inv; try done. simpl. by rewrite length_insert.
  - by eapply store_update_inv.
Qed.

(** *** The imports *)

Lemma import_inv_add (n : nat) (e : SceneElement) (d : heap * SceneTab.t) :
  circle_ok e -> import_inv n d -> import_inv n (MainWindow.add_element e d).
Proof.
  destruct d as [h sc]. intros He (H1 & H2 & H3).
  destruct (add_element_inv e h sc He H1 H2) as (H1' & H2' & H3').
  split; [done|]. split; [done|]. simpl in *. lia.
Qed.

Lemma import_inv_flush (n : nat) (c : option rgb) (pts : list point)
    (d : heap * SceneTab.t) :
  import_inv n d -> import_inv n (MainWindow.flush c pts d).
Proof.
  intros Hd. unfold MainWindow.flush. destruct pts, c; try done.
  apply import_inv_add; [apply polyline_circle_ok|done].
Qed.

Lemma import_inv_laser_line (n : nat) (s : MainWindow.laser_state)
    (ln : string) :
  import_inv n (MainWindow.doc s) ->
  import_inv n (MainWindow.doc (MainWindow.laser_line s ln)).
Proof.
  intros Hd. unfold MainWindow.laser_line.
  destruct (String.eqb ln ""); [done|].
  destruct (Py.startswith _ _); [by apply import_inv_flush|].
  destruct (String.eqb _ _); [by apply import_inv_flush|].
  by destruct (MainWindow.parse_point ln).
Qed.

Lemma import_inv_laser (grid_size cell_size : Z) (text : string) (h : heap) :
  Forall circle_ok h ->
  import_inv (length h)
    (MainWindow.import_laser_format grid_size cell_size text h).
Proof.
  intros Hh. unfold MainWindow.import_laser_format, MainWindow.import_lines,
    MainWindow.laser_finish, MainWindow.laser_loop.
  apply import_inv_flush.
  assert (Hgen : forall ls s, import_inv (length h) (MainWindow.doc s) ->
            import_inv (length h)
              (MainWindow.doc (foldl MainWindow.laser_line s ls))).
  { induction ls as [|l ls IH]; intros s Hs; [done|].
    simpl. apply IH. by apply import_inv_laser_line. }
  apply Hgen. simpl. split; [done|]. split; [apply refs_ok_init|done].
Qed.

Lemma import_inv_csv_flush (n : nat) (c : option rgb) (pts : list point)
    (d : heap * SceneTab.t) :
  import_inv n d -> import_inv n (MainWindow.csv_flush pts c d).
Proof.
  intros Hd. unfold MainWindow.csv_flush. destruct pts, c; try done.
  apply import_inv_add; [apply polyline_circle_ok|done].
Qed.

Lemma import_inv_csv_row (n : nat) (s : MainWindow.csv_state)
    (r : gmap string value) :
  import_inv n (MainWindow.csv_doc s) ->
  import_inv n (MainWindow.csv_doc (MainWindow.unwrap (MainWindow.csv_row s r))).
Proof.
  intros Hd. unfold MainWindow.csv_row.
  destruct (MainWindow.csv_fields r) as [[[x y] c]|]; [|done].
  destruct (bool_decide (_ = VStr "polyline")).
  - destruct (MainWindow.csv_cc s) as [c0|]; simpl.
    + destruct (_ && _); simpl; [|done]. by apply import_inv_csv_flush.
    + by destruct (_ && _).
  - destruct (bool_decide (_ = VStr "circle")); [|done].
    assert (Hs1 : import_inv n (MainWindow.csv_doc
              match MainWindow.current_poly s with
              | [] => s
              | _ :: _ =>
                  MainWindow.mk_csv [] None
                    (MainWindow.csv_flush (MainWindow.current_poly s)
                       (MainWindow.csv_cc s) (MainWindow.csv_doc s))
              end)).
    { destruct (MainWindow.current_poly s); [done|].
      by apply import_inv_csv_flush. }
    destruct (if MainWindow.is_blank _ then _ else _); simpl; [|done].
    apply import_inv_add; [apply circle_circle_ok|done].
Qed.

Lemma import_inv_csv_loop (n : nat) (rows : list (gmap string value))
    (s : MainWindow.csv_state) :
  import_inv n (MainWindow.csv_doc s) ->
  import_inv n (MainWindow.csv_doc (MainWindow.unwrap (MainWindow.csv_loop s rows))).
Proof.
  revert s. induction rows as [|r rows IH]; intros s Hs; [done|].
  simpl. pose proof (import_inv_csv_row n s r Hs) as Hr.
  destruct (MainWindow.csv_row s r) as [s'|s']; simpl in *; [by apply IH|done].
Qed.

Lemma import_inv_csv (grid_size cell_size : Z)
    (rows : list (gmap string value)) (h : heap) :
  Forall circle_ok h ->
  import_inv (length h)
    (MainWindow.unwrap (MainWindow.open_csv grid_size cell_size rows h)).
Proof.
  intros Hh. unfold MainWindow.open_csv.
  set (s0 := MainWindow.mk_csv [] None (h, SceneTab.init grid_size cell_size)).
  assert (Hs0 : import_inv (length h) (MainWindow.csv_doc s0)).
  { split; [done|]. split; [apply refs_ok_init|done]. }
  pose proof (import_inv_csv_loop (length h) rows s0 Hs0) as Hl.
  destruct (MainWindow.csv_loop s0 rows) as [s|s]; simpl in *; [|done].
  by apply import_inv_csv_flush.
Qed.

(** *** The window *)

Lemma window_inv_on_current (f : heap -> SceneTab.t -> heap * SceneTab.t)
    (w : MainWindow.t) :
  preserving f -> window_inv w -> window_inv (MainWindow.on_current f w).
Proof.
  intros Hf [Hstore Htabs]. unfold MainWindow.on_current, MainWindow.current_scene.
  destruct (MainWindow.tabs w !! MainWindow.current w) as [sc|] eqn:Hsc;
    [|by split].
  assert (Hrefs : refs_ok (MainWindow.store w) sc).
  { eapply Forall_forall in Htabs; [done|]. by eapply list_elem_of_lookup_2. }
  destruct (Hf _ _ Hstore Hrefs) as (H1 & H2 & H3).
  split; simpl; [done|].
  apply Forall_insert; [|done].
  eapply Forall_impl; [done|]. intros sc'. by apply refs_ok_mono.
Qed.

Lemma window_inv_add_tab (st : heap * SceneTab.t) (w : MainWindow.t) :
  import_inv (length (MainWindow.store w)) st ->
  window_inv w -> window_inv (MainWindow.add_tab st w).
Proof.
  intros (H1 & H2 & H3) [Hstore Htabs]. split; simpl; [done|].
  apply Forall_app. split; [|by apply Forall_cons].
  eapply Forall_impl; [done|]. intros sc'. by apply refs_ok_mono.
Qed.

Lemma window_inv_step (w : MainWindow.t) (a : MainWindow.action) :
  window_inv w -> window_inv (MainWindow.step w a).
Proof.
  intros Hw. destruct a; simpl.
  - by apply window_inv_on_current; [apply preserving_pure|].
  - by apply window_inv_on_current; [apply preserving_pure|].
  - apply window_inv_on_current; [|done]. intros h sc Hh Hsc.
    unfold MainWindow.mouse_press_left.
    destruct (String.eqb _ "polyline").
    { simpl. split; [done|]. split; [|done].
      eapply refs_ok_ext; [| |exact Hsc]; done. }
    destruct (String.eqb _ "circle"); [|done].
    destruct (SceneTab._circle_center sc) as [c|].
    + by apply preserving_commit_circle.
    + simpl. split; [done|]. split; [|done].
      eapply refs_ok_ext; [| |exact Hsc]; done.
  - by apply window_inv_on_current; [apply preserving_commit_polyline|].
  - by apply window_inv_on_current; [apply preserving_commit_circle|].
  - by apply window_inv_on_current; [apply preserving_pure|].
  - apply window_inv_on_current; [|done]. intros h sc Hh Hsc. simpl.
    split; [done|]. split; [|done]. split; constructor.
  - by apply window_inv_on_current; [apply preserving_remove|].
  - by apply window_inv_on_current; [apply preserving_undo|].
  - by apply window_inv_on_current; [apply preserving_redo|].
  - by apply window_inv_on_current; [apply preserving_color_changed|].
  - by apply window_inv_on_current; [apply preserving_item_changed|].
  - apply window_inv_add_tab; [|done]. apply import_inv_csv. by destruct Hw.
  - apply window_inv_add_tab; [|done]. apply import_inv_laser. by destruct Hw.
  - apply window_inv_add_tab; [|done]. destruct Hw as [Hstore _].
    split; [done|]. split; [apply refs_ok_init|done].
  - by destruct Hw.
  - destruct Hw as [Hstore Htabs]. split; simpl; [done|].
    by apply Forall_delete.
  - destruct Hw as [Hstore Htabs]. split; simpl; [done|].
    apply Forall_fmap. eapply Forall_impl; [done|]. intros sc Hsc.
    eapply refs_ok_ext; [| |exact Hsc]; done.
Qed.

Lemma window_inv_reachable (w : MainWindow.t) :
  MainWindow.reachable w -> window_inv w.
Proof.
  intros [acts ->].
  assert (Hgen : forall w0, window_inv w0 ->
                   window_inv (foldl MainWindow.step w0 acts)).
  { induction acts as [|a acts IH]; intros w0 Hw0; [done|].
    simpl. apply IH. by apply window_inv_step. }
  apply Hgen. split; simpl.
  - constructor.
  - apply Forall_cons. split; [apply refs_ok_init|constructor].
Qed.

(** C10: in every state that the window can reach, every element of every
    scene is an object of the store, and when its kind is "circle" its
    point list holds exactly one point, the centre. *)
Theorem circle_has_one_point (w : MainWindow.t) (sc : SceneTab.t) (el : ref) :
  MainWindow.reachable w ->
  sc ∈ MainWindow.tabs w -> el ∈ SceneTab.elements sc ->
  exists e : SceneElement,
    MainWindow.store w !! el = Some e /\
    (kind e = "circle"%string ->
     length (points e) = 1%nat /\ exists c : point, points e = [c]).
Proof.
  intros Hw Hsc Hel. apply window_inv_reachable in Hw as [Hstore Htabs].
  eapply Forall_forall in Htabs; [|done]. destruct Htabs as [Hels _ _].
  eapply Forall_forall in Hels; [|done].
  destruct (lookup_lt_is_Some_2 _ _ Hels) as [e He].
  exists e. split; [done|]. intros Hk.
  eapply Forall_forall in Hstore; [|by eapply list_elem_of_lookup_2].
  destruct (Hstore Hk) as [c Hc]. rewrite Hc. split; [done|by exists c].
Qed.

Lemma circle_has_one_point_witness :
  exists e : SceneElement,
    MainWindow.store (foldl MainWindow.step MainWindow.init session) !! 2%nat
    = Some e /\
    (kind e = "circle"%string ->
     length (points e) = 1%nat /\ exists c : point, points e = [c]).
Proof.
  apply (circle_has_one_point (foldl MainWindow.step MainWindow.init session)
           (SceneTab.set_elements [2%nat]
              (UndoManager.mk [(UndoManager.add, 2%nat)] [])
              (SceneTab.init 255 1))).
  - by exists session.
  - vm_compute. apply list_elem_of_further, list_elem_of_here.
  - apply list_elem_of_here.
Defined.

(** ** The CSV import *)

(** Points are only collected under a colour: the case left out of
    [csv_flush] does not occur. *)
Lemma csv_row_colour (s s' : MainWindow.csv_state) (r : gmap string value) :
  (MainWindow.current_poly s <> [] -> MainWindow.csv_cc s <> None) ->
  MainWindow.unwrap (MainWindow.csv_row s r) = s' ->
  MainWindow.current_poly s' <> [] -> MainWindow.csv_cc s' <> None.
Proof.
  intros Hs <-. unfold MainWindow.csv_row.
  destruct (MainWindow.csv_fields r) as [[[x y] c]|]; [|done].
  destruct (bool_decide (_ = VStr "polyline")).
  - destruct (MainWindow.csv_cc s); by destruct (_ && _).
  - destruct (bool_decide (_ = VStr "circle")); [|done].
    destruct (MainWindow.current_poly s) eqn:Hp;
      by destruct (if MainWindow.is_blank _ then _ else _).
Qed.

(** A record whose [x] cannot be read as a number stops the import: the
    loop is left with the state it had before the record, whatever
    follows. *)
Lemma csv_loop_aborts (s : MainWindow.csv_state) (r : gmap string value)
    (rows : list (gmap string value)) :
  MainWindow.to_int_float (MainWindow.get r "x" (VInt 0)) = None ->
  MainWindow.csv_loop s (r :: rows) = Raised s.
Proof.
  intros Hx. simpl. unfold MainWindow.csv_row, MainWindow.csv_fields.
  by rewrite Hx.
Qed.

(** C5, the code at a malformed record: [float("abc")] raises, the
    exception leaves [open_csv], and the new scene stays empty; the first
    record is lost with the rest, and the circle of the third record is
    never read.  With the field put right the same file gives a polyline
    and a circle. *)
Theorem open_csv_aborts_on_malformed_field :
  MainWindow.open_csv 255 1 csv_rows_bad [] = Raised ([], SceneTab.init 255 1) /\
  exists sc : SceneTab.t,
    MainWindow.open_csv 255 1 csv_rows_good []
    = Done ([mkSceneElement "polyline" [(1, 2); (3, 4)] (255, 0, 0) 0;
             mkSceneElement "circle" [(5, 5)] (0, 0, 255) 3], sc) /\
    SceneTab.elements sc = [0%nat; 1%nat].
Proof.
  split; [by vm_compute|]. eexists. split; by vm_compute.
Qed.

(** ** Floats: rounding keeps magnitudes within a factor of two *)

Lemma div_half_even_bound (n d : Z) :
  0 <= n -> 0 < d ->
  0 <= Py.div_half_even n d /\ Py.div_half_even n d * d <= 2 * n.
Proof.
  intros Hn Hd. unfold Py.div_half_even.
  pose proof (Z.div_mod n d ltac:(lia)) as Hdm.
  pose proof (Z.mod_pos_bound n d Hd) as Hr.
  assert (Hq : 0 <= n / d) by (apply Z.div_pos; lia).
  assert (Hqd : 0 <= d * (n / d)) by (apply Z.mul_nonneg_nonneg; lia).
  destruct (Z.ltb_spec (2 * (n mod d)) d).
  - split; [done|]. lia.
  - assert ((n / d + 1) * d <= 2 * n) by lia.
    destruct (d <? 2 * (n mod d)); [split; lia|].
    destruct (Z.even (n / d)); split; lia.
Qed.

Lemma pow2_split (e : Z) :
  -1074 <= e ->
  2 ^ (e + 1074) = 2 ^ Z.max 0 e * 2 ^ (1074 - Z.max 0 (- e)) /\
  2 ^ 1074 = 2 ^ Z.max 0 (- e) * 2 ^ (1074 - Z.max 0 (- e)) /\
  0 < 2 ^ (1074 - Z.max 0 (- e)).
Proof.
  intros He. split; [|split].
  - rewrite <- Z.pow_add_r by lia. f_equal. lia.
  - rewrite <- Z.pow_add_r by lia. f_equal. lia.
  - apply Z.pow_pos_nonneg; lia.
Qed.

Lemma round_ratio_bound (n d : Z) :
  0 <= n -> 0 < d ->
  0 <= (Py.round_ratio n d).1 /\ -1074 <= (Py.round_ratio n d).2 /\
  (Py.round_ratio n d).1 * 2 ^ ((Py.round_ratio n d).2 + 1074) * d
  <= 2 * n * 2 ^ 1074.
Proof.
  intros Hn Hd. unfold Py.round_ratio.
  destruct (Z.eqb_spec n 0) as [->|Hne]; [simpl; lia|].
  set (e := Z.max (Py.ilog2_ratio n d - 52) (-1074)).
  assert (He : -1074 <= e) by lia.
  cbn [fst snd].
  assert (Ha : 0 < 2 ^ Z.max 0 e) by (apply Z.pow_pos_nonneg; lia).
  assert (Hb : 0 < 2 ^ Z.max 0 (- e)) by (apply Z.pow_pos_nonneg; lia).
  destruct (div_half_even_bound (n * 2 ^ Z.max 0 (- e)) (d * 2 ^ Z.max 0 e))
    as [Hm0 Hm]; [lia|lia|].
  set (m := Py.div_half_even (n * 2 ^ Z.max 0 (- e)) (d * 2 ^ Z.max 0 e)) in *.
  split; [done|]. split; [done|].
  destruct (pow2_split e He) as (-> & -> & Hc).
  set (c := 2 ^ (1074 - Z.max 0 (- e))) in *.
  replace (m * (2 ^ Z.max 0 e * c) * d) with (m * (d * 2 ^ Z.max 0 e) * c) by ring.
  replace (2 * n * (2 ^ Z.max 0 (- e) * c))
    with (2 * (n * 2 ^ Z.max 0 (- e)) * c) by ring.
  apply Z.mul_le_mono_nonneg_r; lia.
Qed.

(** The float of a ratio of magnitude at most [B] is finite, of magnitude
    at most [2 * B]. *)
Lemma float_of_ratio_bound (n d B : Z) :
  0 < d -> Z.abs n <= B * d -> 2 * B < 2 ^ 1024 ->
  exists m e, Py.float_of_ratio n d = Py.FFin m e /\
              mag_le (Py.FFin m e) (2 * B).
Proof.
  intros Hd Hn HB. unfold Py.float_of_ratio.
  destruct (round_ratio_bound (Z.abs n) d ltac:(lia) Hd) as (Hm0 & He & Hm).
  destruct (Py.round_ratio (Z.abs n) d) as [m e]. cbn [fst snd] in *.
  assert (Hp : 0 < 2 ^ (e + 1074)) by (apply Z.pow_pos_nonneg; lia).
  assert (H1074 : 0 < 2 ^ 1074) by (apply Z.pow_pos_nonneg; lia).
  assert (Hmag : m * 2 ^ (e + 1074) <= 2 * B * 2 ^ 1074).
  { apply (Z.mul_le_mono_pos_r _ _ d Hd).
    etransitivity; [exact Hm|].
    replace (2 * B * 2 ^ 1074 * d) with (2 * (B * d) * 2 ^ 1074) by ring.
    apply Z.mul_le_mono_nonneg_r; lia. }
  unfold Py.signed, Py.overflows.
  assert (Hov : (0 <=? e) && (2 ^ 1024 <=? m * 2 ^ e) = false).
  { destruct (Z.leb_spec 0 e) as [Hpos|]; [|done]. simpl.
    apply Z.leb_gt. rewrite Z.pow_add_r in Hmag by lia.
    assert (m * 2 ^ e <= 2 * B); [|lia].
    apply (Z.mul_le_mono_pos_r _ _ (2 ^ 1074) H1074). lia. }
  rewrite Hov. cbn [fst snd]. eexists _, _. split; [reflexivity|].
  split; [done|]. destruct (n <? 0); [rewrite Z.abs_opp|]; by rewrite Z.abs_eq.
Qed.

(** The same for a dyadic number, its magnitude being given at any scale
    [2^K] that makes the exponent non-negative. *)
Lemma float_of_dyadic_bound (m e K B : Z) :
  0 <= K -> 0 <= e + K -> Z.abs m * 2 ^ (e + K) <= B * 2 ^ K ->
  2 * B < 2 ^ 1024 ->
  exists m' e', Py.float_of_dyadic m e = Py.FFin m' e' /\
                mag_le (Py.FFin m' e') (2 * B).
Proof.
  intros HK He Hm HB. unfold Py.float_of_dyadic.
  apply float_of_ratio_bound; [apply Z.pow_pos_nonneg; lia| |done].
  assert (Hc : 0 < 2 ^ (K - Z.max 0 (- e))) by (apply Z.pow_pos_nonneg; lia).
  assert (Ha : 0 < 2 ^ Z.max 0 e) by (apply Z.pow_pos_nonneg; lia).
  apply (Z.mul_le_mono_pos_r _ _ _ Hc).
  rewrite Z.abs_mul, (Z.abs_eq (2 ^ Z.max 0 e)) by lia.
  rewrite <- !Z.mul_assoc, <- !Z.pow_add_r by lia.
  replace (Z.max 0 e + (K - Z.max 0 (- e))) with (e + K) by lia.
  by replace (Z.max 0 (- e) + (K - Z.max 0 (- e))) with K by lia.
Qed.

Lemma fmul_bound (x y : Py.float) (B1 B2 : Z) :
  mag_le x B1 -> mag_le y B2 -> 2 * (B1 * B2) < 2 ^ 1024 ->
  mag_le (Py.fmul x y) (2 * (B1 * B2)).
Proof.
  destruct x as [m1 e1| |], y as [m2 e2| |]; try done.
  intros [He1 H1] [He2 H2] HB. cbn [Py.fmul].
  destruct (float_of_dyadic_bound (m1 * m2) (e1 + e2) 2148 (B1 * B2))
    as (m & e & -> & Hmag); try lia; [|done].
  assert (Hp1 : 0 <= 2 ^ (e1 + 1074)) by (apply Z.pow_nonneg; lia).
  assert (Hp2 : 0 <= 2 ^ (e2 + 1074)) by (apply Z.pow_nonneg; lia).
  replace (e1 + e2 + 2148) with ((e1 + 1074) + (e2 + 1074)) by lia.
  rewrite Z.pow_add_r by lia.
  change (2 ^ 2148) with (2 ^ 1074 * 2 ^ 1074).
  rewrite Z.abs_mul.
  replace (Z.abs m1 * Z.abs m2 * (2 ^ (e1 + 1074) * 2 ^ (e2 + 1074)))
    with ((Z.abs m1 * 2 ^ (e1 + 1074)) * (Z.abs m2 * 2 ^ (e2 + 1074))) by ring.
  replace (B1 * B2 * (2 ^ 1074 * 2 ^ 1074))
    with ((B1 * 2 ^ 1074) * (B2 * 2 ^ 1074)) by ring.
  apply Z.mul_le_mono_nonneg; try done; apply Z.mul_nonneg_nonneg; lia.
Qed.

Lemma fadd_bound (x y : Py.float) (B1 B2 : Z) :
  mag_le x B1 -> mag_le y B2 -> 2 * (B1 + B2) < 2 ^ 1024 ->
  mag_le (Py.fadd x y) (2 * (B1 + B2)).
Proof.
  destruct x as [m1 e1| |], y as [m2 e2| |]; try done.
  intros [He1 H1] [He2 H2] HB. cbn [Py.fadd].
  set (e := Z.min e1 e2).
  destruct (float_of_dyadic_bound
              (m1 * 2 ^ (e1 - e) + m2 * 2 ^ (e2 - e)) e 1074 (B1 + B2))
    as (m & e' & -> & Hmag); try lia; [|done].
  assert (Hp : 0 <= 2 ^ (e + 1074)) by (apply Z.pow_nonneg; lia).
  assert (Hq1 : 0 <= 2 ^ (e1 - e)) by (apply Z.pow_nonneg; lia).
  assert (Hq2 : 0 <= 2 ^ (e2 - e)) by (apply Z.pow_nonneg; lia).
  etransitivity.
  { apply Z.mul_le_mono_nonneg_r; [done|]. apply Z.abs_triangle. }
  rewrite !Z.abs_mul, (Z.abs_eq (2 ^ (e1 - e))), (Z.abs_eq (2 ^ (e2 - e))) by done.
  rewrite Z.mul_add_distr_r, <- !Z.mul_assoc, <- !Z.pow_add_r by lia.
  replace (e1 - e + (e + 1074)) with (e1 + 1074) by lia.
  replace (e2 - e + (e + 1074)) with (e2 + 1074) by lia.
  lia.
Qed.

Lemma float_of_int_bound (n B : Z) :
  Z.abs n <= B -> 2 * B < 2 ^ 1024 ->
  exists x, Py.float_of_int n = Some x /\ mag_le x (2 * B).
Proof.
  intros Hn HB. unfold Py.float_of_int.
  destruct (float_of_ratio_bound n 1 B) as (m & e & -> & Hmag); try lia.
  by eexists.
Qed.

Lemma truediv_bound (i s : Z) :
  0 <= i < s -> exists x, Py.truediv i s = Some x /\ mag_le x 2.
Proof.
  intros His. unfold Py.truediv.
  destruct (Z.eqb_spec s 0); [lia|]. destruct (Z.ltb_spec s 0); [lia|].
  destruct (float_of_ratio_bound i (Z.abs s) 1) as (m & e & -> & Hmag);
    try lia.
  by eexists.
Qed.

Lemma round_finite (x : Py.float) (B : Z) :
  mag_le x B -> exists n, Py.round x = Some n.
Proof. destruct x; try done. intros _. by eexists. Qed.

Lemma mag_le_exponent (x : Py.float) (B : Z) :
  mag_le x B -> exists m e, x = Py.FFin m e /\ -1074 <= e.
Proof. destruct x as [m e| |]; try done. intros [He _]. by exists m, e. Qed.

(** ** Circle sampling *)

Section CircleSampling.

Variables cos sin : Py.float -> option Py.float.
Hypothesis cos_ok : trig_ok cos.
Hypothesis sin_ok : trig_ok sin.

(** One coordinate of a sample: [round(c + r * f(t))]. *)
Lemma sample_coordinate (f : Py.float -> option Py.float) (c r : Z)
    (t : Py.float) (B : Z) :
  trig_ok f -> mag_le t B ->
  Z.abs c <= 2 ^ 1000 -> Z.abs r <= 2 ^ 1000 ->
  exists n,
    (rf ← Py.float_of_int r; v ← f t; cf ← Py.float_of_int c;
     Py.round (Py.fadd cf (Py.fmul rf v))) = Some n.
Proof.
  intros Hf Ht Hc Hr.
  assert (Hbig : 2 * (2 * 2 ^ 1000 + 2 * (2 * 2 ^ 1000 * 1)) < 2 ^ 1024)
    by (by vm_compute).
  destruct (float_of_int_bound r (2 ^ 1000) Hr) as (rf & -> & Hrf); [lia|].
  destruct (mag_le_exponent t B Ht) as (m & e & -> & He).
  destruct (Hf m e He) as (v & -> & Hv).
  destruct (float_of_int_bound c (2 ^ 1000) Hc) as (cf & -> & Hcf); [lia|].
  simpl.
  pose proof (fmul_bound rf v _ _ Hrf Hv ltac:(lia)) as Hprod.
  pose proof (fadd_bound cf _ _ _ Hcf Hprod Hbig) as Hsum.
  by eapply round_finite.
Qed.

(** Within these bounds no sample raises. *)
Lemma circle_point_defined (cen : point) (r s i : Z) :
  Z.abs cen.1 <= 2 ^ 1000 -> Z.abs cen.2 <= 2 ^ 1000 -> Z.abs r <= 2 ^ 1000 ->
  0 <= i < s ->
  exists p, circle_point cos sin cen r s i = Some p.
Proof.
  intros Hx Hy Hr His. destruct cen as [cx cy]. unfold circle_point.
  change (Py.float_of_int 2) with (Some (Py.FFin 4503599627370496 (-51))).
  cbn [mbind option_bind].
  destruct (truediv_bound i s His) as (q & -> & Hq). cbn [mbind option_bind].
  assert (Htwopi : mag_le (Py.fmul (Py.FFin 4503599627370496 (-51)) Py.pi) 7).
  { vm_compute. split; [discriminate|discriminate]. }
  pose proof (fmul_bound _ q _ _ Htwopi Hq ltac:(by vm_compute)) as Ht.
  destruct (sample_coordinate cos cx r _ _ cos_ok Ht Hx Hr) as (x & Hxv).
  destruct (sample_coordinate sin cy r _ _ sin_ok Ht Hy Hr) as (y & Hyv).
  destruct (Py.float_of_int r) as [rf|]; [|done]. cbn [mbind option_bind] in *.
  destruct (cos _) as [c|]; [|done]. cbn [mbind option_bind] in *.
  destruct (Py.float_of_int cx) as [cxf|]; [|done]. cbn [mbind option_bind] in *.
  rewrite Hxv. cbn [mbind option_bind].
  destruct (sin _) as [sn|]; [|done]. cbn [mbind option_bind] in *.
  destruct (Py.float_of_int cy) as [cyf|]; [|done]. cbn [mbind option_bind] in *.
  rewrite Hyv. by eexists.
Qed.

End CircleSampling.

Lemma range_spec (s i : Z) : i ∈ range s -> 0 <= i < s.
Proof.
  unfold range. intros (k & -> & Hk)%list_elem_of_fmap.
  apply elem_of_seq in Hk. lia.
Qed.

Lemma range_length (s : Z) : 0 <= s -> Z.of_nat (length (range s)) = s.
Proof.
  intros Hs. unfold range. rewrite length_fmap, length_seq. lia.
Qed.

(** C7, as the code has it: [circle_to_points] returns the empty list when
    the radius or the step count is not positive; for a positive radius and
    step count it returns exactly [s] points when the centre and the radius
    are within [2^1000] in magnitude, where no conversion to a float and no
    rounding of one can raise ([math.cos] and [math.sin] being defined and
    bounded by 1 on finite doubles). *)
Theorem circle_to_points_length (cos sin : Py.float -> option Py.float)
    (cen : point) (r s : Z) :
  (r <= 0 \/ s <= 0 -> circle_to_points cos sin cen r s = Some []) /\
  (0 < r -> 0 < s ->
   trig_ok cos -> trig_ok sin ->
   Z.abs cen.1 <= 2 ^ 1000 -> Z.abs cen.2 <= 2 ^ 1000 -> r <= 2 ^ 1000 ->
   exists pts : list point,
     circle_to_points cos sin cen r s = Some pts /\
     Z.of_nat (length pts) = s).
Proof.
  unfold circle_to_points. split.
  - intros Hrs.
    destruct (Z.leb_spec r 0), (Z.leb_spec s 0); simpl; try done. lia.
  - intros Hr Hs Hcos Hsin Hx Hy Hrb.
    destruct (Z.leb_spec r 0), (Z.leb_spec s 0); try lia. simpl.
    assert (Hdef : is_Some (mapM (circle_point cos sin cen r s) (range s))).
    { apply mapM_is_Some, Forall_forall. intros i Hi.
      apply range_spec in Hi.
      destruct (circle_point_defined cos sin Hcos Hsin cen r s i)
        as [p Hp]; try done; [lia|].
      simpl. by rewrite Hp. }
    destruct Hdef as [pts Hpts]. exists pts. split; [done|].
    apply length_mapM in Hpts. rewrite <- Hpts. apply range_length. lia.
Qed.

Lemma trig_ok_cos0 : trig_ok cos0.
Proof. intros m e He. eexists. split; [reflexivity|]. by vm_compute. Qed.

Lemma trig_ok_sin0 : trig_ok sin0.
Proof. intros m e He. eexists. split; [reflexivity|]. by vm_compute. Qed.

Lemma circle_to_points_length_witness :
  circle_to_points cos0 sin0 (100, 100) 0 4 = Some [] /\
  exists pts : list point,
    circle_to_points cos0 sin0 (100, 100) 10 4 = Some pts /\
    Z.of_nat (length pts) = 4.
Proof.
  destruct (circle_to_points_length cos0 sin0 (100, 100) 0 4) as [H0 _].
  destruct (circle_to_points_length cos0 sin0 (100, 100) 10 4) as [_ H1].
  split.
  - apply H0. lia.
  - apply H1; try lia; try apply trig_ok_cos0; try apply trig_ok_sin0;
      simpl; lia.
Defined.

(** A radius too large for a double raises OverflowError at [r * cos t],
    whatever the cosine and the sine are. *)
Lemma circle_to_points_overflow (cos sin : Py.float -> option Py.float)
    (cen : point) :
  circle_to_points cos sin cen (2 ^ 1024) 4 = None.
Proof. by destruct cen. Qed.

(** C7 as stated fails for such a radius: radius and step count are
    positive, and no list of points is returned. *)
Lemma circle_to_points_length_counterexample :
  0 < 2 ^ 1024 /\ 0 < 4 /\
  circle_to_points cos0 sin0 (0, 0) (2 ^ 1024) 4 = None.
Proof. by vm_compute. Qed.

(** ** Further examples *)

(** The export scenario of the specification. *)
Example export_scenario :
  MainWindow.export_laser_format cos0 sin0 false 255 8 scenario_heap scenario_scene
  = Some "COLOR 1
0,0
10,0
10,10
STOP
"%string.
Proof. by vm_compute. Qed.

(** Equality by value lets undo pick the wrong object: after two equal
    circles, one undo removes the first object and one redo appends the
    second again, which the list then holds twice. *)
Example undo_redo_aliasing :
  SceneTab.elements twins_drawn.2 = [0%nat; 1%nat] /\
  SceneTab.elements (SceneTab.undo twins_drawn.1 twins_drawn.2) = [1%nat] /\
  SceneTab.elements
    (SceneTab.redo twins_drawn.1 (SceneTab.undo twins_drawn.1 twins_drawn.2))
  = [1%nat; 1%nat].
Proof. by vm_compute. Qed.

(** A table edit outside the grid stores the clamped point. *)
Example table_edit_clamps :
  MainWindow.table_edit
    (fun r c => if c =? 4 then Some "900"%string else Some "-3"%string)
    0 4 1 255 (mkSceneElement "polyline" [(1, 1); (2, 2)] (255, 0, 0) 0)
  = Some (mkSceneElement "polyline" [(1, 1); (255, 0)] (255, 0, 0) 0).
Proof. by vm_compute. Qed.

(* ================================================================== *)
(** * Further properties of the code *)

(** ** The list of recent files *)

Lemma remove_first_subseteq (path : string) (l : list string) :
  MainWindow.remove_first path l ⊆ l.
Proof.
  induction l as [|x l IH]; simpl; [done|].
  destruct (String.eqb x path).
  - intros y Hy. by apply list_elem_of_further.
  - intros y Hy. apply elem_of_cons in Hy as [->|Hy].
    + apply list_elem_of_here.
    + apply list_elem_of_further. by apply IH.
Qed.

Lemma remove_first_NoDup (path : string) (l : list string) :
  NoDup l ->
  NoDup (MainWindow.remove_first path l) /\
  path ∉ MainWindow.remove_first path l.
Proof.
  induction 1 as [|x l Hx Hl [IH1 IH2]]; simpl.
  - split; [constructor|]. apply not_elem_of_nil.
  - destruct (String.eqb_spec x path) as [->|Hne]; [done|].
    split.
    + apply NoDup_cons. split; [|done].
      intros Hin. apply Hx. by eapply remove_first_subseteq.
    + intros [Heq|Hin]%elem_of_cons; [by subst|done].
Qed.

Lemma remove_first_length (path : string) (l : list string) :
  (length (MainWindow.remove_first path l) <= length l)%nat.
Proof.
  induction l as [|x l IH]; simpl; [done|].
  destruct (String.eqb x path); simpl; lia.
Qed.

(** X1: after [_add_to_recent(path)] the list ends with the path and has
    at most 50 entries; every entry is the path or was in the list before;
    and a list without duplicates stays without duplicates. *)
Theorem add_to_recent_spec (path : string) (recent : list string) :
  last (MainWindow._add_to_recent path recent) = Some path /\
  (length (MainWindow._add_to_recent path recent) <= 50)%nat /\
  (forall q, q ∈ MainWindow._add_to_recent path recent ->
             q = path \/ q ∈ recent) /\
  (NoDup recent -> NoDup (MainWindow._add_to_recent path recent)).
Proof.
  unfold MainWindow._add_to_recent.
  set (l := MainWindow.remove_first path recent ++ [path]).
  assert (Hlen : length l = S (length (MainWindow.remove_first path recent))).
  { unfold l. rewrite length_app. simpl. lia. }
  split; [|split; [|split]].
  - rewrite last_lookup, lookup_drop, length_drop.
    replace (length l - 50 + pred (length l - (length l - 50)))%nat
      with (length (MainWindow.remove_first path recent)) by lia.
    unfold l. by apply list_lookup_middle.
  - rewrite length_drop. lia.
  - intros q Hq. apply subseteq_drop in Hq. unfold l in Hq.
    apply elem_of_app in Hq as [Hq|Hq].
    + right. by eapply remove_first_subseteq.
    + left. by apply list_elem_of_singleton in Hq.
  - intros Hnd. destruct (remove_first_NoDup path recent Hnd) as [H1 H2].
    eapply sublist_NoDup; [|apply sublist_drop].
    unfold l. apply NoDup_app. split; [done|]. split.
    + intros x Hx Hx'. apply list_elem_of_singleton in Hx'. by subst.
    + apply NoDup_singleton.
Qed.

Lemma add_to_recent_spec_witness :
  NoDup (MainWindow._add_to_recent "b.csv" ["a.csv"; "b.csv"; "c.txt"]%string).
Proof.
  apply (add_to_recent_spec "b.csv" ["a.csv"; "b.csv"; "c.txt"]%string).
  repeat (apply NoDup_cons; split;
          [rewrite ?elem_of_cons, ?elem_of_nil; intros H; intuition discriminate|]).
  apply NoDup_nil. done.
Defined.

(** Below the cap nothing is dropped: the other entries stay, in their
    order. *)
Lemma add_to_recent_keeps (path : string) (recent : list string) :
  (length recent < 50)%nat ->
  MainWindow._add_to_recent path recent
  = MainWindow.remove_first path recent ++ [path].
Proof.
  intros Hlen. unfold MainWindow._add_to_recent.
  pose proof (remove_first_length path recent).
  rewrite length_app. simpl.
  by replace (length (MainWindow.remove_first path recent) + 1 - 50)%nat
    with 0%nat by lia.
Qed.

Lemma add_to_recent_keeps_witness :
  MainWindow._add_to_recent "a.csv" ["a.csv"; "b.csv"]%string
  = ["b.csv"; "a.csv"]%string.
Proof.
  rewrite (add_to_recent_keeps "a.csv" ["a.csv"; "b.csv"]%string); [done|].
  simpl. lia.
Defined.

(** ** The history: how undo and redo compose *)

Lemma scene_eta (sc : SceneTab.t) :
  sc = SceneTab.set_elements (SceneTab.elements sc)
         (UndoManager.mk (UndoManager._undo (SceneTab.undo_manager sc))
                         (UndoManager._redo (SceneTab.undo_manager sc))) sc.
Proof. by destruct sc as [? ? ? ? ? ? ? []]. Qed.

(** X2: [redo] after [undo] brings both history stacks back when there was
    something to undo, and so does [undo] after [redo] when there was
    something to redo; either way the number of history entries is
    kept. *)
Theorem undo_redo_stacks (h : heap) (sc : SceneTab.t) :
  (UndoManager.can_undo (SceneTab.undo_manager sc) = true ->
   SceneTab.undo_manager (SceneTab.redo h (SceneTab.undo h sc))
   = SceneTab.undo_manager sc /\
   UndoManager.can_redo (SceneTab.undo_manager (SceneTab.undo h sc)) = true) /\
  (UndoManager.can_redo (SceneTab.undo_manager sc) = true ->
   SceneTab.undo_manager (SceneTab.undo h (SceneTab.redo h sc))
   = SceneTab.undo_manager sc /\
   UndoManager.can_undo (SceneTab.undo_manager (SceneTab.redo h sc)) = true).
Proof.
  rewrite (scene_eta sc).
  destruct sc as [gs cz col tl tmp cen els [U R]]. simpl. split.
  - intros HU. destruct U as [|u U _] using rev_ind; [done|].
    rewrite undo_step, redo_step. simpl. split; [done|]. by destruct R.
  - intros HR. destruct R as [|x R _] using rev_ind; [done|].
    rewrite redo_step, undo_step. simpl. split; [done|]. by destruct U.
Qed.

Lemma undo_redo_stacks_witness :
  SceneTab.undo_manager
    (SceneTab.redo twins_drawn.1 (SceneTab.undo twins_drawn.1 twins_drawn.2))
  = SceneTab.undo_manager twins_drawn.2.
Proof.
  apply (undo_redo_stacks twins_drawn.1 twins_drawn.2). reflexivity.
Defined.

Lemma py_remove_new (h : heap) (e : SceneElement) (l : list ref) :
  Forall (allocated h) l ->
  (forall x, x ∈ l -> h !! x <> Some e) ->
  py_in (h ++ [e]) (length h) (l ++ [length h]) = true /\
  py_remove (h ++ [e]) (length h) (l ++ [length h]) = l.
Proof.
  intros Hl Hne. split.
  - apply py_in_spec. exists (length h). split; [|by left].
    apply elem_of_app. right. apply list_elem_of_here.
  - induction Hl as [|x l Hx Hl IH]; simpl.
    + unfold py_eq. by rewrite bool_decide_eq_true_2 by done.
    + assert (Hpe : py_eq (h ++ [e]) x (length h) = false).
      { assert (H1 : (h ++ [e]) !! x = h !! x) by by apply lookup_app_l.
        assert (H2 : (h ++ [e]) !! (length h : ref) = Some e)
          by by apply list_lookup_middle.
        unfold py_eq, allocated in *. rewrite H1.
        rewrite (bool_decide_eq_false_2 (x = length h)) by lia.
        destruct (h !! x) as [d|] eqn:Hd; [|done]. rewrite H2.
        apply bool_decide_eq_false_2. intros ->.
        apply (Hne x); [apply list_elem_of_here|done]. }
      rewrite Hpe. f_equal. apply IH. intros y Hy. apply Hne.
      by apply list_elem_of_further.
Qed.

(** X3: [undo] right after a commit takes the new element out again and
    gives back the element list and the undo stack of before, leaving the
    entry to redo, provided that no element of the list equals the new
    one.  (An equal element standing earlier in the list would be the one
    taken out, see [undo_redo_aliasing].) *)
Theorem commit_then_undo (cen : point) (r : Z) (h : heap) (sc : SceneTab.t) :
  Forall (allocated h) (SceneTab.elements sc) ->
  (forall x, x ∈ SceneTab.elements sc ->
     h !! x <> Some (mkSceneElement "circle" [cen] (SceneTab.cc sc) r)) ->
  (forall x, x ∈ SceneTab.elements sc ->
     h !! x <> Some (mkSceneElement "polyline" (SceneTab._temp_points sc)
                                    (SceneTab.cc sc) 0)) ->
  let c := SceneTab.commit_circle_from_center cen r h sc in
  let p := SceneTab.commit_polyline h sc in
  (SceneTab.elements (SceneTab.undo c.1.1 c.1.2) = SceneTab.elements sc /\
   UndoManager._undo (SceneTab.undo_manager (SceneTab.undo c.1.1 c.1.2))
   = UndoManager._undo (SceneTab.undo_manager sc) /\
   UndoManager._redo (SceneTab.undo_manager (SceneTab.undo c.1.1 c.1.2))
   = [(UndoManager.add, c.2)]) /\
  (forall el, p.2 = Some el ->
   SceneTab.elements (SceneTab.undo p.1.1 p.1.2) = SceneTab.elements sc /\
   UndoManager._undo (SceneTab.undo_manager (SceneTab.undo p.1.1 p.1.2))
   = UndoManager._undo (SceneTab.undo_manager sc) /\
   UndoManager._redo (SceneTab.undo_manager (SceneTab.undo p.1.1 p.1.2))
   = [(UndoManager.add, el)]).
Proof.
  intros Hl Hc Hp. simpl. split.
  - destruct (py_remove_new h _ _ Hl Hc) as [Hin Hrm].
    unfold SceneTab.undo, UndoManager.undo. simpl.
    rewrite pop_snoc. simpl.
    set (b := py_in _ _ _). assert (b = true) as -> by exact Hin.
    set (q := py_remove _ _ _).
    by assert (q = SceneTab.elements sc) as -> by exact Hrm.
  - unfold SceneTab.commit_polyline.
    destruct (2 <=? _); [|done]. simpl. intros el [= <-].
    destruct (py_remove_new h _ _ Hl Hp) as [Hin Hrm].
    unfold SceneTab.undo, UndoManager.undo. simpl.
    rewrite pop_snoc. simpl.
    set (b := py_in _ _ _). assert (b = true) as -> by exact Hin.
    set (q := py_remove _ _ _).
    by assert (q = SceneTab.elements sc) as -> by exact Hrm.
Qed.

Lemma commit_then_undo_witness :
  SceneTab.elements
    (SceneTab.undo
       (SceneTab.commit_circle_from_center (1, 1) 2 twins_drawn.1 twins_drawn.2).1.1
       (SceneTab.commit_circle_from_center (1, 1) 2 twins_drawn.1 twins_drawn.2).1.2)
  = SceneTab.elements twins_drawn.2.
Proof.
  apply (commit_then_undo (1, 1) 2 twins_drawn.1 twins_drawn.2).
  - repeat (apply Forall_cons; split; [unfold allocated; simpl; lia|]).
    apply Forall_nil. done.
  - intros x Hx. vm_compute in Hx.
    apply elem_of_cons in Hx as [->|Hx]; [discriminate|].
    apply list_elem_of_singleton in Hx as ->. discriminate.
  - intros x Hx. vm_compute in Hx.
    apply elem_of_cons in Hx as [->|Hx]; [discriminate|].
    apply list_elem_of_singleton in Hx as ->. discriminate.
Defined.

(** X4: the history does not survive [clear_all]: afterwards any number of
    undos and redos leaves the scene as it is, empty. *)
Theorem clear_all_forgets (h : heap) (sc : SceneTab.t) (n : nat) :
  SceneTab.elements (SceneTab.clear_all sc) = [] /\
  Nat.iter n (SceneTab.undo h) (SceneTab.clear_all sc) = SceneTab.clear_all sc /\
  Nat.iter n (SceneTab.redo h) (SceneTab.clear_all sc) = SceneTab.clear_all sc.
Proof.
  split; [done|]. split; induction n as [|n IH]; simpl; try done;
    by rewrite IH.
Qed.

(** ** The laser import on any text *)

Lemma code_to_color_primary (c : Z) : primary (code_to_color c).
Proof.
  unfold code_to_color, primary.
  destruct (c =? 1); [by left|]. destruct (c =? 2); [by right; left|by right; right].
Qed.

Lemma filled_add (h new : heap) (e : SceneElement) (sc : SceneTab.t) :
  filled h (length new) sc ->
  filled h (length (new ++ [e]))
         (MainWindow.add_element e (h ++ new, sc)).2.
Proof.
  intros (H1 & H2 & H3). unfold filled, additions in *. simpl.
  rewrite H1, H2, !length_app. simpl.
  rewrite !seq_app, fmap_app. simpl. by rewrite Nat.add_comm.
Qed.

(** What holds of the document while the import runs. *)
Lemma laser_line_shape (h : heap) (s : MainWindow.laser_state) (ln : string) :
  (forall c, MainWindow.cc s = Some c -> primary c) ->
  (exists new, (MainWindow.doc s).1 = h ++ new /\
               Forall imported_polyline new /\
               filled h (length new) (MainWindow.doc s).2) ->
  (forall c, MainWindow.cc (MainWindow.laser_line s ln) = Some c -> primary c) /\
  (exists new, (MainWindow.doc (MainWindow.laser_line s ln)).1 = h ++ new /\
               Forall imported_polyline new /\
               filled h (length new) (MainWindow.doc (MainWindow.laser_line s ln)).2).
Proof.
  intros Hcc Hdoc.
  assert (Hflush : exists new,
            (MainWindow.flush (MainWindow.cc s) (MainWindow.cp s) (MainWindow.doc s)).1
            = h ++ new /\ Forall imported_polyline new /\
            filled h (length new)
              (MainWindow.flush (MainWindow.cc s) (MainWindow.cp s) (MainWindow.doc s)).2).
  { destruct s as [c pts [hh sc]]. simpl in *.
    destruct Hdoc as (new & -> & Hnew & Hf).
    unfold MainWindow.flush. destruct pts as [|p pts]; [by exists new|].
    destruct c as [c|]; [|by exists new].
    exists (new ++ [mkSceneElement "polyline" (p :: pts) c 0]).
    split; [by rewrite app_assoc|]. split.
    - apply Forall_app. split; [done|]. apply Forall_cons. split; [|done].
      repeat split; try done. by apply Hcc.
    - by apply filled_add. }
  unfold MainWindow.laser_line.
  destruct (String.eqb ln ""); [done|].
  destruct (Py.startswith _ _).
  { simpl. split; [|done]. intros c [= <-]. apply code_to_color_primary. }
  destruct (String.eqb _ _); [done|].
  by destruct (MainWindow.parse_point ln).
Qed.

(** The same over the whole loop and the final flush. *)
Lemma laser_loop_shape (h : heap) (ls : list string) (s : MainWindow.laser_state) :
  (forall c, MainWindow.cc s = Some c -> primary c) ->
  (exists new, (MainWindow.doc s).1 = h ++ new /\
               Forall imported_polyline new /\
               filled h (length new) (MainWindow.doc s).2) ->
  exists new,
    (MainWindow.laser_finish (foldl MainWindow.laser_line s ls)).1 = h ++ new /\
    Forall imported_polyline new /\
    filled h (length new)
      (MainWindow.laser_finish (foldl MainWindow.laser_line s ls)).2.
Proof.
  revert s. induction ls as [|l ls IH]; intros s Hc Hd.
  - simpl. unfold MainWindow.laser_finish.
    destruct (laser_line_shape h s "STOP" Hc Hd) as [_ Hstop].
    exact Hstop.
  - simpl. destruct (laser_line_shape h s l Hc Hd) as [Hc' Hd'].
    by apply IH.
Qed.

Lemma laser_start_shape (grid_size cell_size : Z) (h : heap) :
  exists new : list SceneElement,
    (h, SceneTab.init grid_size cell_size).1 = h ++ new /\
    Forall imported_polyline new /\
    filled h (length new) (h, SceneTab.init grid_size cell_size).2.
Proof.
  exists []. simpl. rewrite app_nil_r.
  split; [done|]. split; [constructor|]. done.
Qed.

(** X5: whatever the text, the laser import keeps the objects of the
    store and adds only polylines with at least one point, radius 0 and one
    of the three primary colours; the new scene lists exactly the added
    objects, in order, and its history records one addition for each. *)
Theorem import_laser_shape (grid_size cell_size : Z) (text : string)
    (h : heap) :
  exists new : list SceneElement,
    (MainWindow.import_laser_format grid_size cell_size text h).1 = h ++ new /\
    Forall imported_polyline new /\
    filled h (length new)
      (MainWindow.import_laser_format grid_size cell_size text h).2.
Proof.
  unfold MainWindow.import_laser_format, MainWindow.import_lines,
    MainWindow.laser_loop.
  apply laser_loop_shape; [done|]. apply laser_start_shape.
Qed.

(** *** Undoing an import *)

Lemma additions_forward (h : heap) (l l0 : list ref) :
  foldl (forward h) l0 (additions l) = l0 ++ l /\ log_ok h (additions l) l0.
Proof.
  revert l0. induction l as [|x l IH]; intros l0; simpl.
  - by rewrite app_nil_r.
  - destruct (IH (l0 ++ [x])) as [H1 H2]. unfold additions in *.
    rewrite H1, <- app_assoc. done.
Qed.

Lemma undo_all_additions (h : heap) (n : nat) (h' : heap) (sc : SceneTab.t) :
  filled h n sc ->
  SceneTab.elements (Nat.iter n (SceneTab.undo h') sc) = [] /\
  UndoManager._undo (SceneTab.undo_manager (Nat.iter n (SceneTab.undo h') sc)) = [].
Proof.
  intros (H1 & H2 & H3).
  destruct sc as [gs cz col tl tmp cen els [U R]]. simpl in *. subst els U R.
  set (l := seq (length h) n).
  assert (Hn : n = length (additions l)).
  { unfold additions, l. by rewrite length_fmap, length_seq. }
  rewrite Hn.
  change (SceneTab.mk gs cz col tl tmp cen l (UndoManager.mk (additions l) []))
    with (SceneTab.set_elements l (UndoManager.mk ([] ++ additions l) [])
            (SceneTab.mk gs cz col tl tmp cen l
                         (UndoManager.mk (additions l) []))).
  rewrite undo_iter. simpl. split; [|done].
  destruct (additions_forward h' l []) as [Hf Hok].
  apply (fmap_nil_inv (key h')). apply Permutation_nil_r.
  apply (undo_log_keys h' (additions l) [] l Hok). by rewrite Hf.
Qed.

(** X6: after a laser import, as many undos as there are imported
    elements empty the new scene and its undo stack. *)
Theorem import_laser_undo_all (grid_size cell_size : Z) (text : string)
    (h : heap) :
  let d := MainWindow.import_laser_format grid_size cell_size text h in
  let n := length (SceneTab.elements d.2) in
  SceneTab.elements (Nat.iter n (SceneTab.undo d.1) d.2) = [] /\
  UndoManager.can_undo
    (SceneTab.undo_manager (Nat.iter n (SceneTab.undo d.1) d.2)) = false.
Proof.
  simpl.
  assert (Hshape : exists new : list SceneElement,
    (MainWindow.import_laser_format grid_size cell_size text h).1 = h ++ new /\
    Forall imported_polyline new /\
    filled h (length new)
      (MainWindow.import_laser_format grid_size cell_size text h).2).
  { unfold MainWindow.import_laser_format, MainWindow.import_lines,
      MainWindow.laser_loop.
    apply laser_loop_shape; [done|]. apply laser_start_shape. }
  destruct Hshape as (new & Hh & Hnew & Hf).
  assert (Hn : length (SceneTab.elements
             (MainWindow.import_laser_format grid_size cell_size text h).2)
           = length new).
  { destruct Hf as (-> & _). by rewrite length_seq. }
  rewrite Hn.
  destruct (undo_all_additions h (length new)
              (MainWindow.import_laser_format grid_size cell_size text h).1
              _ Hf) as [H1 H2].
  split; [done|]. unfold UndoManager.can_undo. by rewrite H2.
Qed.

(** X7: blank lines do not count: the import of the lines is the import
    of those that are not blank. *)
Theorem import_ignores_blank_lines (grid_size cell_size : Z)
    (lines : list string) (h : heap) :
  MainWindow.import_lines grid_size cell_size lines h
  = MainWindow.import_lines grid_size cell_size
      (filter (fun l => Py.strip l <> EmptyString) lines) h.
Proof.
  unfold MainWindow.import_lines, MainWindow.laser_loop. f_equal.
  generalize (MainWindow.mk_laser None [] (h, SceneTab.init grid_size cell_size)).
  induction lines as [|l lines IH]; intros s; [done|].
  rewrite filter_cons. simpl. case_decide as Hl.
  - simpl. apply IH.
  - destruct (decide (Py.strip l = EmptyString)) as [E|E]; [|done].
    rewrite E. simpl. apply IH.
Qed.

(** ** The table of elements *)

Lemma element_rows_shows (i : Z) (e : SceneElement) (r : MainWindow.table_row) :
  r ∈ MainWindow.element_rows i e ->
  MainWindow.row_el r = i /\
  MainWindow.row_kind r = kind e /\ MainWindow.row_color r = color e /\
  1 <= MainWindow.row_sub r /\
  ((kind e = "polyline"%string /\
    points e !! Z.to_nat (MainWindow.row_sub r - 1)
    = Some (MainWindow.row_x r, MainWindow.row_y r) /\
    MainWindow.row_radius r = None) \/
   (kind e = "circle"%string /\ MainWindow.row_sub r = 1 /\
    default (0, 0) (points e !! 0%nat)
    = (MainWindow.row_x r, MainWindow.row_y r) /\
    MainWindow.row_radius r = Some (radius e))).
Proof.
  unfold MainWindow.element_rows.
  destruct (String.eqb_spec (kind e) "polyline") as [Hk|Hk].
  - intros Hr. apply list_elem_of_lookup in Hr as [j Hj].
    apply list_lookup_imap_Some in Hj as ([x y] & Hp & ->). simpl.
    repeat split; try done; [lia|]. left.
    replace (Z.to_nat (Z.of_nat j + 1 - 1)) with j by lia. by rewrite Hk.
  - destruct (String.eqb_spec (kind e) "circle") as [Hc|Hc].
    + intros Hr. apply list_elem_of_singleton in Hr as ->. simpl.
      repeat split; try done. right. repeat split; try done.
      by destruct (default (0, 0) (points e !! 0%nat)).
    + intros Hr. by apply elem_of_nil in Hr.
Qed.

Lemma table_rows_from_shows (h : heap) (els pre : list ref)
    (r : MainWindow.table_row) :
  r ∈ MainWindow.table_rows_from h (Z.of_nat (length pre) + 1) els ->
  exists (el : ref) (e : SceneElement),
    1 <= MainWindow.row_el r /\
    (pre ++ els) !! Z.to_nat (MainWindow.row_el r - 1) = Some el /\
    h !! el = Some e /\ r ∈ MainWindow.element_rows (MainWindow.row_el r) e.
Proof.
  revert pre. induction els as [|el els IH]; intros pre; simpl.
  - intros Hr. by apply elem_of_nil in Hr.
  - intros [Hr|Hr]%elem_of_app.
    + destruct (h !! el) as [e|] eqn:He; [|by apply elem_of_nil in Hr].
      pose proof (element_rows_shows _ _ _ Hr) as (Hi & _).
      exists el, e. rewrite Hi. split; [lia|]. split; [|done].
      replace (Z.to_nat (Z.of_nat (length pre) + 1 - 1)) with (length pre) by lia.
      by apply list_lookup_middle.
    + specialize (IH (pre ++ [el])). rewrite length_app in IH. simpl in IH.
      replace (Z.of_nat (length pre + 1) + 1)
        with (Z.of_nat (length pre) + 1 + 1) in IH by lia.
      destruct (IH Hr) as (el' & e' & H1 & H2 & H3 & H4).
      exists el', e'. by rewrite <- app_assoc in H2.
Qed.

(** X8: every row of the table built by [update_elements_table] shows a
    point of an element of the scene: its element number and point number
    are in range, the kind and the colour are the element's, and the
    coordinates are those of that point of a polyline, or of the centre of a
    circle together with its radius. *)
Theorem table_rows_show (h : heap) (sc : SceneTab.t)
    (r : MainWindow.table_row) :
  r ∈ MainWindow.table_rows h sc -> row_shows h sc r.
Proof.
  intros Hr. unfold MainWindow.table_rows in Hr.
  destruct (table_rows_from_shows h (SceneTab.elements sc) [] r Hr)
    as (el & e & H1 & H2 & H3 & H4).
  pose proof (element_rows_shows _ _ _ H4) as (_ & Hk & Hc & Hs & Hcase).
  by exists el, e.
Qed.

Lemma table_rows_show_witness :
  row_shows grid_heap grid_scene
    (MainWindow.mk_row 2 1 "polyline" (200, 250, 10) 255 7 None).
Proof.
  apply (table_rows_show grid_heap grid_scene).
  vm_compute. do 3 apply list_elem_of_further. apply list_elem_of_here.
Defined.

(** The number of rows: one per point of a polyline, one per circle. *)
Lemma element_rows_length (i : Z) (e : SceneElement) :
  length (MainWindow.element_rows i e)
  = if String.eqb (kind e) "polyline" then length (points e)
    else if String.eqb (kind e) "circle" then 1%nat else 0%nat.
Proof.
  unfold MainWindow.element_rows.
  destruct (String.eqb (kind e) "polyline"); [by rewrite length_imap|].
  by destruct (String.eqb (kind e) "circle").
Qed.

Lemma table_target_of_row (h : heap) (sc : SceneTab.t) (k : nat)
    (r : MainWindow.table_row) (el : ref) :
  MainWindow.table_rows h sc !! k = Some r ->
  1 <= MainWindow.row_el r ->
  SceneTab.elements sc !! Z.to_nat (MainWindow.row_el r - 1) = Some el ->
  MainWindow.table_target (MainWindow.row_map (MainWindow.table_rows h sc))
    (Z.of_nat k) sc
  = Some (el, MainWindow.row_sub r - 1).
Proof.
  intros Hk H1 Hel. unfold MainWindow.table_target, MainWindow.row_map.
  pose proof (lookup_lt_Some _ _ _ Hk) as Hlt.
  pose proof (lookup_lt_Some _ _ _ Hel) as Hlt'.
  rewrite length_fmap.
  destruct (Z.ltb_spec (Z.of_nat k) 0); [lia|].
  destruct (Z.leb_spec (Z.of_nat (length (MainWindow.table_rows h sc)))
              (Z.of_nat k)); [lia|].
  simpl. rewrite Nat2Z.id, list_lookup_fmap, Hk. simpl.
  destruct (Z.ltb_spec (MainWindow.row_el r - 1) 0); [lia|].
  destruct (Z.leb_spec (Z.of_nat (length (SceneTab.elements sc)))
              (MainWindow.row_el r - 1)); [lia|].
  simpl. by rewrite Hel.
Qed.



(** X10: choosing one of the three colours in the combo box of a row of
    the table recolours the element that the row shows, and nothing else of
    the store; in the table built afterwards every row of that element
    shows the chosen colour. *)
Theorem color_change_of_row (h : heap) (sc : SceneTab.t) (k : nat)
    (r : MainWindow.table_row) (idx : Z) :
  MainWindow.table_rows h sc !! k = Some r ->
  0 <= idx <= 2 ->
  exists (el : ref) (e : SceneElement),
    SceneTab.elements sc !! Z.to_nat (MainWindow.row_el r - 1) = Some el /\
    h !! el = Some e /\
    MainWindow._on_color_changed_in_table
      (MainWindow.row_map (MainWindow.table_rows h sc)) (Z.of_nat k) idx h sc
    = <[el := MainWindow.set_color (code_to_color (idx + 1)) e]> h /\
    forall r', r' ∈ MainWindow.table_rows
                      (MainWindow._on_color_changed_in_table
                         (MainWindow.row_map (MainWindow.table_rows h sc))
                         (Z.of_nat k) idx h sc) sc ->
               MainWindow.row_el r' = MainWindow.row_el r ->
               MainWindow.combo_index r' = idx.
Proof.
  intros Hk Hidx.
  assert (Hr : r ∈ MainWindow.table_rows h sc) by by eapply list_elem_of_lookup_2.
  unfold MainWindow.table_rows in Hr.
  destruct (table_rows_from_shows h (SceneTab.elements sc) [] r Hr)
    as (el & e & H1 & Hel & He & Hrow).
  simpl in Hel. exists el, e. split; [done|]. split; [done|].
  assert (Hres : MainWindow._on_color_changed_in_table
            (MainWindow.row_map (MainWindow.table_rows h sc)) (Z.of_nat k) idx h sc
          = <[el := MainWindow.set_color (code_to_color (idx + 1)) e]> h).
  { unfold MainWindow._on_color_changed_in_table.
    by rewrite (table_target_of_row h sc k r el Hk H1 Hel), He. }
  split; [done|]. rewrite Hres. intros r' Hr' Hsame.
  unfold MainWindow.table_rows in Hr'.
  destruct (table_rows_from_shows _ (SceneTab.elements sc) [] r' Hr')
    as (el' & e' & H1' & Hel' & He' & Hrow').
  simpl in Hel'. rewrite Hsame, Hel in Hel'. injection Hel' as <-.
  rewrite list_lookup_insert_eq in He' by by eapply lookup_lt_Some.
  injection He' as <-.
  pose proof (element_rows_shows _ _ _ Hrow') as (_ & _ & Hcol & _).
  unfold MainWindow.combo_index. rewrite Hcol. simpl.
  assert (idx = 0 \/ idx = 1 \/ idx = 2) as [->|[->| ->]] by lia; done.
Qed.

Lemma color_change_of_row_witness :
  exists (el : ref) (e : SceneElement),
    grid_heap !! el = Some e /\
    MainWindow._on_color_changed_in_table
      (MainWindow.row_map (MainWindow.table_rows grid_heap grid_scene)) 4 2
      grid_heap grid_scene
    = <[el := MainWindow.set_color (0, 0, 255) e]> grid_heap.
Proof.
  destruct (color_change_of_row grid_heap grid_scene 4
              (MainWindow.mk_row 2 2 "polyline" (200, 250, 10) 3 4 None) 2)
    as (el & e & _ & He & Hres & _).
  - reflexivity.
  - lia.
  - exists el, e. split; [exact He|exact Hres].
Defined.

(** ** Drawing with the mouse *)

Lemma clamp_on_grid (sc : SceneTab.t) (p : point) :
  0 <= SceneTab.grid_size sc -> on_grid sc (SceneTab.clamp_to_grid sc p).
Proof. intros Hg. unfold on_grid, SceneTab.clamp_to_grid. simpl. lia. Qed.

Lemma clicks_snoc (ps : list (point * Z)) (c : point * Z)
    (st : heap * SceneTab.t) :
  clicks (ps ++ [c]) st
  = MainWindow.mouse_press_left c.1 c.2 (clicks ps st).1 (clicks ps st).2.
Proof. unfold clicks. by rewrite foldl_app. Qed.

Lemma clicks_polyline (ps : list (point * Z)) (h : heap) (sc : SceneTab.t) :
  SceneTab.tool sc = "polyline"%string ->
  clicks ps (h, sc)
  = (h, SceneTab.set_temp_points
          (SceneTab._temp_points sc ++ (SceneTab.clamp_to_grid sc <$> ps.*1)) sc).
Proof.
  intros Ht. induction ps as [|c ps IH] using rev_ind.
  - simpl. rewrite app_nil_r. by destruct sc.
  - rewrite clicks_snoc, IH. unfold MainWindow.mouse_press_left. simpl.
    rewrite Ht. simpl. rewrite !fmap_app, app_assoc. done.
Qed.

(** X11: with the polyline tool, left clicks followed by a double click
    that finds at least two buffered points add one polyline to the scene:
    its points are those buffered before followed by the clicked points
    clamped to the grid, in the order of the clicks, its colour is the
    drawing colour; the buffer is left empty, and the clamped points are on
    the grid. *)
Theorem polyline_by_mouse (ps : list (point * Z)) (h : heap) (sc : SceneTab.t) :
  SceneTab.tool sc = "polyline"%string ->
  0 <= SceneTab.grid_size sc ->
  (2 <= length (SceneTab._temp_points sc) + length ps)%nat ->
  let st := clicks ps (h, sc) in
  let pts := SceneTab._temp_points sc ++ (SceneTab.clamp_to_grid sc <$> ps.*1) in
  SceneTab.commit_polyline st.1 st.2
  = (h ++ [mkSceneElement "polyline" pts (SceneTab.cc sc) 0],
     SceneTab.set_temp_points [] (SceneTab.append_element (length h) sc),
     Some (length h)) /\
  Forall (on_grid sc) (SceneTab.clamp_to_grid sc <$> ps.*1).
Proof.
  intros Ht Hg Hn. simpl. split.
  - rewrite (clicks_polyline ps h sc Ht). unfold SceneTab.commit_polyline. simpl.
    rewrite length_app, !length_fmap.
    destruct (Z.leb_spec 2
                (Z.of_nat (length (SceneTab._temp_points sc) + length ps)));
      [done|lia].
  - apply Forall_fmap, Forall_forall. intros p _. by apply clamp_on_grid.
Qed.

Lemma polyline_by_mouse_witness :
  SceneTab.commit_polyline
    (clicks [((3, 4), 0); ((300, -9), 0)] ([], SceneTab.init 255 1)).1
    (clicks [((3, 4), 0); ((300, -9), 0)] ([], SceneTab.init 255 1)).2
  = ([mkSceneElement "polyline" [(3, 4); (255, 0)] (255, 0, 0) 0],
     SceneTab.set_temp_points []
       (SceneTab.append_element 0%nat (SceneTab.init 255 1)),
     Some 0%nat).
Proof.
  apply (polyline_by_mouse [((3, 4), 0); ((300, -9), 0)] [] (SceneTab.init 255 1)).
  - reflexivity.
  - simpl. lia.
  - simpl. lia.
Defined.

Lemma clicks_circle (ps : list (point * Z)) (h : heap) (sc : SceneTab.t) :
  SceneTab.tool sc = "circle"%string ->
  SceneTab._circle_center sc = None ->
  0 <= SceneTab.grid_size sc ->
  exists (new : heap) (sc' : SceneTab.t),
    clicks ps (h, sc) = (h ++ new, sc') /\
    Forall (drawn_circle sc) new /\
    SceneTab.tool sc' = "circle"%string /\
    SceneTab.cc sc' = SceneTab.cc sc /\
    SceneTab.grid_size sc' = SceneTab.grid_size sc /\
    SceneTab.elements sc'
    = SceneTab.elements sc ++ seq (length h) (length new) /\
    ((SceneTab._circle_center sc' = None /\
      length ps = (2 * length new)%nat) \/
     (exists c, SceneTab._circle_center sc' = Some c /\ on_grid sc c /\
                length ps = (2 * length new + 1)%nat)).
Proof.
  intros Ht Hc Hg. induction ps as [|c ps IH] using rev_ind.
  - exists [], sc. simpl. rewrite !app_nil_r. repeat split; try done.
    by left.
  - destruct IH as (new & sc' & Hst & Hnew & Ht' & Hcc & Hgs & Hels & Hpend).
    rewrite clicks_snoc, Hst. unfold MainWindow.mouse_press_left. simpl.
    rewrite Ht'. simpl.
    assert (Hsnoc : length (ps ++ [c]) = S (length ps))
      by (rewrite length_app; simpl; lia).
    rewrite Hsnoc.
    destruct Hpend as [[Hnone Hlen]|(c0 & Hsome & Hon & Hlen)].
    + rewrite Hnone. exists new, (SceneTab.set_circle_center
                                   (Some (SceneTab.clamp_to_grid sc' c.1)) sc').
      repeat split; try done. right. eexists. split; [done|]. split; [|lia].
      unfold SceneTab.clamp_to_grid. rewrite Hgs. by apply clamp_on_grid.
    + rewrite Hsome. simpl.
      exists (new ++ [mkSceneElement "circle" [c0] (SceneTab.cc sc') c.2]),
             (SceneTab.set_circle_center None
                (SceneTab.append_element (length (h ++ new)) sc')).
      split; [by rewrite app_assoc|]. split.
      { apply Forall_app. split; [done|]. apply Forall_cons. split; [|done].
        split; [done|]. split; [done|]. by exists c0. }
      repeat split; try done.
      * simpl. rewrite Hels, !length_app. simpl.
        rewrite Nat.add_1_r, seq_S, app_assoc. done.
      * left. split; [done|]. rewrite length_app. simpl. lia.
Qed.

(** X12: with the circle tool and no centre pending, every second left
    click adds a circle: after any number of clicks the store has gained
    one circle for every two clicks, each with one centre on the grid and
    the drawing colour; the scene lists them after its elements, in order;
    and a centre is pending exactly when the number of clicks is odd. *)
Theorem circles_by_mouse (ps : list (point * Z)) (h : heap) (sc : SceneTab.t) :
  SceneTab.tool sc = "circle"%string ->
  SceneTab._circle_center sc = None ->
  0 <= SceneTab.grid_size sc ->
  exists new : heap,
    (clicks ps (h, sc)).1 = h ++ new /\
    length new = (length ps / 2)%nat /\
    Forall (drawn_circle sc) new /\
    SceneTab.elements (clicks ps (h, sc)).2
    = SceneTab.elements sc ++ seq (length h) (length new) /\
    (is_Some (SceneTab._circle_center (clicks ps (h, sc)).2) <->
     (length ps mod 2 = 1)%nat).
Proof.
  intros Ht Hc Hg.
  destruct (clicks_circle ps h sc Ht Hc Hg)
    as (new & sc' & -> & Hnew & _ & _ & _ & Hels & Hpend).
  exists new. cbn [fst snd]. split; [done|].
  destruct Hpend as [[Hnone Hlen]|(c0 & Hsome & _ & Hlen)].
  - split; [|split; [done|split; [done|]]].
    + apply (Nat.div_unique _ 2 _ 0); lia.
    + rewrite Hnone. split; [by intros [? ?]|].
      intros Hodd.
      pose proof (Nat.mod_unique (length ps) 2 (length new) 0
                    ltac:(lia) ltac:(lia)) as Hm.
      rewrite Hodd in Hm. discriminate Hm.
  - split; [|split; [done|split; [done|]]].
    + apply (Nat.div_unique _ 2 _ 1); lia.
    + rewrite Hsome. split; [intros _|by eexists].
      symmetry. apply (Nat.mod_unique (length ps) 2 (length new) 1); lia.
Qed.

Lemma circles_by_mouse_witness :
  exists new : heap,
    (clicks [((100, 100), 0); ((110, 100), 10); ((7, 300), 0)]
            ([], SceneTab.set_tool "circle" (SceneTab.init 255 1))).1
    = [] ++ new /\
    length new = 1%nat.
Proof.
  destruct (circles_by_mouse
              [((100, 100), 0); ((110, 100), 10); ((7, 300), 0)] []
              (SceneTab.set_tool "circle" (SceneTab.init 255 1)))
    as (new & H1 & H2 & _).
  - reflexivity.
  - reflexivity.
  - simpl. lia.
  - exists new. split; [exact H1|exact H2].
Defined.

(** ** The normalising export *)

Lemma div_half_even_le (n d K : Z) :
  0 <= n -> 0 < d -> n <= K * d -> Py.div_half_even n d <= K.
Proof.
  intros Hn Hd HK. unfold Py.div_half_even.
  pose proof (Z.div_mod n d ltac:(lia)) as Hdm.
  pose proof (Z.mod_pos_bound n d Hd) as Hr.
  assert (Hq : n / d <= K) by (apply Z.div_le_upper_bound; lia).
  destruct (Z.ltb_spec (2 * (n mod d)) d); [done|].
  assert (n / d < K) by nia.
  destruct (d <? 2 * (n mod d)); [lia|]. destruct (Z.even (n / d)); lia.
Qed.

Lemma ilog2_ratio_lt (n d j : Z) :
  0 < n -> 0 < d -> 0 <= j -> n < 2 ^ j * d -> Py.ilog2_ratio n d < j.
Proof.
  intros Hn Hd Hj Hlt. unfold Py.ilog2_ratio.
  assert (Hk : Z.log2 n - Z.log2 d <= j).
  { assert (Z.log2 n <= Z.log2 (d * 2 ^ j)) by (apply Z.log2_le_mono; lia).
    rewrite Z.log2_mul_pow2 in H by lia. lia. }
  set (k := Z.log2 n - Z.log2 d) in *.
  destruct (Z.leb_spec (d * 2 ^ Z.max 0 k) (n * 2 ^ Z.max 0 (- k))) as [Hb|Hb];
    [|lia].
  destruct (Z.eq_dec k j) as [->|]; [|lia].
  replace (Z.max 0 j) with j in Hb by lia.
  replace (Z.max 0 (- j)) with 0 in Hb by lia.
  change (2 ^ 0) with 1 in Hb. lia.
Qed.

(** Rounding is monotone at an integer: the double nearest to a ratio that
    is at most [K] is at most [K]. *)
Lemma float_of_ratio_le (n d K : Z) :
  0 <= n -> 0 < d -> n <= K * d -> K < 2 ^ 52 ->
  exists m e, Py.float_of_ratio n d = Py.FFin m e /\
              0 <= m <= K * 2 ^ (- e) /\ -1074 <= e <= 0.
Proof.
  intros Hn Hd HK HK52. unfold Py.float_of_ratio.
  destruct (Z.ltb_spec n 0); [lia|]. rewrite Z.abs_eq by done.
  unfold Py.round_ratio. destruct (Z.eqb_spec n 0) as [->|Hne].
  { exists 0, 0. split; [done|]. simpl. lia. }
  assert (Hil : Py.ilog2_ratio n d < 52).
  { apply ilog2_ratio_lt; try lia.
    apply Z.le_lt_trans with (K * d); [done|].
    apply Z.mul_lt_mono_pos_r; lia. }
  set (e := Z.max (Py.ilog2_ratio n d - 52) (-1074)).
  assert (He : -1074 <= e < 0) by lia.
  replace (Z.max 0 (- e)) with (- e) by lia.
  replace (Z.max 0 e) with 0 by lia. change (2 ^ 0) with 1.
  rewrite Z.mul_1_r.
  assert (Hp : 0 < 2 ^ (- e)) by (apply Z.pow_pos_nonneg; lia).
  destruct (div_half_even_bound (n * 2 ^ (- e)) d) as [Hm0 _]; [nia|done|].
  pose proof (div_half_even_le (n * 2 ^ (- e)) d (K * 2 ^ (- e))
                ltac:(nia) Hd ltac:(nia)) as Hm.
  set (m := Py.div_half_even (n * 2 ^ (- e)) d) in *.
  unfold Py.signed, Py.overflows.
  destruct (Z.leb_spec 0 e); [lia|]. simpl.
  exists m, e. split; [done|]. lia.
Qed.

Lemma round_le (m e K : Z) :
  0 <= m <= K * 2 ^ (- e) -> e <= 0 ->
  exists n, Py.round (Py.FFin m e) = Some n /\ 0 <= n <= K.
Proof.
  intros Hm He. unfold Py.round.
  destruct (Z.ltb_spec m 0); [lia|]. rewrite Z.abs_eq by lia.
  replace (Z.max 0 e) with 0 by lia. replace (Z.max 0 (- e)) with (- e) by lia.
  change (2 ^ 0) with 1. rewrite Z.mul_1_r.
  assert (Hp : 0 < 2 ^ (- e)) by (apply Z.pow_pos_nonneg; lia).
  destruct (div_half_even_bound m (2 ^ (- e))) as [H0 _]; [lia|done|].
  pose proof (div_half_even_le m (2 ^ (- e)) K ltac:(lia) Hp ltac:(lia)).
  eexists. split; [done|]. lia.
Qed.

Lemma float_of_255 : Py.float_of_int 255 = Some (Py.FFin (255 * 2 ^ 45) (-45)).
Proof. by vm_compute. Qed.

Lemma normalized_on_grid (o g : Z) :
  0 <= o <= Z.max 1 g ->
  exists n, MainWindow.normalized o g = Some n /\ 0 <= n <= 255.
Proof.
  intros Ho. unfold MainWindow.normalized, Py.truediv.
  destruct (Z.eqb_spec (Z.max 1 g) 0); [lia|].
  destruct (Z.ltb_spec (Z.max 1 g) 0); [lia|].
  rewrite (Z.abs_eq (Z.max 1 g)) by lia.
  destruct (float_of_ratio_le o (Z.max 1 g) 1) as (m & e & -> & Hm & He);
    [lia..|].
  rewrite float_of_255. cbn [Py.finite mbind option_bind Py.fmul].
  unfold Py.float_of_dyadic.
  replace (Z.max 0 (e + -45)) with 0 by lia.
  replace (Z.max 0 (- (e + -45))) with (45 - e) by lia.
  change (2 ^ 0) with 1. rewrite Z.mul_1_r.
  assert (Hp : 0 < 2 ^ (- e)) by (apply Z.pow_pos_nonneg; lia).
  assert (Hsplit : 2 ^ (45 - e) = 2 ^ 45 * 2 ^ (- e)).
  { rewrite <- Z.pow_add_r by lia. done. }
  assert (H45 : 0 < 2 ^ 45) by lia.
  assert (Hn : 0 <= m * (255 * 2 ^ 45)) by lia.
  assert (Hd : 0 < 2 ^ (45 - e)) by (rewrite Hsplit; lia).
  assert (Hle : m * (255 * 2 ^ 45) <= 255 * 2 ^ (45 - e))
    by (rewrite Hsplit; nia).
  destruct (float_of_ratio_le _ _ 255 Hn Hd Hle ltac:(lia))
    as (m' & e' & -> & Hm' & He').
  apply round_le; lia.
Qed.

Lemma float_of_ratio_one (g : Z) :
  1 <= g -> Py.float_of_ratio g g = Py.FFin (2 ^ 52) (-52).
Proof.
  intros Hg. unfold Py.float_of_ratio, Py.round_ratio.
  destruct (Z.ltb_spec g 0); [lia|]. rewrite Z.abs_eq by lia.
  destruct (Z.eqb_spec g 0); [lia|].
  assert (Hil : Py.ilog2_ratio g g = 0).
  { unfold Py.ilog2_ratio. rewrite Z.sub_diag. simpl.
    by rewrite Z.leb_refl. }
  rewrite Hil.
  change (Z.max (0 - 52) (-1074)) with (-52).
  change (Z.max 0 (- -52)) with 52. change (Z.max 0 (-52)) with 0.
  change (2 ^ 0) with 1. rewrite Z.mul_1_r.
  assert (Hd : Py.div_half_even (g * 2 ^ 52) g = 2 ^ 52).
  { unfold Py.div_half_even.
    rewrite (Z.mul_comm g), Z.div_mul, Z.mod_mul by lia.
    destruct (Z.ltb_spec (2 * 0) g); [done|lia]. }
  rewrite Hd. done.
Qed.

(** X13: the coordinate that a normalising export writes for [o] on a
    grid of size [g], [round((o / max(1, g)) * 255)], is defined and lies
    in 0..255 whenever [0 <= o <= max(1, g)]; it is 0 at 0 and 255 at
    [g >= 1]; and on the default grid of 255 a coordinate on the grid is
    written as it is. *)
Theorem normalized_range (o g : Z) :
  (0 <= o <= Z.max 1 g ->
   exists n, MainWindow.normalized o g = Some n /\ 0 <= n <= 255) /\
  MainWindow.normalized 0 g = Some 0 /\
  (1 <= g -> MainWindow.normalized g g = Some 255) /\
  (0 <= o <= 255 -> MainWindow.normalized o 255 = Some o).
Proof.
  split; [apply normalized_on_grid|]. split; [|split].
  - unfold MainWindow.normalized, Py.truediv.
    destruct (Z.eqb_spec (Z.max 1 g) 0); [lia|].
    destruct (Z.ltb_spec (Z.max 1 g) 0); [lia|]. done.
  - intros Hg. unfold MainWindow.normalized, Py.truediv.
    replace (Z.max 1 g) with g by lia.
    destruct (Z.eqb_spec g 0); [lia|]. destruct (Z.ltb_spec g 0); [lia|].
    rewrite (Z.abs_eq g), float_of_ratio_one by lia. by vm_compute.
  - intros Ho.
    assert (Hall : forallb (fun i => match MainWindow.normalized i 255 with
                                     | Some n => n =? i
                                     | None => false
                                     end) (range 256) = true)
      by (by vm_compute).
    rewrite forallb_forall in Hall.
    assert (Hin : In o (range 256)).
    { apply list_elem_of_In. unfold range. apply list_elem_of_fmap.
      exists (Z.to_nat o). split; [lia|]. apply elem_of_seq. lia. }
    specialize (Hall o Hin).
    destruct (MainWindow.normalized o 255) as [n|]; [|done].
    by apply Z.eqb_eq in Hall as ->.
Qed.

Lemma normalized_range_witness :
  (exists n, MainWindow.normalized 100 300 = Some n /\ 0 <= n <= 255) /\
  MainWindow.normalized 300 300 = Some 255.
Proof.
  destruct (normalized_range 100 300) as (H1 & _ & _ & _).
  destruct (normalized_range 300 300) as (_ & _ & H3 & _).
  split; [apply H1; lia|apply H3; lia].
Defined.

(** ** Saving a scene as CSV and opening it again *)

Lemma int_of_str_str (n : Z) : Py.int_of_str (Py.str n) = Some n.
Proof.
  destruct (str_spec n) as (ds & Hstr & Hall & Hne & Hval).
  unfold Py.int_of_str.
  rewrite (strip_plain (Py.str n))
    by (apply numeric_no_space, str_numeric).
  rewrite Hstr.
  assert (Hsign : Py.scan_sign (if n <? 0 then String "-" ds else ds)
                  = (n <? 0, ds)).
  { destruct (n <? 0); [done|]. destruct ds as [|c ds]; [done|].
    simpl in Hall. apply andb_true_iff in Hall as [Hc _].
    apply digit_facts in Hc as (_ & _ & _ & Hm & Hp & _).
    unfold Py.scan_sign. by rewrite Hm, Hp. }
  rewrite Hsign, (scan_digits_all ds Hall 0 0), Hval.
  assert (Hlen : (0 <? 0 + Z.of_nat (String.length ds)) = true).
  { apply Z.ltb_lt. destruct ds; [done|]. simpl String.length. lia. }
  rewrite Hlen. f_equal. destruct (Z.ltb_spec n 0); lia.
Qed.

Lemma csv_written_read (k : string) (p : point) (c : rgb) (rad : value) :
  exact_point p -> exact c.1.1 -> exact c.1.2 -> exact c.2 ->
  MainWindow.csv_fields (MainWindow.reread <$> csv_written k p c rad)
  = Some (p.1, p.2, c) /\
  MainWindow.get (MainWindow.reread <$> csv_written k p c rad) "kind"
                 (VStr "polyline") = VStr k /\
  MainWindow.get (MainWindow.reread <$> csv_written k p c rad) "radius"
                 (VStr "") = MainWindow.reread rad.
Proof.
  intros [Hx Hy] Hr Hg Hb.
  assert (Hl : forall key v,
             (csv_written k p c rad) !! key = Some v ->
             forall d, MainWindow.get (MainWindow.reread <$> csv_written k p c rad)
                                      key d = MainWindow.reread v).
  { intros key v Hv d. unfold MainWindow.get. by rewrite lookup_fmap, Hv. }
  split; [|split].
  - unfold MainWindow.csv_fields.
    rewrite (Hl "x"%string (VInt p.1)), (Hl "y"%string (VInt p.2)),
      (Hl "r"%string (VInt c.1.1)), (Hl "g"%string (VInt c.1.2)),
      (Hl "b"%string (VInt c.2)) by (by vm_compute).
    cbn [MainWindow.reread].
    assert (Hread : forall n, exact n ->
              MainWindow.to_int_float (VStr (Py.str n)) = Some n).
    { intros n Hn. rewrite <- (int_float_str_exact n Hn). reflexivity. }
    rewrite !Hread by done. by destruct c as [[? ?] ?].
  - by rewrite (Hl "kind"%string (VStr k)) by (by vm_compute).
  - by rewrite (Hl "radius"%string rad) by (by vm_compute).
Qed.

Lemma csv_row_polyline (s : MainWindow.csv_state) (p : point) (c : rgb) :
  exact_point p -> exact c.1.1 -> exact c.1.2 -> exact c.2 ->
  MainWindow.csv_row s (MainWindow.reread <$> csv_written "polyline" p c (VStr ""))
  = match MainWindow.csv_cc s with
    | None => Done (MainWindow.mk_csv [p] (Some c) (MainWindow.csv_doc s))
    | Some c' =>
        if bool_decide (c <> c') && bool_decide (MainWindow.current_poly s <> [])
        then Done (MainWindow.mk_csv [p] (Some c)
                     (MainWindow.csv_flush (MainWindow.current_poly s) (Some c')
                                           (MainWindow.csv_doc s)))
        else Done (MainWindow.mk_csv (MainWindow.current_poly s ++ [p]) (Some c')
                                     (MainWindow.csv_doc s))
    end.
Proof.
  intros Hp Hr Hg Hb. unfold MainWindow.csv_row.
  destruct (csv_written_read "polyline" p c (VStr "") Hp Hr Hg Hb)
    as (-> & -> & _).
  rewrite bool_decide_eq_true_2 by done. destruct p as [x y]. cbn [fst snd].
  destruct (MainWindow.csv_cc s) as [c'|]; [done|].
  rewrite (bool_decide_eq_false_2 (c <> c)) by (by intros H). done.
Qed.

Lemma csv_row_circle (s : MainWindow.csv_state) (p : point) (c : rgb) (r : Z) :
  exact_point p -> exact c.1.1 -> exact c.1.2 -> exact c.2 ->
  MainWindow.csv_row s (MainWindow.reread <$> csv_written "circle" p c (VInt r))
  = Done (MainWindow.mk_csv []
            (match MainWindow.current_poly s with
             | [] => MainWindow.csv_cc s
             | _ :: _ => None
             end)
            (MainWindow.add_element (mkSceneElement "circle" [p] c r)
               (match MainWindow.current_poly s with
                | [] => MainWindow.csv_doc s
                | _ :: _ => csv_settled s
                end))).
Proof.
  intros Hp Hr Hg Hb. unfold MainWindow.csv_row.
  destruct (csv_written_read "circle" p c (VInt r) Hp Hr Hg Hb)
    as (-> & -> & ->).
  rewrite bool_decide_eq_false_2 by done.
  rewrite bool_decide_eq_true_2 by done. destruct p as [x y]. cbn [fst snd].
  cbn [MainWindow.reread MainWindow.is_blank MainWindow.to_int].
  assert (Hne : String.eqb (Py.str r) "" = false).
  { apply String.eqb_neq, str_nonempty. }
  rewrite Hne, int_of_str_str.
  destruct s as [poly cc d]. unfold csv_settled. simpl.
  by destruct poly.
Qed.

Lemma csv_loop_app (s : MainWindow.csv_state) (a b : list (gmap string value)) :
  MainWindow.csv_loop s (a ++ b)
  = match MainWindow.csv_loop s a with
    | Done s' => MainWindow.csv_loop s' b
    | Raised s' => Raised s'
    end.
Proof.
  revert s. induction a as [|r a IH]; intros s; simpl; [done|].
  destruct (MainWindow.csv_row s r); [apply IH|done].
Qed.

(** Further points of the polyline being read are appended to it. *)
Lemma csv_loop_points (pts acc : list point) (c : rgb) (d : heap * SceneTab.t) :
  Forall exact_point pts -> exact c.1.1 -> exact c.1.2 -> exact c.2 ->
  MainWindow.csv_loop (MainWindow.mk_csv acc (Some c) d)
    (csv_file (csv_points "polyline" c (VStr "") pts))
  = Done (MainWindow.mk_csv (acc ++ pts) (Some c) d).
Proof.
  intros Hpts Hr Hg Hb. revert acc.
  induction Hpts as [|p pts Hp Hpts IH]; intros acc.
  - simpl. by rewrite app_nil_r.
  - unfold csv_points. cbn [fmap list_fmap csv_file MainWindow.csv_loop].
    rewrite (csv_row_polyline _ p c Hp Hr Hg Hb). simpl.
    rewrite (bool_decide_eq_false_2 (c <> c)) by (by intros H). simpl.
    change (MainWindow.csv_loop ?s (list_fmap _ _ ?f (list_fmap _ _ ?g pts)))
      with (MainWindow.csv_loop s (csv_file (csv_points "polyline" c (VStr "") pts))).
    rewrite IH. by rewrite <- app_assoc.
Qed.

Lemma element_records_exact (e : SceneElement) :
  csv_exact e ->
  MainWindow.element_records e
  = Some (if String.eqb (kind e) "polyline"
          then csv_points "polyline" (color e) (VStr "") (points e)
          else csv_points "circle" (color e) (VInt (radius e)) (points e)).
Proof.
  intros ([[Hk Hne]|[Hk [c Hc]]] & _); unfold MainWindow.element_records;
    rewrite Hk; simpl; [done|]. by rewrite Hc.
Qed.

(** One element: its records take the loop from a state that is ready
    for it to a state that is ready for what follows, the element being
    the pending polyline or already appended. *)
Lemma csv_loop_element (s : MainWindow.csv_state) (e : SceneElement)
    (es : list SceneElement) (rows : list (gmap string value)) :
  csv_exact e -> csv_ready s (e :: es) -> csv_separate (e :: es) ->
  MainWindow.element_records e = Some rows ->
  exists s1, MainWindow.csv_loop s (csv_file rows) = Done s1 /\
             csv_settled s1
             = MainWindow.add_element (csv_reread e) (csv_settled s) /\
             csv_ready s1 es.
Proof.
  intros Hex Hready [Hsep _] Hrows.
  rewrite (element_records_exact e Hex) in Hrows. injection Hrows as <-.
  destruct Hex as ([[Hk Hne]|[Hk [cen Hcen]]] & Hpts & Hr & Hg & Hb).
  - rewrite Hk. simpl.
    destruct (points e) as [|p pts] eqn:Hpe; [done|].
    apply Forall_cons in Hpts as [Hp Hpts].
    unfold csv_points. cbn [fmap list_fmap csv_file MainWindow.csv_loop].
    rewrite (csv_row_polyline s p (color e) Hp Hr Hg Hb).
    change (list_fmap _ _ _ (list_fmap _ _ _ pts))
      with (csv_file (csv_points "polyline" (color e) (VStr "") pts)).
    assert (Hfirst : exists d,
      match MainWindow.csv_cc s with
      | None => Done (MainWindow.mk_csv [p] (Some (color e)) (MainWindow.csv_doc s))
      | Some c' =>
          if bool_decide (color e <> c')
             && bool_decide (MainWindow.current_poly s <> [])
          then Done (MainWindow.mk_csv [p] (Some (color e))
                       (MainWindow.csv_flush (MainWindow.current_poly s) (Some c')
                                             (MainWindow.csv_doc s)))
          else Done (MainWindow.mk_csv (MainWindow.current_poly s ++ [p]) (Some c')
                                       (MainWindow.csv_doc s))
      end = Done (MainWindow.mk_csv [p] (Some (color e)) d) /\
      d = csv_settled s).
    { destruct s as [poly cc d]. unfold csv_ready, csv_settled in *. simpl in *.
      destruct poly as [|q poly].
      - rewrite Hready. by eexists.
      - destruct Hready as (c' & -> & Hc'). specialize (Hc' Hk).
        rewrite bool_decide_eq_true_2 by done.
        rewrite bool_decide_eq_true_2 by done. simpl. by eexists. }
    destruct Hfirst as (d & -> & ->).
    rewrite (csv_loop_points pts [p] (color e) _ Hpts Hr Hg Hb).
    eexists. split; [done|]. split.
    + unfold csv_settled, csv_reread. simpl. by rewrite Hk, Hpe.
    + unfold csv_ready. simpl. exists (color e). split; [done|].
      destruct es as [|e2 es]; [done|]. intros Hk2 Heq. by apply (Hsep Hk Hk2).
  - assert (Hnp : String.eqb (kind e) "polyline" = false) by by rewrite Hk.
    rewrite Hnp, Hcen. rewrite Hcen in Hpts.
    apply Forall_cons in Hpts as [Hp _].
    unfold csv_points. cbn [fmap list_fmap csv_file MainWindow.csv_loop].
    rewrite (csv_row_circle s cen (color e) (radius e) Hp Hr Hg Hb).
    eexists. split; [done|]. split.
    + unfold csv_settled at 1. simpl.
      assert (He : csv_reread e
                   = mkSceneElement "circle" [cen] (color e) (radius e)).
      { unfold csv_reread. rewrite Hnp. destruct e; simpl in *. by subst. }
      rewrite He. f_equal.
      destruct s as [poly cc d]. unfold csv_ready, csv_settled in *.
      simpl in *. destruct poly; [|done]. by rewrite Hready.
    + unfold csv_ready. simpl.
      destruct s as [poly cc d]. unfold csv_ready in Hready. simpl in *.
      by destruct poly.
Qed.

Lemma csv_loop_elements (es : list SceneElement) (s : MainWindow.csv_state) :
  Forall csv_exact es -> csv_separate es -> csv_ready s es ->
  exists rs, mapM MainWindow.element_records es = Some rs /\
    exists s', MainWindow.csv_loop s (csv_file (mjoin rs)) = Done s' /\
      csv_settled s'
      = foldl (fun d e => MainWindow.add_element e d) (csv_settled s)
              (csv_reread <$> es).
Proof.
  intros Hex. revert s. induction Hex as [|e es He Hes IH]; intros s Hsep Hready.
  - exists []. split; [done|]. exists s. by split.
  - pose proof (element_records_exact e He) as Hrec.
    destruct (csv_loop_element s e es _ He Hready Hsep Hrec)
      as (s1 & Hloop & Hset & Hready1).
    destruct (IH s1 (proj2 Hsep) Hready1) as (rs & Hrs & s' & Hloop' & Hset').
    eexists (_ :: rs). split.
    { cbn [mapM]. rewrite Hrec, Hrs. reflexivity. }
    exists s'. split.
    + cbn [mjoin list_join]. unfold csv_file in *. rewrite fmap_app.
      rewrite csv_loop_app, Hloop. exact Hloop'.
    + rewrite Hset', Hset. done.
Qed.

(** X14: a scene saved as CSV and opened again (the fields read back as
    the text that was written) comes back element by element: the new
    scene lists, in order, a copy of every element, polylines with radius
    0; this for scenes of polylines with a point at least and of circles
    with their centre, with exact numbers, in which no two polylines of the
    same colour follow each other. *)
Theorem csv_round_trip (grid_size cell_size : Z) (h h1 : heap)
    (sc : SceneTab.t) (es : list SceneElement) :
  mapM (fun el => h !! el) (SceneTab.elements sc) = Some es ->
  Forall csv_exact es -> csv_separate es ->
  exists rows, MainWindow.save_rows h sc = Some rows /\
    exists d, MainWindow.open_csv grid_size cell_size (csv_file rows) h1
              = Done d /\
      d.1 = h1 ++ (csv_reread <$> es) /\
      SceneTab.elements d.2 = seq (length h1) (length es).
Proof.
  intros Hes Hex Hsep.
  set (s0 := MainWindow.mk_csv [] None (h1, SceneTab.init grid_size cell_size)).
  destruct (csv_loop_elements es s0 Hex Hsep eq_refl)
    as (rs & Hrs & s' & Hloop & Hset).
  exists (mjoin rs). split.
  { unfold MainWindow.save_rows. rewrite Hes. simpl. by rewrite Hrs. }
  unfold MainWindow.open_csv. fold s0. rewrite Hloop.
  eexists. split; [reflexivity|].
  fold (csv_settled s'). rewrite Hset.
  pose proof (add_elements_spec (csv_reread <$> es) h1
                (SceneTab.init grid_size cell_size)) as [H1 H2].
  unfold csv_settled, s0. simpl. rewrite H1, H2.
  by rewrite length_fmap.
Qed.

Lemma csv_round_trip_witness :
  exists rows, MainWindow.save_rows grid_heap grid_scene = Some rows /\
    exists d, MainWindow.open_csv 255 1 (csv_file rows) [] = Done d /\
      d.1 = [] ++ (csv_reread <$> grid_heap).
Proof.
  destruct (csv_round_trip 255 1 grid_heap [] grid_scene grid_heap)
    as (rows & Hsave & d & Hopen & Hd & _).
  - reflexivity.
  - repeat (apply Forall_cons; split); [| |by apply Forall_nil].
    + split; [left; by split|].
      split; [|by vm_compute].
      repeat (apply Forall_cons; split); try by apply Forall_nil.
      all: split; by vm_compute.
    + split; [left; by split|].
      split; [|by vm_compute].
      repeat (apply Forall_cons; split); try by apply Forall_nil.
      all: split; by vm_compute.
  - simpl. split; [|done]. intros _ _ H. discriminate H.
  - exists rows. split; [exact Hsave|]. exists d. split; [exact Hopen|exact Hd].
Defined.

Lemma element_records_polylines (es : list SceneElement) (c : rgb) :
  Forall (fun e => kind e = "polyline"%string /\ color e = c) es ->
  mapM MainWindow.element_records es
  = Some (csv_points "polyline" c (VStr "") <$> (points <$> es)) /\
  mjoin (csv_points "polyline" c (VStr "") <$> (points <$> es))
  = csv_points "polyline" c (VStr "") (mjoin (points <$> es)).
Proof.
  induction 1 as [|e es [Hk Hc] Hes [IH1 IH2]]; [done|]. split.
  - cbn [mapM fmap list_fmap]. rewrite IH1.
    unfold MainWindow.element_records. rewrite Hk, Hc. reflexivity.
  - change (mjoin (csv_points "polyline" c (VStr "") <$> (points <$> (e :: es))))
      with (csv_points "polyline" c (VStr "") (points e)
            ++ mjoin (csv_points "polyline" c (VStr "") <$> (points <$> es))).
    change (mjoin (points <$> (e :: es)))
      with (points e ++ mjoin (points <$> es)).
    rewrite IH2. unfold csv_points. by rewrite fmap_app.
Qed.

(** X15: polylines of one colour that follow each other do not survive
    saving and opening as separate elements: a scene of polylines that all
    have the same colour comes back as one polyline through all their
    points, in order. *)
Theorem csv_merges_polylines (grid_size cell_size : Z) (h h1 : heap)
    (sc : SceneTab.t) (es : list SceneElement) (c : rgb) :
  mapM (fun el => h !! el) (SceneTab.elements sc) = Some es ->
  Forall (fun e => kind e = "polyline"%string /\ color e = c) es ->
  Forall exact_point (mjoin (points <$> es)) ->
  exact c.1.1 -> exact c.1.2 -> exact c.2 ->
  mjoin (points <$> es) <> [] ->
  exists rows, MainWindow.save_rows h sc = Some rows /\
    MainWindow.open_csv grid_size cell_size (csv_file rows) h1
    = Done (h1 ++ [mkSceneElement "polyline" (mjoin (points <$> es)) c 0],
            SceneTab.append_element (length h1)
              (SceneTab.init grid_size cell_size)).
Proof.
  intros Hes Hpoly Hpts Hr Hg Hb Hne.
  destruct (element_records_polylines es c Hpoly) as [Hrec Hjoin].
  eexists. split.
  { unfold MainWindow.save_rows. rewrite Hes. simpl. rewrite Hrec. reflexivity. }
  rewrite Hjoin.
  destruct (mjoin (points <$> es)) as [|p pts]; [done|].
  apply Forall_cons in Hpts as [Hp Hpts].
  unfold MainWindow.open_csv, csv_points.
  cbn [fmap list_fmap csv_file MainWindow.csv_loop].
  rewrite (csv_row_polyline _ p c Hp Hr Hg Hb). cbn [MainWindow.csv_cc].
  change (list_fmap _ _ _ (list_fmap _ _ _ pts))
    with (csv_file (csv_points "polyline" c (VStr "") pts)).
  rewrite (csv_loop_points pts [p] c _ Hpts Hr Hg Hb). done.
Qed.

Lemma csv_merges_polylines_witness :
  exists rows,
    MainWindow.save_rows
      [mkSceneElement "polyline" [(0, 0); (10, 0)] (255, 0, 0) 0;
       mkSceneElement "polyline" [(3, 4); (5, 6)] (255, 0, 0) 0]
      grid_scene = Some rows /\
    MainWindow.open_csv 255 1 (csv_file rows) []
    = Done ([mkSceneElement "polyline" [(0, 0); (10, 0); (3, 4); (5, 6)]
                            (255, 0, 0) 0],
            SceneTab.append_element 0%nat (SceneTab.init 255 1)).
Proof.
  apply (csv_merges_polylines 255 1
           [mkSceneElement "polyline" [(0, 0); (10, 0)] (255, 0, 0) 0;
            mkSceneElement "polyline" [(3, 4); (5, 6)] (255, 0, 0) 0]
           [] grid_scene
           [mkSceneElement "polyline" [(0, 0); (10, 0)] (255, 0, 0) 0;
            mkSceneElement "polyline" [(3, 4); (5, 6)] (255, 0, 0) 0]
           (255, 0, 0)).
  - reflexivity.
  - repeat (apply Forall_cons; split; [by split|]). by apply Forall_nil.
  - repeat (apply Forall_cons; split; [split; by vm_compute|]).
    by apply Forall_nil.
  - by vm_compute.
  - by vm_compute.
  - by vm_compute.
  - discriminate.
Defined.

(** ** Undoing a removal *)

Lemma py_remove_middle (h : heap) (el : ref) (pre post : list ref) :
  Forall (fun x => py_eq h x el = false) pre ->
  py_in h el (pre ++ el :: post) = true /\
  py_remove h el (pre ++ el :: post) = pre ++ post.
Proof.
  assert (Hrefl : py_eq h el el = true).
  { unfold py_eq. by rewrite bool_decide_eq_true_2. }
  intros Hpre. split.
  - unfold py_in. rewrite existsb_app. simpl. rewrite Hrefl.
    by rewrite orb_true_r.
  - induction Hpre as [|x pre Hx Hpre IH]; simpl.
    + by rewrite Hrefl.
    + by rewrite Hx, IH.
Qed.

(** X16: undoing the removal of an element does not put it back where it
    was: when [el] is the first item of the list equal to it,
    [remove_element(el)] followed by [undo] leaves the other elements in
    their order and [el] at the end of the list; the undo stack is as
    before the removal and the removal is the one entry to redo. *)
Theorem remove_then_undo (h : heap) (el : ref) (sc : SceneTab.t)
    (pre post : list ref) :
  SceneTab.elements sc = pre ++ el :: post ->
  Forall (fun x => py_eq h x el = false) pre ->
  let sc' := SceneTab.undo h (SceneTab.remove_element h el sc) in
  SceneTab.elements sc' = pre ++ post ++ [el] /\
  UndoManager._undo (SceneTab.undo_manager sc')
  = UndoManager._undo (SceneTab.undo_manager sc) /\
  UndoManager._redo (SceneTab.undo_manager sc') = [(UndoManager.remove, el)].
Proof.
  intros Hels Hpre. destruct (py_remove_middle h el pre post Hpre) as [Hin Hrm].
  unfold SceneTab.remove_element. rewrite Hels, Hin, Hrm.
  unfold SceneTab.undo, UndoManager.undo. simpl.
  rewrite pop_snoc. simpl. by rewrite <- app_assoc.
Qed.

Lemma remove_then_undo_witness :
  SceneTab.elements
    (SceneTab.undo grid_heap (SceneTab.remove_element grid_heap 0%nat grid_scene))
  = [] ++ [1%nat] ++ [0%nat].
Proof.
  apply (remove_then_undo grid_heap 0%nat grid_scene [] [1%nat]).
  - reflexivity.
  - apply Forall_nil. done.
Defined.

(** ** Opening any CSV file *)

Lemma csv_filled_add (h : heap) (e : SceneElement) (d : heap * SceneTab.t) :
  csv_made e -> csv_filled h d -> csv_filled h (MainWindow.add_element e d).
Proof.
  intros He (new & Hd & Hnew & Hf). destruct d as [hd sc]. simpl in Hd. subst hd.
  exists (new ++ [e]). split; [by simpl; rewrite app_assoc|]. split.
  - apply Forall_app. split; [done|]. by apply Forall_cons.
  - by apply filled_add.
Qed.

Lemma csv_filled_flush (h : heap) (c : option rgb) (pts : list point)
    (d : heap * SceneTab.t) :
  csv_filled h d -> csv_filled h (MainWindow.csv_flush pts c d).
Proof.
  intros Hd. unfold MainWindow.csv_flush. destruct pts, c; try done.
  apply csv_filled_add; [|done]. left. by repeat split.
Qed.

Lemma csv_filled_row (h : heap) (s : MainWindow.csv_state)
    (r : gmap string value) :
  csv_filled h (MainWindow.csv_doc s) ->
  csv_filled h (MainWindow.csv_doc (MainWindow.unwrap (MainWindow.csv_row s r))).
Proof.
  intros Hd. unfold MainWindow.csv_row.
  destruct (MainWindow.csv_fields r) as [[[x y] c]|]; [|done].
  destruct (bool_decide (_ = VStr "polyline")).
  - destruct (MainWindow.csv_cc s) as [c0|]; simpl.
    + destruct (_ && _); simpl; [|done]. by apply csv_filled_flush.
    + by destruct (_ && _).
  - destruct (bool_decide (_ = VStr "circle")); [|done].
    assert (Hs1 : csv_filled h (MainWindow.csv_doc
              match MainWindow.current_poly s with
              | [] => s
              | _ :: _ =>
                  MainWindow.mk_csv [] None
                    (MainWindow.csv_flush (MainWindow.current_poly s)
                       (MainWindow.csv_cc s) (MainWindow.csv_doc s))
              end)).
    { destruct (MainWindow.current_poly s); [done|].
      by apply csv_filled_flush. }
    destruct (if MainWindow.is_blank _ then _ else _); simpl; [|done].
    apply csv_filled_add; [|done]. right. split; [done|]. by eexists.
Qed.

Lemma csv_filled_loop (h : heap) (rows : list (gmap string value))
    (s : MainWindow.csv_state) :
  csv_filled h (MainWindow.csv_doc s) ->
  csv_filled h (MainWindow.csv_doc (MainWindow.unwrap (MainWindow.csv_loop s rows))).
Proof.
  revert s. induction rows as [|r rows IH]; intros s Hs; [done|].
  simpl. pose proof (csv_filled_row h s r Hs) as Hr.
  destruct (MainWindow.csv_row s r) as [s'|s']; simpl in *; [by apply IH|done].
Qed.

(** X17: whatever the records, and whether [open_csv] reads them all or
    is stopped by a malformed one, it leaves the objects of the store as
    they are and adds only polylines with a point at least and radius 0 and
    circles with one point; the new scene lists exactly the added objects,
    in order, with one addition in its history for each, so that as many
    undos empty it. *)
Theorem open_csv_shape (grid_size cell_size : Z)
    (rows : list (gmap string value)) (h : heap) :
  let d := MainWindow.unwrap (MainWindow.open_csv grid_size cell_size rows h) in
  exists new : heap,
    d.1 = h ++ new /\ Forall csv_made new /\ filled h (length new) d.2 /\
    SceneTab.elements (Nat.iter (length new) (SceneTab.undo d.1) d.2) = [].
Proof.
  simpl.
  assert (Hd : csv_filled h
            (MainWindow.unwrap (MainWindow.open_csv grid_size cell_size rows h))).
  { unfold MainWindow.open_csv.
    set (s0 := MainWindow.mk_csv [] None (h, SceneTab.init grid_size cell_size)).
    assert (Hs0 : csv_filled h (MainWindow.csv_doc s0)).
    { exists []. simpl. rewrite app_nil_r. split; [done|]. split; [constructor|].
      done. }
    pose proof (csv_filled_loop h rows s0 Hs0) as Hl.
    destruct (MainWindow.csv_loop s0 rows) as [s|s]; simpl in *; [|done].
    by apply csv_filled_flush. }
  destruct Hd as (new & H1 & H2 & H3). exists new.
  split; [done|]. split; [done|]. split; [done|].
  by destruct (undo_all_additions h (length new)
                 (MainWindow.unwrap
                    (MainWindow.open_csv grid_size cell_size rows h)).1
                 _ H3) as [Hu _].
Qed.

(** ** Circle samples stay in the bounding box *)

Lemma div_half_even_ge (n d K : Z) :
  0 <= n -> 0 < d -> K * d <= n -> K <= Py.div_half_even n d.
Proof.
  intros Hn Hd HK. unfold Py.div_half_even.
  assert (Hq : K <= n / d) by (apply Z.div_le_lower_bound; lia).
  destruct (2 * (n mod d) <? d); [done|].
  destruct (d <? 2 * (n mod d)); [lia|]. destruct (Z.even (n / d)); lia.
Qed.

(** Rounding a ratio below [2^52] is monotone at the integers, on both
    sides. *)
Lemma round_ratio_between (n d : Z) :
  0 <= n -> 0 < d -> n < 2 ^ 52 * d ->
  -1074 <= (Py.round_ratio n d).2 <= 0 /\
  0 <= (Py.round_ratio n d).1 /\
  Py.overflows (Py.round_ratio n d) = false /\
  forall K,
    (n <= K * d -> (Py.round_ratio n d).1 <= K * 2 ^ (- (Py.round_ratio n d).2)) /\
    (K * d <= n -> K * 2 ^ (- (Py.round_ratio n d).2) <= (Py.round_ratio n d).1).
Proof.
  intros Hn Hd Hlt. unfold Py.round_ratio.
  destruct (Z.eqb_spec n 0) as [->|Hne].
  { simpl. repeat split; try lia; nia. }
  assert (Hil : Py.ilog2_ratio n d < 52) by (apply ilog2_ratio_lt; lia).
  set (e := Z.max (Py.ilog2_ratio n d - 52) (-1074)).
  assert (He : -1074 <= e < 0) by lia.
  replace (Z.max 0 (- e)) with (- e) by lia.
  replace (Z.max 0 e) with 0 by lia. change (2 ^ 0) with 1.
  rewrite Z.mul_1_r. cbn [fst snd].
  assert (Hp : 0 < 2 ^ (- e)) by (apply Z.pow_pos_nonneg; lia).
  destruct (div_half_even_bound (n * 2 ^ (- e)) d) as [Hm0 _]; [nia|done|].
  split; [lia|]. split; [done|]. split.
  { unfold Py.overflows. destruct (Z.leb_spec 0 e); [lia|done]. }
  intros K. split; intros HK.
  - apply div_half_even_le; [nia|done|nia].
  - apply div_half_even_ge; [nia|done|nia].
Qed.

Lemma float_of_ratio_between (n d A B : Z) :
  0 < d -> A * d <= n <= B * d -> - 2 ^ 52 < A -> B < 2 ^ 52 ->
  between (Py.float_of_ratio n d) A B.
Proof.
  intros Hd Hn HA HB. unfold Py.float_of_ratio.
  assert (Hlt : Z.abs n < 2 ^ 52 * d) by nia.
  destruct (round_ratio_between (Z.abs n) d ltac:(lia) Hd Hlt)
    as (He & Hm & Hov & HK).
  unfold Py.signed. rewrite Hov.
  set (m := (Py.round_ratio (Z.abs n) d).1) in *.
  set (e := (Py.round_ratio (Z.abs n) d).2) in *.
  assert (Hp : 0 < 2 ^ (- e)) by (apply Z.pow_pos_nonneg; lia).
  simpl. split; [lia|].
  destruct (Z.ltb_spec n 0) as [Hneg|Hpos].
  - destruct (HK (- A)) as [HA1 _]. destruct (HK (- B)) as [_ HB1].
    specialize (HA1 ltac:(lia)). specialize (HB1 ltac:(lia)). lia.
  - destruct (HK B) as [HB1 _]. destruct (HK A) as [_ HA1].
    specialize (HA1 ltac:(lia)). specialize (HB1 ltac:(lia)). lia.
Qed.

(** The same for a dyadic number, its bounds being given at any scale
    [2^K] that makes the exponent non-negative. *)
Lemma float_of_dyadic_between (m e K A B : Z) :
  0 <= K -> 0 <= e + K ->
  A * 2 ^ K <= m * 2 ^ (e + K) <= B * 2 ^ K ->
  - 2 ^ 52 < A -> B < 2 ^ 52 ->
  between (Py.float_of_dyadic m e) A B.
Proof.
  intros HK He Hm HA HB. unfold Py.float_of_dyadic.
  apply float_of_ratio_between; [apply Z.pow_pos_nonneg; lia| |done|done].
  assert (Hc : 0 < 2 ^ (K - Z.max 0 (- e))) by (apply Z.pow_pos_nonneg; lia).
  assert (H1 : m * 2 ^ Z.max 0 e * 2 ^ (K - Z.max 0 (- e)) = m * 2 ^ (e + K)).
  { rewrite <- Z.mul_assoc, <- Z.pow_add_r by lia. do 2 f_equal. lia. }
  assert (H2 : forall X, X * 2 ^ Z.max 0 (- e) * 2 ^ (K - Z.max 0 (- e))
                         = X * 2 ^ K).
  { intros X. rewrite <- Z.mul_assoc, <- Z.pow_add_r by lia. do 2 f_equal. lia. }
  split; apply (Z.mul_le_mono_pos_r _ _ _ Hc); rewrite H1, H2; lia.
Qed.

Lemma float_of_int_between (n : Z) :
  Z.abs n < 2 ^ 52 ->
  exists x, Py.float_of_int n = Some x /\ between x n n.
Proof.
  intros Hn. unfold Py.float_of_int.
  pose proof (float_of_ratio_between n 1 n n ltac:(lia) ltac:(lia)
                ltac:(lia) ltac:(lia)) as Hb.
  destruct (Py.float_of_ratio n 1) as [m e| |]; try done. by eexists.
Qed.

Lemma round_between (x : Py.float) (A B : Z) :
  between x A B -> exists n, Py.round x = Some n /\ A <= n <= B.
Proof.
  destruct x as [m e| |]; try done. intros [He Hm]. unfold Py.round.
  replace (Z.max 0 e) with 0 by lia. replace (Z.max 0 (- e)) with (- e) by lia.
  change (2 ^ 0) with 1. rewrite Z.mul_1_r.
  assert (Hp : 0 < 2 ^ (- e)) by (apply Z.pow_pos_nonneg; lia).
  eexists. split; [done|].
  destruct (Z.ltb_spec m 0) as [Hneg|Hpos].
  - pose proof (div_half_even_le (Z.abs m) (2 ^ (- e)) (- A)
                  ltac:(lia) Hp ltac:(lia)).
    pose proof (div_half_even_ge (Z.abs m) (2 ^ (- e)) (- B)
                  ltac:(lia) Hp ltac:(lia)). lia.
  - pose proof (div_half_even_le (Z.abs m) (2 ^ (- e)) B
                  ltac:(lia) Hp ltac:(lia)).
    pose proof (div_half_even_ge (Z.abs m) (2 ^ (- e)) A
                  ltac:(lia) Hp ltac:(lia)). lia.
Qed.

(** The product of the float of [R] with a float of magnitude at most 1. *)
Lemma fmul_between (x y : Py.float) (R : Z) :
  between x R R -> mag_le y 1 -> 0 <= R < 2 ^ 52 ->
  between (Py.fmul x y) (- R) R.
Proof.
  destruct x as [m1 e1| |], y as [m2 e2| |]; try done.
  intros [He1 Hm1] [He2 Hm2] HR. cbn [Py.fmul].
  assert (Hp1 : 0 < 2 ^ (- e1)) by (apply Z.pow_pos_nonneg; lia).
  assert (Hp2 : 0 < 2 ^ (e2 + 1074)) by (apply Z.pow_pos_nonneg; lia).
  assert (Hm1' : m1 = R * 2 ^ (- e1)) by lia.
  apply (float_of_dyadic_between _ _ (1074 - e1)); try lia.
  replace (e1 + e2 + (1074 - e1)) with (e2 + 1074) by lia.
  replace (1074 - e1) with (- e1 + 1074) by lia.
  rewrite Z.pow_add_r by lia. rewrite Z.mul_1_l in Hm2.
  subst m1.
  assert (Habs : - 2 ^ 1074 <= m2 * 2 ^ (e2 + 1074) <= 2 ^ 1074) by lia.
  set (V := m2 * 2 ^ (e2 + 1074)) in *.
  replace (R * 2 ^ (- e1) * m2 * 2 ^ (e2 + 1074))
    with (R * 2 ^ (- e1) * V) by (unfold V; ring).
  assert (0 <= R * 2 ^ (- e1)) by nia.
  set (W := R * 2 ^ (- e1)) in *.
  replace (- R * (2 ^ (- e1) * 2 ^ 1074)) with (- (W * 2 ^ 1074))
    by (unfold W; ring).
  replace (R * (2 ^ (- e1) * 2 ^ 1074)) with (W * 2 ^ 1074)
    by (unfold W; ring).
  nia.
Qed.

(** The sum of the float of [C] with a float between [-R] and [R]. *)
Lemma fadd_between (x y : Py.float) (C R : Z) :
  between x C C -> between y (- R) R ->
  - 2 ^ 52 < C - R -> C + R < 2 ^ 52 ->
  between (Py.fadd x y) (C - R) (C + R).
Proof.
  destruct x as [m1 e1| |], y as [m2 e2| |]; try done.
  intros [He1 Hm1] [He2 Hm2] HA HB. cbn [Py.fadd].
  set (e := Z.min e1 e2).
  apply (float_of_dyadic_between _ _ (- e)); try lia.
  replace (e + - e) with 0 by lia. change (2 ^ 0) with 1. rewrite Z.mul_1_r.
  assert (Hq1 : 2 ^ (- e1) * 2 ^ (e1 - e) = 2 ^ (- e)).
  { rewrite <- Z.pow_add_r by lia. f_equal. lia. }
  assert (Hq2 : 2 ^ (- e2) * 2 ^ (e2 - e) = 2 ^ (- e)).
  { rewrite <- Z.pow_add_r by lia. f_equal. lia. }
  assert (Hp1 : 0 < 2 ^ (e1 - e)) by (apply Z.pow_pos_nonneg; lia).
  assert (Hp2 : 0 < 2 ^ (e2 - e)) by (apply Z.pow_pos_nonneg; lia).
  assert (H1 : m1 * 2 ^ (e1 - e) = C * 2 ^ (- e)).
  { rewrite <- Hq1. replace m1 with (C * 2 ^ (- e1)) by lia. ring. }
  assert (H2 : - R * 2 ^ (- e) <= m2 * 2 ^ (e2 - e) <= R * 2 ^ (- e)).
  { rewrite <- Hq2. split.
    - replace (- R * (2 ^ (- e2) * 2 ^ (e2 - e)))
        with (- R * 2 ^ (- e2) * 2 ^ (e2 - e)) by ring.
      apply Z.mul_le_mono_nonneg_r; lia.
    - replace (R * (2 ^ (- e2) * 2 ^ (e2 - e)))
        with (R * 2 ^ (- e2) * 2 ^ (e2 - e)) by ring.
      apply Z.mul_le_mono_nonneg_r; lia. }
  rewrite H1. lia.
Qed.

Section CircleBox.

Variables cos sin : Py.float -> option Py.float.
Hypothesis cos_ok : trig_ok cos.
Hypothesis sin_ok : trig_ok sin.

(** One coordinate of a sample lies within [r] of the centre. *)
Lemma sample_in_box (f : Py.float -> option Py.float) (c r : Z)
    (t : Py.float) (B : Z) :
  trig_ok f -> mag_le t B -> 0 <= r ->
  Z.abs c + r < 2 ^ 52 ->
  exists n,
    (rf ← Py.float_of_int r; v ← f t; cf ← Py.float_of_int c;
     Py.round (Py.fadd cf (Py.fmul rf v))) = Some n /\
    c - r <= n <= c + r.
Proof.
  intros Hf Ht Hr Hc.
  destruct (float_of_int_between r ltac:(lia)) as (rf & -> & Hrf).
  destruct (mag_le_exponent t B Ht) as (m & e & -> & He).
  destruct (Hf m e He) as (v & -> & Hv).
  destruct (float_of_int_between c ltac:(lia)) as (cf & -> & Hcf).
  simpl.
  pose proof (fmul_between rf v r Hrf Hv ltac:(lia)) as Hprod.
  pose proof (fadd_between cf _ c r Hcf Hprod ltac:(lia) ltac:(lia)) as Hsum.
  by apply round_between.
Qed.

Lemma circle_point_in_box (cen : point) (r s i : Z) :
  0 <= r -> Z.abs cen.1 + r < 2 ^ 52 -> Z.abs cen.2 + r < 2 ^ 52 ->
  0 <= i < s ->
  exists p, circle_point cos sin cen r s i = Some p /\
            cen.1 - r <= p.1 <= cen.1 + r /\ cen.2 - r <= p.2 <= cen.2 + r.
Proof.
  intros Hr Hx Hy His. destruct cen as [cx cy]. unfold circle_point.
  change (Py.float_of_int 2) with (Some (Py.FFin 4503599627370496 (-51))).
  cbn [mbind option_bind].
  destruct (truediv_bound i s His) as (q & -> & Hq). cbn [mbind option_bind].
  assert (Htwopi : mag_le (Py.fmul (Py.FFin 4503599627370496 (-51)) Py.pi) 7).
  { vm_compute. split; [discriminate|discriminate]. }
  pose proof (fmul_bound _ q _ _ Htwopi Hq ltac:(by vm_compute)) as Ht.
  destruct (sample_in_box cos cx r _ _ cos_ok Ht Hr Hx) as (x & Hxv & Hxb).
  destruct (sample_in_box sin cy r _ _ sin_ok Ht Hr Hy) as (y & Hyv & Hyb).
  destruct (Py.float_of_int r) as [rf|]; [|done]. cbn [mbind option_bind] in *.
  destruct (cos _) as [c|]; [|done]. cbn [mbind option_bind] in *.
  destruct (Py.float_of_int cx) as [cxf|]; [|done]. cbn [mbind option_bind] in *.
  rewrite Hxv. cbn [mbind option_bind].
  destruct (sin _) as [sn|]; [|done]. cbn [mbind option_bind] in *.
  destruct (Py.float_of_int cy) as [cyf|]; [|done]. cbn [mbind option_bind] in *.
  rewrite Hyv. eexists. split; [done|]. done.
Qed.

End CircleBox.

(** X18: the samples of a circle stay in its bounding box: for a positive
    radius and step count, and a centre and radius below [2^52] in sum,
    [circle_to_points] returns [s] points whose coordinates are within [r]
    of those of the centre ([math.cos] and [math.sin] being defined and
    bounded by 1 on finite doubles). *)
Theorem circle_points_in_box (cos sin : Py.float -> option Py.float)
    (cen : point) (r s : Z) :
  trig_ok cos -> trig_ok sin ->
  0 < r -> 0 < s ->
  Z.abs cen.1 + r < 2 ^ 52 -> Z.abs cen.2 + r < 2 ^ 52 ->
  exists pts : list point,
    circle_to_points cos sin cen r s = Some pts /\
    Z.of_nat (length pts) = s /\
    Forall (fun p => cen.1 - r <= p.1 <= cen.1 + r /\
                     cen.2 - r <= p.2 <= cen.2 + r) pts.
Proof.
  intros Hcos Hsin Hr Hs Hx Hy. unfold circle_to_points.
  destruct (Z.leb_spec r 0), (Z.leb_spec s 0); try lia. simpl.
  assert (Hdef : is_Some (mapM (circle_point cos sin cen r s) (range s))).
  { apply mapM_is_Some, Forall_forall. intros i Hi.
    apply range_spec in Hi.
    destruct (circle_point_in_box cos sin Hcos Hsin cen r s i)
      as (p & Hp & _); try done; [lia|].
    simpl. by rewrite Hp. }
  destruct Hdef as [pts Hpts]. exists pts. split; [done|]. split.
  - apply length_mapM in Hpts. rewrite <- Hpts. apply range_length. lia.
  - apply mapM_Some in Hpts. apply Forall_forall. intros p Hp.
    apply list_elem_of_lookup in Hp as [k Hk].
    destruct (Forall2_lookup_r _ _ _ _ _ Hpts Hk) as (i & Hi & Hip).
    apply list_elem_of_lookup_2, range_spec in Hi.
    destruct (circle_point_in_box cos sin Hcos Hsin cen r s i)
      as (p' & Hp' & Hbox); try done; [lia|].
    rewrite Hip in Hp'. by injection Hp' as <-.
Qed.

Lemma circle_points_in_box_witness :
  exists pts : list point,
    circle_to_points cos0 sin0 (100, 100) 10 4 = Some pts /\
    Forall (fun p => 100 - 10 <= p.1 <= 100 + 10 /\
                     100 - 10 <= p.2 <= 100 + 10) pts.
Proof.
  destruct (circle_points_in_box cos0 sin0 (100, 100) 10 4)
    as (pts & H1 & _ & H3).
  - apply trig_ok_cos0.
  - apply trig_ok_sin0.
  - lia.
  - lia.
  - simpl. lia.
  - simpl. lia.
  - exists pts. split; [exact H1|exact H3].
Defined.

(** ** The laser format: circles *)

Section LaserCircles.

Variables cos sin : Py.float -> option Py.float.
Hypothesis cos_ok : trig_ok cos.
Hypothesis sin_ok : trig_ok sin.

Lemma circle_samples_exact (cen : point) (r s : Z) :
  0 < r -> 2 <= s ->
  Z.abs cen.1 + r < 2 ^ 52 -> Z.abs cen.2 + r < 2 ^ 52 ->
  exists pts : list point,
    circle_to_points cos sin cen r s = Some pts /\
    (2 <= length pts)%nat /\ Forall exact_point pts.
Proof.
  intros Hr Hs Hx Hy. unfold circle_to_points.
  destruct (Z.leb_spec r 0), (Z.leb_spec s 0); try lia. simpl.
  assert (Hdef : is_Some (mapM (circle_point cos sin cen r s) (range s))).
  { apply mapM_is_Some, Forall_forall. intros i Hi.
    apply range_spec in Hi.
    destruct (circle_point_in_box cos sin cos_ok sin_ok cen r s i)
      as (p & Hp & _); try done; [lia|].
    simpl. by rewrite Hp. }
  destruct Hdef as [pts Hpts]. exists pts. split; [done|]. split.
  - pose proof (range_length s ltac:(lia)) as Hlen.
    apply length_mapM in Hpts. lia.
  - apply mapM_Some in Hpts. apply Forall_forall. intros p Hp.
    apply list_elem_of_lookup in Hp as [k Hk].
    destruct (Forall2_lookup_r _ _ _ _ _ Hpts Hk) as (i & Hi & Hip).
    apply list_elem_of_lookup_2, range_spec in Hi.
    destruct (circle_point_in_box cos sin cos_ok sin_ok cen r s i)
      as (p' & Hp' & Hbx & Hby); try done; [lia|].
    rewrite Hip in Hp'. injection Hp' as <-.
    split; apply exact_small; lia.
Qed.

Lemma laser_image_exact (steps : Z) (e : SceneElement) :
  2 <= steps -> laser_exportable e ->
  exists e', laser_image cos sin steps e = Some e' /\ exact_polyline e'.
Proof.
  intros Hs [(Hk & Hlen & Hex)|(Hk & c & rest & Hpts & Hr & Hx & Hy)];
    unfold laser_image, MainWindow.export_points; rewrite Hk; simpl.
  - eexists. split; [done|]. by split.
  - rewrite Hpts. simpl.
    destruct (circle_samples_exact c (radius e) steps Hr Hs Hx Hy)
      as (pts & -> & Hlen & Hex).
    simpl. eexists. split; [done|]. by split.
Qed.

Lemma laser_images_exact (steps : Z) (es : list SceneElement) :
  2 <= steps -> Forall laser_exportable es ->
  exists es', mapM (laser_image cos sin steps) es = Some es' /\
              Forall exact_polyline es'.
Proof.
  intros Hs. induction 1 as [|e es He Hes (es' & Hes' & Hex)].
  - exists []. split; [done|constructor].
  - destruct (laser_image_exact steps e Hs He) as (e' & He' & Hex').
    exists (e' :: es'). split; [|by constructor].
    cbn [mapM]. by rewrite He', Hes'.
Qed.

Lemma export_element_image (grid_size steps : Z) (e e' : SceneElement) :
  laser_image cos sin steps e = Some e' ->
  MainWindow.export_element cos sin false grid_size steps e
  = Some (join_lines (element_lines e')).
Proof.
  unfold laser_image, MainWindow.export_element.
  destruct (MainWindow.export_points cos sin steps e) as [pts|]; [|done].
  simpl. intros [= <-]. rewrite point_lines_written. simpl.
  unfold element_lines. cbn [join_lines foldr points color].
  fold (join_lines ((point_text <$> pts) ++ ["STOP"%string])).
  rewrite <- point_lines_joined. by rewrite !append_assoc.
Qed.

Lemma export_images (grid_size steps : Z) (h : heap) (sc : SceneTab.t)
    (es es' : list SceneElement) :
  mapM (fun el => h !! el) (SceneTab.elements sc) = Some es ->
  mapM (laser_image cos sin steps) es = Some es' ->
  MainWindow.export_laser_format cos sin false grid_size steps h sc
  = Some (join_lines (mjoin (element_lines <$> es'))).
Proof.
  intros Hes Him. unfold MainWindow.export_laser_format.
  rewrite Hes. simpl.
  assert (Hts : mapM (MainWindow.export_element cos sin false grid_size steps) es
                = Some (join_lines <$> (element_lines <$> es'))).
  { apply mapM_Some. apply mapM_Some in Him. clear Hes.
    induction Him as [|e e' es es' He Him IH]; simpl.
    - constructor.
    - constructor; [by apply export_element_image|done]. }
  rewrite Hts. simpl. by rewrite concat_join_lines.
Qed.

End LaserCircles.



(** ** Saving in a state that the window can reach *)

Lemma element_records_length (idx : Z) (e : SceneElement) :
  circle_ok e ->
  exists rs, MainWindow.element_records e = Some rs /\
             length rs = length (MainWindow.element_rows idx e).
Proof.
  intros Hok. unfold MainWindow.element_records, MainWindow.element_rows.
  destruct (String.eqb (kind e) "polyline").
  - eexists. split; [done|]. by rewrite length_fmap, length_imap.
  - destruct (String.eqb_spec (kind e) "circle") as [Hk|Hk].
    + destruct (Hok Hk) as [c ->]. simpl. by eexists.
    + by eexists.
Qed.

Lemma save_rows_from (h : heap) (els : list ref) (idx : Z) :
  Forall circle_ok h -> Forall (allocated h) els ->
  exists es rs,
    mapM (fun el => h !! el) els = Some es /\
    mapM MainWindow.element_records es = Some rs /\
    length (mjoin rs) = length (MainWindow.table_rows_from h idx els).
Proof.
  intros Hh Hels. revert idx.
  induction Hels as [|el els Hel Hels IH]; intros idx.
  - by exists [], [].
  - destruct (lookup_lt_is_Some_2 _ _ Hel) as [e He0].
    assert (He : h !! el = Some e) by exact He0.
    assert (Hok : circle_ok e).
    { eapply Forall_forall in Hh; [done|]. by eapply list_elem_of_lookup_2. }
    destruct (element_records_length idx e Hok) as (r & Hr & Hlen).
    destruct (IH (idx + 1)) as (es & rs & Hes & Hrs & Hlens).
    exists (e :: es), (r :: rs). split; [|split].
    + cbn [mapM]. by rewrite He, Hes.
    + cbn [mapM]. by rewrite Hr, Hrs.
    + change (mjoin (r :: rs)) with (r ++ mjoin rs).
      cbn [MainWindow.table_rows_from]. rewrite He.
      rewrite !length_app. by rewrite Hlen, Hlens.
Qed.

(** X20: in every state that the window can reach, [save_csv] builds its
    records for any scene without raising ([el.points[0]] finds the centre
    of every circle), and it builds as many records as
    [update_elements_table] shows rows for that scene. *)
Theorem save_csv_defined (w : MainWindow.t) (sc : SceneTab.t) :
  MainWindow.reachable w -> sc ∈ MainWindow.tabs w ->
  exists rows,
    MainWindow.save_rows (MainWindow.store w) sc = Some rows /\
    length rows = length (MainWindow.table_rows (MainWindow.store w) sc).
Proof.
  intros Hw Hsc. apply window_inv_reachable in Hw as [Hstore Htabs].
  eapply Forall_forall in Htabs; [|done]. destruct Htabs as [Hels _ _].
  destruct (save_rows_from _ _ 1 Hstore Hels) as (es & rs & Hes & Hrs & Hlen).
  exists (mjoin rs). split; [|done].
  unfold MainWindow.save_rows. rewrite Hes. simpl. by rewrite Hrs.
Qed.

Lemma save_csv_defined_witness :
  exists rows,
    MainWindow.save_rows
      (MainWindow.store (foldl MainWindow.step MainWindow.init session))
      (SceneTab.set_elements [2%nat]
         (UndoManager.mk [(UndoManager.add, 2%nat)] [])
         (SceneTab.init 255 1))
    = Some rows /\
    length rows
    = length (MainWindow.table_rows
                (MainWindow.store (foldl MainWindow.step MainWindow.init session))
                (SceneTab.set_elements [2%nat]
                   (UndoManager.mk [(UndoManager.add, 2%nat)] [])
                   (SceneTab.init 255 1))).
Proof.
  apply (save_csv_defined (foldl MainWindow.step MainWindow.init session)).
  - by exists session.
  - vm_compute. apply list_elem_of_further, list_elem_of_here.
Defined.

(** ** The exported text is stable *)

Lemma lookup_appended (h1 l : heap) :
  Forall2 (fun el e => (h1 ++ l) !! el = Some e) (seq (length h1) (length l)) l.
Proof.
  revert h1. induction l as [|e l IH]; intros h1; simpl; constructor.
  - by apply list_lookup_middle.
  - specialize (IH (h1 ++ [e])). rewrite length_app, <- app_assoc in IH.
    simpl in IH. by rewrite Nat.add_1_r in IH.
Qed.

Lemma element_lines_reimported (e : SceneElement) :
  element_lines (reimported e) = element_lines e.
Proof.
  unfold element_lines, reimported. simpl. by rewrite color_code_round_trip.
Qed.

(** X21: the exported text is a fixed point of import and export: under
    the conditions of the round trip, exporting the scene that the import
    of the text has built writes the same text again, with any grid size
    and step count. *)
Theorem laser_text_stable (cos sin : Py.float -> option Py.float)
    (grid_size steps grid_size' cell_size' grid_size'' steps'' : Z)
    (h h1 : heap) (sc : SceneTab.t) (es : list SceneElement) :
  trig_ok cos -> trig_ok sin -> 2 <= steps ->
  mapM (fun el => h !! el) (SceneTab.elements sc) = Some es ->
  Forall laser_exportable es ->
  exists text : string,
    MainWindow.export_laser_format cos sin false grid_size steps h sc
    = Some text /\
    let d := MainWindow.import_laser_format grid_size' cell_size' text h1 in
    MainWindow.export_laser_format cos sin false grid_size'' steps'' d.1 d.2
    = Some text.
Proof.
  intros Hcos Hsin Hs Hes Hex.
  destruct (laser_images_exact cos sin Hcos Hsin steps es Hs Hex)
    as (es' & Him & Hex').
  exists (join_lines (mjoin (element_lines <$> es'))).
  split; [by eapply export_images|].
  destruct (import_of_export grid_size' cell_size' es' h1 Hex') as [H1 H2].
  simpl.
  rewrite (export_polylines cos sin grid_size'' steps'' _ _ (reimported <$> es')).
  - assert (Hl : element_lines <$> (reimported <$> es') = element_lines <$> es').
    { rewrite <- list_fmap_compose. apply list_fmap_ext.
      intros i e _. apply element_lines_reimported. }
    by rewrite Hl.
  - rewrite H1, H2. rewrite <- (length_fmap reimported es').
    apply lookup_appended.
  - apply Forall_fmap, Forall_forall. by intros e _.
Qed.

Lemma laser_text_stable_witness :
  exists text : string,
    MainWindow.export_laser_format cos0 sin0 false 255 90 grid_heap grid_scene
    = Some text /\
    MainWindow.export_laser_format cos0 sin0 false 100 4
      (MainWindow.import_laser_format 255 1 text []).1
      (MainWindow.import_laser_format 255 1 text []).2
    = Some text.
Proof.
  apply (laser_text_stable cos0 sin0 255 90 255 1 100 4 grid_heap []
           grid_scene grid_heap).
  - apply trig_ok_cos0.
  - apply trig_ok_sin0.
  - lia.
  - reflexivity.
  - repeat (apply Forall_cons; split); [| |by apply Forall_nil].
    + left. split; [reflexivity|]. split; [simpl; lia|].
      repeat (apply Forall_cons; split); try by apply Forall_nil.
      all: split; by vm_compute.
    + left. split; [reflexivity|]. split; [simpl; lia|].
      repeat (apply Forall_cons; split); try by apply Forall_nil.
      all: split; by vm_compute.
Defined.
